(** * Modbus transport layer: MBAP framing over a byte stream, and the
      datagram-to-byte-stream adapter.

    A shallow embedding of the stream transport [tcpTransport] (the MBAP
    frame encoder and decoder, the client matching loop, the single-shot
    server read) and of [udp.go] (the [udpSockWrapper] adapter), followed by
    the properties of the framing layer.

    Conventions.
    - A Go [byte] is a [Byte.byte]; a [[]byte] is a [list byte].
    - A Go [int] is a [Z].  The [int]s of these files are lengths of
      slices and a 16-bit field minus one, far from the bounds of a 64-bit
      integer, so no wrap-around of [int] is written out.  A [uint16] is a
      [Z] in [0 .. 65535]; the two places
      where the source wraps ([tt.lastTxnId++] and the conversion
      [uint16(2+len(p.payload))]) reduce modulo [65536] explicitly.
    - A Go [(value, error)] pair is a [result]; every method threads the
      receiver it mutates and returns the new one.  The receiver keeps the
      source's name [tt]; where a pattern binds the updated receiver it is
      [tt'], since [tt] in a pattern is the constructor of [unit]. *)

From Stdlib Require Import ZArith List Lia Bool.
From Stdlib.Strings Require Import Byte.
Import ListNotations.
Open Scope Z_scope.

(** ** Bytes and the Go built-ins used by the source *)

Definition Z_of_byte (b : byte) : Z := Z.of_N (Byte.to_N b).

(** The conversion [byte(v)]: keeps the low eight bits. *)
Definition byte_of_Z (z : Z) : byte :=
  match Byte.of_N (Z.to_N (z mod 256)) with
  | Some b => b
  | None => x00
  end.

(** [len(s)] *)
Definition len {A : Type} (s : list A) : Z := Z.of_nat (length s).

(** [make([]byte, n)]: [n] zero bytes. *)
Definition make (n : Z) : list byte := repeat x00 (Z.to_nat n).

(** [s[lo:hi]] and [s[lo:]] for indices within bounds. *)
Definition slice {A : Type} (s : list A) (lo hi : Z) : list A :=
  firstn (Z.to_nat (hi - lo)) (skipn (Z.to_nat lo) s).

Definition slice_from {A : Type} (s : list A) (lo : Z) : list A :=
  skipn (Z.to_nat lo) s.

(** Go panics on [s[lo:hi]] unless [0 <= lo <= hi <= cap(s)]; the slices of
    these files are cut from buffers whose capacity is their length. *)
Definition slice_in_range {A : Type} (s : list A) (lo hi : Z) : bool :=
  (0 <=? lo) && (lo <=? hi) && (hi <=? len s).

(** [s[i]] (the zero byte stands for the panic of an index out of range,
    which the callers below exclude by construction of the buffer). *)
Definition index (s : list byte) (i : Z) : byte :=
  nth (Z.to_nat i) s x00.

(** [copy(dst, src)]: overwrites the first [min(len(dst), len(src))]
    elements of [dst] and returns how many were copied.  The result is the
    new content of [dst]. *)
Definition copy (dst src : list byte) : list byte * Z :=
  let k := Nat.min (length dst) (length src) in
  (firstn k src ++ skipn k dst, Z.of_nat k).

(** ** Errors *)

(** What a socket reports: end of stream, the two conditions [io.ReadFull]
    distinguishes, an expired deadline, a closed connection. *)
Inductive io_error : Type :=
| EOF
| ErrUnexpectedEOF
| ErrDeadlineExceeded
| ErrClosed.

(** Modelled from the spec: the two sentinel errors of the package
    ([ErrProtocol], [ErrUnknownProtocolId]) are declared outside the two
    files; section 7 of the design names them "protocol error" and "unknown
    protocol identifier" and keeps them apart from I/O errors.  A socket
    never reports one of the sentinels, hence the separate [io_error]. *)
Inductive error : Type :=
| ErrProtocol
| ErrUnknownProtocolId
| ErrIO (e : io_error).

Inductive result (A : Type) : Type :=
| Ok (a : A)
| Err (e : error).
Arguments Ok {A} a.
Arguments Err {A} e.

(** [errors.Is(err, ErrUnknownProtocolId)] *)
Definition is_ErrUnknownProtocolId (e : error) : bool :=
  match e with
  | ErrUnknownProtocolId => true
  | _ => false
  end.

(** ** Fixed-width integer encoding *)

Module Encoding.

(** Modelled from the spec: the endianness selector and the helpers
    [uint16ToBytes] and [bytesToUint16] live in a file that is not part of
    the core; the design only says that multi-byte integers are big-endian
    two-byte fields.  Most significant byte first for [BIG_ENDIAN]. *)
Inductive Endianness : Type :=
| BIG_ENDIAN
| LITTLE_ENDIAN.

(** Modelled from the spec: the 16-bit value as two bytes. *)
Definition uint16ToBytes (endianness : Endianness) (v : Z) : list byte :=
  match endianness with
  | BIG_ENDIAN => [byte_of_Z (Z.shiftr v 8); byte_of_Z v]
  | LITTLE_ENDIAN => [byte_of_Z v; byte_of_Z (Z.shiftr v 8)]
  end.

(** Modelled from the spec: two bytes as a 16-bit value (fewer than two
    bytes is an index panic in Go; the callers always pass two). *)
Definition bytesToUint16 (endianness : Endianness) (b : list byte) : Z :=
  match b with
  | b0 :: b1 :: _ =>
      match endianness with
      | BIG_ENDIAN => Z.lor (Z.shiftl (Z_of_byte b0) 8) (Z_of_byte b1)
      | LITTLE_ENDIAN => Z.lor (Z.shiftl (Z_of_byte b1) 8) (Z_of_byte b0)
      end
  | _ => 0
  end.

End Encoding.
Import Encoding.

(** The conversion [uint16(n)] of an [int]. *)
Definition uint16 (n : Z) : Z := n mod 65536.

(** Modelled from the spec: the protocol data unit of section 3, a unit
    identifier, a function code and an opaque payload. *)
Record pdu : Type := mkPdu {
  unitId : byte;
  functionCode : byte;
  payload : list byte
}.

Definition maxTCPFrameLength : Z := 260.
Definition mbapHeaderLength : Z := 7.

(** [assembleMBAPFrame]: the receiver is not used by the body. *)
Definition assembleMBAPFrame (txnId : Z) (p : pdu) : list byte :=
  (* transaction identifier *)
  let payload0 := uint16ToBytes BIG_ENDIAN txnId in
  (* protocol identifier (always 0x0000) *)
  let payload1 := payload0 ++ [x00; x00] in
  (* length (covers unit identifier + function code + payload fields) *)
  let payload2 :=
    payload1 ++ uint16ToBytes BIG_ENDIAN (uint16 (2 + len (payload p))) in
  (* unit identifier *)
  let payload3 := payload2 ++ [unitId p] in
  (* function code *)
  let payload4 := payload3 ++ [functionCode p] in
  (* payload *)
  payload4 ++ payload p.

(** ** The sockets underneath *)

Module Net.

(** A connection is observed through what its calls return.  The model is a
    script of the environment: what each successive [Read] finds, the outcome
    of each successive [Write] and [SetDeadline], and a record of the byte
    slices handed to [Write]. *)
Inductive rx_event : Type :=
| RxData (bs : list byte)
| RxErr (e : io_error).

(** A stream connection ([net.Conn] over TCP). *)
Record Conn : Type := mkConn {
  rx : list rx_event;
  wr : list (option io_error);
  dl : list (option io_error);
  written : list (list byte)
}.

(** The next scripted outcome; a call beyond the script succeeds. *)
Definition next_outcome (s : list (option io_error))
  : option io_error * list (option io_error) :=
  match s with
  | [] => (None, [])
  | o :: s' => (o, s')
  end.

(** [Read(buf)] on a stream: as many bytes of the pending data as fit into
    [buf]; the rest of the data stays pending.  With nothing left to arrive
    the call blocks until the deadline and reports it. *)
Definition Conn_Read (c : Conn) (buf : list byte)
  : Conn * list byte * Z * option io_error :=
  match rx c with
  | [] => (c, buf, 0, Some ErrDeadlineExceeded)
  | RxErr e :: rest =>
      (mkConn rest (wr c) (dl c) (written c), buf, 0, Some e)
  | RxData bs :: rest =>
      let '(buf', n) := copy buf bs in
      let rx' := if n <? len bs then RxData (slice_from bs n) :: rest else rest in
      (mkConn rx' (wr c) (dl c) (written c), buf', n, None)
  end.

(** [Write(b)] *)
Definition Conn_Write (c : Conn) (b : list byte) : Conn * Z * option io_error :=
  let '(o, wr') := next_outcome (wr c) in
  (mkConn (rx c) wr' (dl c) (written c ++ [b]),
   match o with None => len b | Some _ => 0 end,
   o).

(** [SetDeadline(t)]: the instant itself is not modelled. *)
Definition Conn_SetDeadline (c : Conn) : Conn * option io_error :=
  let '(o, dl') := next_outcome (dl c) in
  (mkConn (rx c) (wr c) dl' (written c), o).

Definition is_nil (err : option io_error) : bool :=
  match err with
  | None => true
  | Some _ => false
  end.

Definition is_EOF (err : option io_error) : bool :=
  match err with
  | Some EOF => true
  | _ => false
  end.

(** The loop of [io.ReadAtLeast]:
    [for n < min && err == nil { nn, err = r.Read(buf[n:]); n += nn }].
    Each turn either ends the loop or uses up one scripted event, so the
    number of turns is bounded by the script. *)
Fixpoint ReadAtLeast_loop (turns : nat) (r : Conn) (buf : list byte)
  (min n : Z) (err : option io_error)
  : Conn * list byte * Z * option io_error :=
  match turns with
  | O => (r, buf, n, err)
  | S turns' =>
      if (n <? min) && is_nil err then
        let '(r', tail', nn, err') := Conn_Read r (slice_from buf n) in
        ReadAtLeast_loop turns' r' (slice buf 0 n ++ tail') min (n + nn) err'
      else (r, buf, n, err)
  end.

(** [io.ReadFull(r, buf)], that is [io.ReadAtLeast(r, buf, len(buf))]: reads
    exactly [len(buf)] bytes; a stream that ends after some but not all of
    them is [ErrUnexpectedEOF]. *)
Definition ReadFull (r : Conn) (buf : list byte)
  : Conn * list byte * Z * option io_error :=
  let min := len buf in
  let '(r', buf', n, err) :=
    ReadAtLeast_loop (S (length (rx r))) r buf min 0 None in
  let err' :=
    if min <=? n then None
    else if (0 <? n) && is_EOF err then Some ErrUnexpectedEOF
    else err in
  (r', buf', n, err').

(** A datagram socket ([*net.UDPConn]): each receive delivers one whole
    datagram or an error. *)
Inductive dgram_event : Type :=
| Datagram (bs : list byte)
| RecvErr (e : io_error).

Record UDPConn : Type := mkUDPConn {
  inbox : list dgram_event
}.

(** [Read(b)] on a datagram socket: one datagram per call; what does not fit
    into [b] is dropped by the socket. *)
Definition UDPConn_Read (s : UDPConn) (b : list byte)
  : UDPConn * list byte * Z * option io_error :=
  match inbox s with
  | [] => (s, b, 0, Some ErrDeadlineExceeded)
  | RecvErr e :: rest => (mkUDPConn rest, b, 0, Some e)
  | Datagram d :: rest =>
      let '(b', n) := copy b d in
      (mkUDPConn rest, b', n, None)
  end.

End Net.
Import Net.

(** ** The stream transport *)

(** Modelled from the spec: the logging capability is injected from outside
    the core; section 6 fixes only the two warning events and what triggers
    them.  The log is the list of warnings emitted so far. *)
Inductive warning : Type :=
| UnexpectedTxnId (expected received : Z)
| UnexpectedProtocolId (protocolId : Z).

(** The [timeout] field only feeds the instant passed to [SetDeadline]. *)
Record tcpTransport : Type := mkTcpTransport {
  logger : list warning;
  socket : Conn;
  lastTxnId : Z
}.

Definition Warningf (tt : tcpTransport) (w : warning) : tcpTransport :=
  mkTcpTransport (logger tt ++ [w]) (socket tt) (lastTxnId tt).

Definition with_socket (tt : tcpTransport) (c : Conn) : tcpTransport :=
  mkTcpTransport (logger tt) c (lastTxnId tt).

Definition with_lastTxnId (tt : tcpTransport) (t : Z) : tcpTransport :=
  mkTcpTransport (logger tt) (socket tt) t.

(** [newTCPTransport] *)
Definition newTCPTransport (socket : Conn) : tcpTransport :=
  mkTcpTransport [] socket 0.

(** [readMBAPFrame]: reads an entire frame (MBAP header + modbus PDU) from
    the socket. *)
Definition readMBAPFrame (tt : tcpTransport)
  : tcpTransport * result (pdu * Z) :=
  (* read the MBAP header *)
  let rxbuf := make mbapHeaderLength in
  let '(s1, rxbuf, _, err) := ReadFull (socket tt) rxbuf in
  let tt := with_socket tt s1 in
  match err with
  | Some e => (tt, Err (ErrIO e))
  | None =>
      (* decode the transaction identifier *)
      let txnId := bytesToUint16 BIG_ENDIAN (slice rxbuf 0 2) in
      (* decode the protocol identifier *)
      let protocolId := bytesToUint16 BIG_ENDIAN (slice rxbuf 2 4) in
      (* store the source unit id *)
      let unitId := index rxbuf 6 in
      (* determine how many more bytes we need to read *)
      let bytesNeeded := bytesToUint16 BIG_ENDIAN (slice rxbuf 4 6) in
      (* the byte count includes the unit ID field, which we already have *)
      let bytesNeeded := bytesNeeded - 1 in
      (* never read more than the max allowed frame length *)
      if bytesNeeded + mbapHeaderLength >? maxTCPFrameLength then
        (tt, Err ErrProtocol)
      (* an MBAP length of 0 is illegal *)
      else if bytesNeeded <=? 0 then
        (tt, Err ErrProtocol)
      else
        (* read the PDU *)
        let rxbuf := make bytesNeeded in
        let '(s2, rxbuf, _, err) := ReadFull (socket tt) rxbuf in
        let tt := with_socket tt s2 in
        match err with
        | Some e => (tt, Err (ErrIO e))
        | None =>
            (* validate the protocol identifier *)
            if negb (protocolId =? 0) then
              (Warningf tt (UnexpectedProtocolId protocolId),
               Err ErrUnknownProtocolId)
            else
              (* store unit id, function code and payload in the PDU object *)
              (tt, Ok (mkPdu unitId (index rxbuf 0) (slice_from rxbuf 1), txnId))
        end
  end.

(** [readResponse]: reads as many frames as necessary until either the
    response matching [tt.lastTxnId] is received or an error occurs.  The
    [for] loop has no bound of its own; [fuel] counts its turns and [None]
    is a loop still running when the fuel is spent. *)
Fixpoint readResponse (fuel : nat) (tt : tcpTransport)
  : tcpTransport * option (result pdu) :=
  match fuel with
  | O => (tt, None)
  | S fuel' =>
      (* grab a frame *)
      let '(tt', r) := readMBAPFrame tt in
      match r with
      | Err err =>
          (* ignore unknown protocol identifiers *)
          if is_ErrUnknownProtocolId err then readResponse fuel' tt'
          (* abort on any other error *)
          else (tt', Some (Err err))
      | Ok (res, txnId) =>
          (* ignore unknown transaction identifiers *)
          if negb (lastTxnId tt' =? txnId) then
            readResponse fuel'
              (Warningf tt' (UnexpectedTxnId (lastTxnId tt') txnId))
          else (tt', Some (Ok res))
      end
  end.

(** [ExecuteRequest]: runs a request across the socket and returns a
    response. *)
Definition ExecuteRequest (fuel : nat) (tt : tcpTransport) (req : pdu)
  : tcpTransport * option (result pdu) :=
  (* set an i/o deadline on the socket (read and write) *)
  let '(s, err) := Conn_SetDeadline (socket tt) in
  let tt := with_socket tt s in
  match err with
  | Some e => (tt, Some (Err (ErrIO e)))
  | None =>
      (* increase the transaction ID counter *)
      let tt := with_lastTxnId tt (uint16 (lastTxnId tt + 1)) in
      let '(s, _, err) :=
        Conn_Write (socket tt) (assembleMBAPFrame (lastTxnId tt) req) in
      let tt := with_socket tt s in
      match err with
      | Some e => (tt, Some (Err (ErrIO e)))
      | None => readResponse fuel tt
      end
  end.

(** [ReadRequest]: reads a request from the socket. *)
Definition ReadRequest (tt : tcpTransport) : tcpTransport * result pdu :=
  (* set an i/o deadline on the socket (read and write) *)
  let '(s, err) := Conn_SetDeadline (socket tt) in
  let tt := with_socket tt s in
  match err with
  | Some e => (tt, Err (ErrIO e))
  | None =>
      let '(tt', r) := readMBAPFrame tt in
      match r with
      | Err err => (tt', Err err)
      | Ok (req, txnId) =>
          (* store the incoming transaction id *)
          (with_lastTxnId tt' txnId, Ok req)
      end
  end.

(** [WriteResponse]: writes a response to the socket. *)
Definition WriteResponse (tt : tcpTransport) (res : pdu)
  : tcpTransport * option io_error :=
  let '(s, _, err) :=
    Conn_Write (socket tt) (assembleMBAPFrame (lastTxnId tt) res) in
  (with_socket tt s, err).

(** ** The datagram adapter *)

Module UdpSock.

(** [udpSockWrapper] wraps a UDP socket to allow transports to consume data
    off the network socket on a byte per byte basis rather than datagram by
    datagram. *)
Record udpSockWrapper : Type := mkUdpSockWrapper {
  leftoverCount : Z;
  rxbuf : list byte;
  sock : UDPConn
}.

(** [newUDPSockWrapper] *)
Definition newUDPSockWrapper (sock : UDPConn) : udpSockWrapper :=
  mkUdpSockWrapper 0 (make maxTCPFrameLength) sock.

(** A slice expression that panics out of range: [None] is the panic. *)
Definition checked_slice (s : list byte) (lo hi : Z) : option (list byte) :=
  if slice_in_range s lo hi then Some (slice s lo hi) else None.

Definition bind {A B : Type} (m : option A) (k : A -> option B) : option B :=
  match m with
  | Some a => k a
  | None => None
  end.

Notation "x <- m ;; k" := (bind m (fun x => k))
  (at level 61, m at next level, right associativity).

(** [Read(buf)]: the new wrapper, the new content of [buf], the count
    returned and the error; [None] when the call panics. *)
Definition Read (usw : udpSockWrapper) (buf : list byte)
  : option (udpSockWrapper * list byte * Z * option io_error) :=
  if leftoverCount usw >? 0 then
    (* if we're holding onto any bytes from a previous datagram,
       use them to satisfy the read (potentially partially) *)
    src <- checked_slice (rxbuf usw) 0 (leftoverCount usw) ;;
    let '(buf', copied) := copy buf src in
    rxbuf' <-
      (if leftoverCount usw >? copied then
         (* move any leftover bytes to the beginning of the buffer *)
         rest <- checked_slice (rxbuf usw) copied (leftoverCount usw) ;;
         Some (fst (copy (rxbuf usw) rest))
       else Some (rxbuf usw)) ;;
    (* make a note of how many leftover bytes we have in the buffer *)
    let usw' :=
      mkUdpSockWrapper (leftoverCount usw - copied) rxbuf' (sock usw) in
    let rlen := copied in
    Some (usw', buf', rlen, None)
  else
    (* read up to maxTCPFrameLength bytes from the socket *)
    let '(sock', rxbuf0, rlen, err) := UDPConn_Read (sock usw) (rxbuf usw) in
    match err with
    | Some e =>
        Some (mkUdpSockWrapper (leftoverCount usw) rxbuf0 sock', buf, 0, Some e)
    | None =>
        (* copy as many bytes as possible to satisfy the read *)
        src <- checked_slice rxbuf0 0 rlen ;;
        let '(buf', copied) := copy buf src in
        rxbuf' <-
          (if rlen >? copied then
             (* move any leftover bytes to the beginning of the buffer *)
             rest <- checked_slice rxbuf0 copied rlen ;;
             Some (fst (copy rxbuf0 rest))
           else Some rxbuf0) ;;
        (* make a note of how many leftover bytes we have in the buffer *)
        let usw' := mkUdpSockWrapper (rlen - copied) rxbuf' sock' in
        let rlen := copied in
        Some (usw', buf', rlen, None)
    end.

(** The bytes a call stored into the caller's buffer: its first [n]. *)
Definition delivered (buf' : list byte) (n : Z) : list byte := slice buf' 0 n.

(** The leftover region: the first [leftoverCount] bytes of [rxbuf]. *)
Definition leftover (usw : udpSockWrapper) : list byte :=
  slice (rxbuf usw) 0 (leftoverCount usw).

(** The state a wrapper is in between calls: a buffer of the maximum frame
    length whose leftover region lies within it. *)
Definition wf (usw : udpSockWrapper) : Prop :=
  len (rxbuf usw) = maxTCPFrameLength /\
  0 <= leftoverCount usw <= maxTCPFrameLength.

End UdpSock.

(** ** The transport's reads over any byte stream *)

(** The transport holds its socket as a [net.Conn]: anything with a
    [Read(buf)] will do, the datagram adapter as well as a stream socket.
    This is the read side of the transport over an arbitrary reader, whose
    [Read] may also panic ([None]).  A reader need not ever fill a buffer,
    so the loop of [io.ReadAtLeast] takes a bound on its turns here; [None]
    is a panic of the reader or a loop still running when the turns are
    spent. *)
Module Framing.
Section OverReader.

Variable R : Type.
Variable Read : R -> list byte -> option (R * list byte * Z * option io_error).

(** [for n < min && err == nil { nn, err = r.Read(buf[n:]); n += nn }] *)
Fixpoint ReadAtLeast_loop (turns : nat) (r : R) (buf : list byte)
  (min n : Z) (err : option io_error) {struct turns}
  : option (R * list byte * Z * option io_error) :=
  if (n <? min) && is_nil err then
    match turns with
    | O => None
    | S turns' =>
        match Read r (slice_from buf n) with
        | None => None
        | Some (r', tail', nn, err') =>
            ReadAtLeast_loop turns' r' (slice buf 0 n ++ tail') min (n + nn) err'
        end
    end
  else Some (r, buf, n, err).

(** [io.ReadFull(r, buf)] *)
Definition ReadFull (turns : nat) (r : R) (buf : list byte)
  : option (R * list byte * Z * option io_error) :=
  let min := len buf in
  match ReadAtLeast_loop turns r buf min 0 None with
  | None => None
  | Some (r', buf', n, err) =>
      let err' :=
        if min <=? n then None
        else if (0 <? n) && is_EOF err then Some ErrUnexpectedEOF
        else err in
      Some (r', buf', n, err')
  end.

(** [readMBAPFrame], returning the reader it leaves, the warnings it
    logged and its result. *)
Definition readMBAPFrame (turns : nat) (r : R)
  : option (R * list warning * result (pdu * Z)) :=
  (* read the MBAP header *)
  match ReadFull turns r (make mbapHeaderLength) with
  | None => None
  | Some (r1, rxbuf, _, Some e) => Some (r1, [], Err (ErrIO e))
  | Some (r1, rxbuf, _, None) =>
      (* decode the transaction identifier *)
      let txnId := bytesToUint16 BIG_ENDIAN (slice rxbuf 0 2) in
      (* decode the protocol identifier *)
      let protocolId := bytesToUint16 BIG_ENDIAN (slice rxbuf 2 4) in
      (* store the source unit id *)
      let unitId := index rxbuf 6 in
      (* determine how many more bytes we need to read *)
      let bytesNeeded := bytesToUint16 BIG_ENDIAN (slice rxbuf 4 6) in
      (* the byte count includes the unit ID field, which we already have *)
      let bytesNeeded := bytesNeeded - 1 in
      (* never read more than the max allowed frame length *)
      if bytesNeeded + mbapHeaderLength >? maxTCPFrameLength then
        Some (r1, [], Err ErrProtocol)
      (* an MBAP length of 0 is illegal *)
      else if bytesNeeded <=? 0 then
        Some (r1, [], Err ErrProtocol)
      else
        (* read the PDU *)
        match ReadFull turns r1 (make bytesNeeded) with
        | None => None
        | Some (r2, rxbuf, _, Some e) => Some (r2, [], Err (ErrIO e))
        | Some (r2, rxbuf, _, None) =>
            (* validate the protocol identifier *)
            if negb (protocolId =? 0) then
              Some (r2, [UnexpectedProtocolId protocolId],
                    Err ErrUnknownProtocolId)
            else
              (* store unit id, function code and payload in the PDU object *)
              Some (r2, [],
                    Ok (mkPdu unitId (index rxbuf 0) (slice_from rxbuf 1), txnId))
        end
  end.

End OverReader.
End Framing.

(** A stream socket as a reader: its [Read] never panics. *)
Definition Conn_reader (c : Conn) (buf : list byte)
  : option (Conn * list byte * Z * option io_error) :=
  Some (Conn_Read c buf).

(** * The vocabulary of the properties *)

Import UdpSock.

(** ** Streams *)

(** Reading touches only the pending input of a connection. *)
Definition same_output (c c' : Conn) : Prop :=
  wr c' = wr c /\ dl c' = dl c /\ written c' = written c.

(** The size of what a stream still has to deliver: one for each event and
    one for each pending byte. *)
Fixpoint rx_weight (s : list rx_event) : nat :=
  match s with
  | [] => O
  | RxData bs :: s' => S (length bs + rx_weight s')
  | RxErr _ :: s' => S (rx_weight s')
  end.

(** The data bytes a stream still has to deliver, in order. *)
Fixpoint stream_bytes (s : list rx_event) : list byte :=
  match s with
  | [] => []
  | RxData bs :: s' => bs ++ stream_bytes s'
  | RxErr _ :: s' => stream_bytes s'
  end.

(** ** Frames *)

(** The header and the body of a frame, as the decoder reads them. *)
Definition frame_header (txnId : Z) (p : pdu) : list byte :=
  uint16ToBytes BIG_ENDIAN txnId ++ [x00; x00]
  ++ uint16ToBytes BIG_ENDIAN (uint16 (2 + len (payload p))) ++ [unitId p].

Definition frame_body (p : pdu) : list byte := functionCode p :: payload p.

(** The length field as the decoder reads it: bytes 4 and 5 of the frame. *)
Definition length_field (frame : list byte) : Z :=
  bytesToUint16 BIG_ENDIAN (slice frame 4 6).

(** ** The matching loop *)

(** One turn of the loop that discards the frame it read: the frame was
    rejected for its protocol identifier, or it decoded with a transaction
    id other than the awaited [T] (which is logged). *)
Inductive discards (T : Z) : tcpTransport -> tcpTransport -> Prop :=
| discards_protocol (tt tt1 : tcpTransport) :
    readMBAPFrame tt = (tt1, Err ErrUnknownProtocolId) ->
    discards T tt tt1
| discards_txn (tt tt1 : tcpTransport) (p : pdu) (t : Z) :
    readMBAPFrame tt = (tt1, Ok (p, t)) ->
    t <> T ->
    discards T tt (Warningf tt1 (UnexpectedTxnId T t)).

(** [n] discarded frames in a row. *)
Inductive skips (T : Z) : nat -> tcpTransport -> tcpTransport -> Prop :=
| skips_O (tt : tcpTransport) : skips T O tt tt
| skips_S (n : nat) (tt tt1 tt2 : tcpTransport) :
    discards T tt tt1 -> skips T n tt1 tt2 -> skips T (S n) tt tt2.

(** The frame that ends the loop: one carrying the awaited id, or a decode
    or I/O error other than the unknown protocol identifier. *)
Definition ends (T : Z) (tt tt' : tcpTransport) (res : result pdu) : Prop :=
  match res with
  | Ok p => readMBAPFrame tt = (tt', Ok (p, T))
  | Err e => readMBAPFrame tt = (tt', Err e) /\ e <> ErrUnknownProtocolId
  end.

(** A warning that reports a discarded frame to a loop awaiting [T]: a
    protocol identifier other than 0, or a transaction id other than [T]
    reported against [T]. *)
Definition reports_discard (T : Z) (w : warning) : Prop :=
  match w with
  | UnexpectedTxnId expected received => expected = T /\ received <> T
  | UnexpectedProtocolId protocolId => protocolId <> 0
  end.

(** What may arrive ahead of the awaited response: a well-formed frame
    with some transaction id, or a frame of a foreign protocol, that is a
    header with some protocol identifier followed by the bytes its length
    field announces. *)
Inductive noise : Type :=
| Stale (t : Z) (p : pdu)
| Foreign (t protocolId : Z) (u : byte) (body : list byte).

Definition noise_bytes (f : noise) : list byte :=
  match f with
  | Stale t p => assembleMBAPFrame t p
  | Foreign t protocolId u body =>
      uint16ToBytes BIG_ENDIAN t ++ uint16ToBytes BIG_ENDIAN protocolId
      ++ uint16ToBytes BIG_ENDIAN (1 + len body) ++ [u] ++ body
  end.

(** A frame the loop awaiting [T] discards: another transaction id on a
    frame that fits, or a protocol identifier other than 0 on a frame whose
    length is legal. *)
Definition discardable (T : Z) (f : noise) : Prop :=
  match f with
  | Stale t p => 0 <= t < 65536 /\ t <> T /\ len (payload p) <= 252
  | Foreign t protocolId u body =>
      0 < protocolId < 65536 /\ 1 <= len body <= 253
  end.

(** The warning the loop awaiting [T] logs for it. *)
Definition noise_warning (T : Z) (f : noise) : warning :=
  match f with
  | Stale t p => UnexpectedTxnId T t
  | Foreign t protocolId u body => UnexpectedProtocolId protocolId
  end.

(** A caller issuing one request after the other on the same transport,
    whatever each call returns. *)
Fixpoint run_requests (fuel : nat) (tt : tcpTransport) (reqs : list pdu)
  : tcpTransport :=
  match reqs with
  | [] => tt
  | req :: reqs' => run_requests fuel (fst (ExecuteRequest fuel tt req)) reqs'
  end.

(** ** The adapter between calls *)

(** The bytes a call can draw on: the leftover region, or else the next
    datagram cut to the size of the internal buffer. *)
Definition source (usw : udpSockWrapper) : list byte :=
  if leftoverCount usw >? 0 then leftover usw
  else match inbox (sock usw) with
       | Datagram d :: _ => firstn (length (rxbuf usw)) d
       | _ => []
       end.

(** The datagram a call serves bytes from: the one whose leftover bytes are
    buffered, or else the one the call receives (cut to the size of the
    internal buffer); [last] is the datagram received most recently. *)
Definition served_datagram (last : list byte) (usw : udpSockWrapper)
  : list byte :=
  if leftoverCount usw >? 0 then last
  else match inbox (sock usw) with
       | Datagram d :: _ => firstn (length (rxbuf usw)) d
       | _ => last
       end.

(** The states an adapter goes through, from [newUDPSockWrapper] on, each
    with the datagram it received most recently (none at first). *)
Inductive serving : list byte -> udpSockWrapper -> Prop :=
| serving_new (sock : UDPConn) : serving [] (newUDPSockWrapper sock)
| serving_Read (last : list byte) (usw usw' : udpSockWrapper)
    (buf buf' : list byte) (n : Z) (err : option io_error) :
    serving last usw ->
    Read usw buf = Some (usw', buf', n, err) ->
    serving (served_datagram last usw) usw'.

(** A caller reading through the adapter with buffers of the given sizes,
    one call after the other: the adapter it leaves and the bytes each call
    delivered; [None] when a call panics or reports an error. *)
Fixpoint read_sizes (usw : udpSockWrapper) (sizes : list Z)
  : option (udpSockWrapper * list (list byte)) :=
  match sizes with
  | [] => Some (usw, [])
  | k :: sizes' =>
      match Read usw (make k) with
      | Some (usw', buf', n, None) =>
          match read_sizes usw' sizes' with
          | Some (usw'', chunks) => Some (usw'', delivered buf' n :: chunks)
          | None => None
          end
      | _ => None
      end
  end.

Definition total (sizes : list Z) : Z := fold_right Z.add 0 sizes.

(** * Properties *)

(** ** Bytes and 16-bit fields *)

Lemma Z_of_byte_range (b : byte) : 0 <= Z_of_byte b < 256.
Proof.
  unfold Z_of_byte. pose proof (Byte.to_N_bounded b). lia.
Qed.

Lemma Z_of_byte_of_Z (z : Z) : Z_of_byte (byte_of_Z z) = z mod 256.
Proof.
  unfold Z_of_byte, byte_of_Z.
  pose proof (Z.mod_pos_bound z 256 ltac:(lia)) as Hz.
  destruct (Byte.of_N (Z.to_N (z mod 256))) as [b|] eqn:E.
  - apply Byte.to_of_N in E. rewrite E. lia.
  - apply Byte.of_N_None_iff in E. lia.
Qed.

Lemma byte_of_Z_of_byte (b : byte) : byte_of_Z (Z_of_byte b) = b.
Proof.
  unfold byte_of_Z. pose proof (Z_of_byte_range b) as Hb.
  rewrite Z.mod_small by lia. unfold Z_of_byte.
  rewrite N2Z.id, Byte.of_to_N. reflexivity.
Qed.

Lemma lor_shiftl_8 (v : Z) :
  0 <= v ->
  Z.lor (Z.shiftl ((Z.shiftr v 8) mod 256) 8) (v mod 256) = v mod 65536.
Proof.
  intros Hv. apply Z.bits_inj'. intros n Hn.
  rewrite Z.lor_spec.
  change 256 with (2 ^ 8). change 65536 with (2 ^ 16).
  destruct (Z.ltb_spec n 8) as [Hlt|Hge].
  - rewrite Z.shiftl_spec_low by lia.
    rewrite !Z.mod_pow2_bits_low by lia. reflexivity.
  - rewrite Z.shiftl_spec by lia.
    rewrite (Z.mod_pow2_bits_high v 8 n) by lia.
    rewrite orb_false_r.
    destruct (Z.ltb_spec n 16) as [Hlt16|Hge16].
    + rewrite !Z.mod_pow2_bits_low by lia.
      rewrite Z.shiftr_spec by lia. f_equal. lia.
    + rewrite !Z.mod_pow2_bits_high by lia. reflexivity.
Qed.

(** Decoding undoes encoding on every 16-bit value; on any other
    non-negative integer it yields the value modulo [65536]. *)
Lemma bytesToUint16_uint16ToBytes_mod (v : Z) :
  0 <= v ->
  bytesToUint16 BIG_ENDIAN (uint16ToBytes BIG_ENDIAN v) = v mod 65536.
Proof.
  intros Hv. cbn [uint16ToBytes bytesToUint16].
  rewrite !Z_of_byte_of_Z. now apply lor_shiftl_8.
Qed.

Lemma bytesToUint16_uint16ToBytes (v : Z) :
  0 <= v < 65536 ->
  bytesToUint16 BIG_ENDIAN (uint16ToBytes BIG_ENDIAN v) = v.
Proof.
  intros Hv. rewrite bytesToUint16_uint16ToBytes_mod by lia.
  apply Z.mod_small. lia.
Qed.

Lemma bytesToUint16_range (e : Endianness) (b : list byte) :
  0 <= bytesToUint16 e b < 65536.
Proof.
  assert (H : forall x y, 0 <= Z.lor (Z.shiftl (Z_of_byte x) 8) (Z_of_byte y) < 65536).
  { intros x y.
    pose proof (Z_of_byte_range x) as Hx. pose proof (Z_of_byte_range y) as Hy.
    assert (Hs : 0 <= Z.shiftl (Z_of_byte x) 8) by (apply Z.shiftl_nonneg; lia).
    split.
    - apply Z.lor_nonneg. lia.
    - change 65536 with (2 ^ 16).
      destruct (Z.eq_dec (Z.lor (Z.shiftl (Z_of_byte x) 8) (Z_of_byte y)) 0) as [E|NE];
        [rewrite E; lia|].
      apply Z.log2_lt_pow2; [pose proof (Z.lor_nonneg (Z.shiftl (Z_of_byte x) 8) (Z_of_byte y)); lia|].
      rewrite Z.log2_lor by lia.
      apply Z.max_lub_lt.
      + destruct (Z.eq_dec (Z_of_byte x) 0) as [E0|NE0].
        * rewrite E0. cbn. lia.
        * rewrite Z.log2_shiftl by lia.
          assert (Z.log2 (Z_of_byte x) < 8) by (apply Z.log2_lt_pow2; lia). lia.
      + destruct (Z.eq_dec (Z_of_byte y) 0) as [E0|NE0].
        * rewrite E0. cbn. lia.
        * assert (Z.log2 (Z_of_byte y) < 8) by (apply Z.log2_lt_pow2; lia). lia. }
  destruct b as [|b0 [|b1 b]]; cbn; try lia.
  destruct e; apply H.
Qed.

Lemma uint16ToBytes_length (e : Endianness) (v : Z) :
  length (uint16ToBytes e v) = 2%nat.
Proof. destruct e; reflexivity. Qed.

(** ** Go built-ins *)

Lemma len_app {A : Type} (a b : list A) : len (a ++ b) = len a + len b.
Proof. unfold len. rewrite length_app. lia. Qed.

Lemma len_nonneg {A : Type} (a : list A) : 0 <= len a.
Proof. unfold len. lia. Qed.

Lemma make_length (n : Z) : length (make n) = Z.to_nat n.
Proof. unfold make. apply repeat_length. Qed.

Lemma len_make (n : Z) : 0 <= n -> len (make n) = n.
Proof. intros. unfold len. rewrite make_length. lia. Qed.

Lemma copy_length (dst src : list byte) :
  length (fst (copy dst src)) = length dst.
Proof.
  unfold copy. cbn [fst].
  rewrite length_app, length_firstn, length_skipn. lia.
Qed.

Lemma copy_count (dst src : list byte) :
  snd (copy dst src) = Z.min (len dst) (len src).
Proof. unfold copy, len. cbn [snd]. lia. Qed.

Lemma copy_delivered (dst src : list byte) :
  slice (fst (copy dst src)) 0 (snd (copy dst src))
  = firstn (length dst) src.
Proof.
  unfold copy, slice. cbn [fst snd].
  rewrite Z.sub_0_r, Nat2Z.id. cbn [Z.to_nat skipn].
  rewrite firstn_app.
  rewrite length_firstn.
  replace (Nat.min (length dst) (length src) -
           Nat.min (Nat.min (length dst) (length src)) (length src))%nat
    with 0%nat by lia.
  cbn [firstn]. rewrite app_nil_r.
  rewrite firstn_firstn.
  destruct (Nat.le_ge_cases (length dst) (length src)).
  - f_equal. lia.
  - replace (Nat.min _ _) with (length src) by lia.
    rewrite firstn_all. symmetry. apply firstn_all2. lia.
Qed.

(** ** Reading from a stream *)

Lemma same_output_refl (c : Conn) : same_output c c.
Proof. repeat split. Qed.

Lemma same_output_trans (a b c : Conn) :
  same_output a b -> same_output b c -> same_output a c.
Proof.
  unfold same_output. intros (H1 & H2 & H3) (H4 & H5 & H6).
  repeat split; congruence.
Qed.

Lemma Conn_Read_same_output (c : Conn) (buf : list byte) :
  same_output c (fst (fst (fst (Conn_Read c buf)))).
Proof.
  unfold Conn_Read.
  destruct (rx c) as [|[bs|e] rest]; cbn; try apply same_output_refl.
  - destruct (copy buf bs) as [buf' n]. repeat split.
  - repeat split.
Qed.

Lemma ReadAtLeast_loop_same_output (turns : nat) :
  forall r buf min n err,
    same_output r (fst (fst (fst (ReadAtLeast_loop turns r buf min n err)))).
Proof.
  induction turns as [|turns IH]; intros r buf min n err; cbn [ReadAtLeast_loop].
  - apply same_output_refl.
  - destruct ((n <? min) && is_nil err); [|apply same_output_refl].
    pose proof (Conn_Read_same_output r (slice_from buf n)) as HR.
    destruct (Conn_Read r (slice_from buf n)) as [[[r' tail'] nn] err'].
    cbn [fst] in HR.
    eapply same_output_trans; [exact HR|apply IH].
Qed.

Lemma ReadFull_same_output (r : Conn) (buf : list byte) :
  same_output r (fst (fst (fst (ReadFull r buf)))).
Proof.
  unfold ReadFull.
  pose proof (ReadAtLeast_loop_same_output (S (length (rx r))) r buf (len buf) 0 None) as H.
  destruct (ReadAtLeast_loop _ r buf (len buf) 0 None) as [[[r' buf'] n] err].
  exact H.
Qed.

(** The loop on a stream whose pending chunks hold the wanted bytes: it
    fills the rest of the buffer with them, whatever the chunking, and
    leaves what follows pending. *)
Lemma ReadAtLeast_loop_data (cs : list (list byte)) :
  forall turns r pre tl want more rest,
    (length cs <= turns)%nat ->
    rx r = map RxData cs ++ rest ->
    concat cs = want ++ more ->
    length tl = length want ->
    exists cs',
      ReadAtLeast_loop turns r (pre ++ tl) (len (pre ++ tl)) (len pre) None
      = (mkConn (map RxData cs' ++ rest) (wr r) (dl r) (written r),
         pre ++ want, len (pre ++ tl), None)
      /\ concat cs' = more.
Proof.
  induction cs as [|c cs IH]; intros turns r pre tl want more rest Hturns Hrx Hcat Hlen.
  - (* nothing pending: nothing is wanted *)
    cbn in Hcat. symmetry in Hcat. apply app_eq_nil in Hcat as [-> ->].
    destruct tl; [|discriminate]. rewrite app_nil_r.
    exists []. split; [|reflexivity].
    destruct r as [rxr wrr dlr wrt]. cbn in Hrx. subst rxr. cbn [map app wr dl written].
    destruct turns; cbn [ReadAtLeast_loop]; [reflexivity|].
    rewrite Z.ltb_irrefl. reflexivity.
  - destruct turns as [|turns]; [cbn in Hturns; lia|].
    cbn [ReadAtLeast_loop].
    destruct (Z.ltb_spec (len pre) (len (pre ++ tl))) as [Hlt|Hge].
    + (* the buffer is not full yet: one [Read] *)
      cbn [is_nil andb].
      unfold slice_from, slice. rewrite Z.sub_0_r. cbn [Z.to_nat skipn].
      unfold len at 1 2. rewrite !Nat2Z.id.
      rewrite skipn_app, skipn_all, Nat.sub_diag. cbn [skipn app].
      rewrite firstn_app, firstn_all, Nat.sub_diag. cbn [firstn]. rewrite app_nil_r.
      unfold Conn_Read. rewrite Hrx. cbn [map app].
      unfold copy.
      set (k := Nat.min (length tl) (length c)).
      rewrite len_app in Hlt.
      assert (Htl : (0 < length tl)%nat) by (unfold len in Hlt; lia).
      cbn [concat] in Hcat.
      destruct (Z.ltb_spec (Z.of_nat k) (len c)) as [Hpart|Hwhole].
      * (* the chunk is larger than the room left: it is split *)
        assert (Hk : k = length tl) by (unfold len in Hpart; lia).
        assert (Hwant : want = firstn k c).
        { apply (f_equal (firstn k)) in Hcat.
          rewrite !firstn_app in Hcat.
          replace (k - length c)%nat with 0%nat in Hcat by lia.
          replace (k - length want)%nat with 0%nat in Hcat by lia.
          cbn [firstn] in Hcat. rewrite !app_nil_r in Hcat.
          rewrite (firstn_all2 want) in Hcat by lia. congruence. }
        assert (Hmore : more = skipn k c ++ concat cs).
        { apply (f_equal (skipn k)) in Hcat.
          rewrite !skipn_app in Hcat.
          replace (k - length c)%nat with 0%nat in Hcat by lia.
          replace (k - length want)%nat with 0%nat in Hcat by lia.
          cbn [skipn] in Hcat.
          rewrite (skipn_all2 want) in Hcat by lia. cbn [app] in Hcat. congruence. }
        exists (skipn k c :: cs). split; [|cbn [concat]; congruence].
        replace (skipn k tl) with (@nil byte) by (rewrite Hk, skipn_all; reflexivity).
        rewrite app_nil_r. unfold slice_from. rewrite Nat2Z.id.
        replace (len pre + Z.of_nat k) with (len (pre ++ firstn k c)).
        2:{ rewrite len_app. unfold len. rewrite length_firstn. lia. }
        assert (Hfull : len (pre ++ tl) = len (pre ++ firstn k c)).
        { rewrite !len_app. unfold len. rewrite length_firstn. lia. }
        rewrite Hfull, <- Hwant.
        cbn [map app].
        destruct turns; cbn [ReadAtLeast_loop]; [reflexivity|].
        rewrite Z.ltb_irrefl. reflexivity.
      * (* the whole chunk fits *)
        assert (Hk : k = length c) by (unfold len in Hwhole; lia).
        assert (Hle : (length c <= length want)%nat) by lia.
        assert (Hwant : want = c ++ skipn k want).
        { rewrite <- (firstn_skipn k want) at 1. f_equal.
          apply (f_equal (firstn k)) in Hcat.
          rewrite !firstn_app in Hcat.
          replace (k - length c)%nat with 0%nat in Hcat by lia.
          replace (k - length want)%nat with 0%nat in Hcat by lia.
          cbn [firstn] in Hcat. rewrite !app_nil_r in Hcat.
          rewrite (firstn_all2 c) in Hcat by lia. congruence. }
        assert (Hrest : concat cs = skipn k want ++ more).
        { rewrite Hwant in Hcat at 1. rewrite <- app_assoc in Hcat.
          now apply app_inv_head in Hcat. }
        replace (firstn k c) with c by (rewrite Hk, firstn_all; reflexivity).
        specialize (IH turns
          (mkConn (map RxData cs ++ rest) (wr r) (dl r) (written r))
          (pre ++ c) (skipn k tl) (skipn k want) more rest).
        destruct IH as (cs' & Hloop & Hmore); [cbn in Hturns; lia|reflexivity|exact Hrest| |].
        { rewrite !length_skipn. lia. }
        exists cs'. split; [|exact Hmore].
        cbn [wr dl written] in Hloop.
        replace (len pre + Z.of_nat k) with (len (pre ++ c)).
        2:{ rewrite len_app. unfold len. lia. }
        assert (Hfull : len (pre ++ tl) = len ((pre ++ c) ++ skipn k tl)).
        { rewrite !len_app. unfold len. rewrite length_skipn. lia. }
        rewrite Hfull. rewrite (app_assoc pre c).
        rewrite Hloop. rewrite <- app_assoc, <- Hwant. reflexivity.
    + (* the buffer is full already *)
      rewrite len_app in Hge.
      assert (Htl : tl = []) by (destruct tl; [reflexivity|unfold len in Hge; cbn in Hge; lia]).
      subst tl. destruct want; [|discriminate].
      cbn [app] in Hcat. rewrite !app_nil_r.
      exists (c :: cs). split; [|exact Hcat].
      cbn [andb]. rewrite <- Hrx. destruct r; reflexivity.
Qed.

Lemma ReadFull_data (cs : list (list byte)) (r : Conn)
  (buf want more : list byte) (rest : list rx_event) :
  rx r = map RxData cs ++ rest ->
  concat cs = want ++ more ->
  length buf = length want ->
  exists cs',
    ReadFull r buf
    = (mkConn (map RxData cs' ++ rest) (wr r) (dl r) (written r),
       want, len buf, None)
    /\ concat cs' = more.
Proof.
  intros Hrx Hcat Hlen.
  destruct (ReadAtLeast_loop_data cs (S (length (rx r))) r [] buf want more rest)
    as (cs' & Hloop & Hmore); try assumption.
  { rewrite Hrx, length_app, length_map. lia. }
  exists cs'. split; [|exact Hmore].
  unfold ReadFull. cbn [app] in Hloop. change (len []) with 0 in Hloop.
  rewrite Hloop. rewrite Z.leb_refl. reflexivity.
Qed.

(** ** The frame encoder *)

Lemma assembleMBAPFrame_split (txnId : Z) (p : pdu) :
  assembleMBAPFrame txnId p = frame_header txnId p ++ frame_body p.
Proof.
  unfold assembleMBAPFrame, frame_header, frame_body.
  cbn [uint16ToBytes app]. reflexivity.
Qed.

Lemma frame_header_length (txnId : Z) (p : pdu) :
  length (frame_header txnId p) = 7%nat.
Proof. reflexivity. Qed.

Lemma assembleMBAPFrame_len (txnId : Z) (p : pdu) :
  len (assembleMBAPFrame txnId p) = mbapHeaderLength + 1 + len (payload p).
Proof.
  rewrite assembleMBAPFrame_split, len_app. unfold len at 1 2.
  rewrite frame_header_length. unfold frame_body, mbapHeaderLength, len.
  cbn [length]. lia.
Qed.

(** The fields of a header, read back the way [readMBAPFrame] does. *)
Lemma frame_header_fields (txnId : Z) (p : pdu) :
  0 <= txnId < 65536 ->
  bytesToUint16 BIG_ENDIAN (slice (frame_header txnId p) 0 2) = txnId
  /\ bytesToUint16 BIG_ENDIAN (slice (frame_header txnId p) 2 4) = 0
  /\ bytesToUint16 BIG_ENDIAN (slice (frame_header txnId p) 4 6)
     = uint16 (2 + len (payload p))
  /\ index (frame_header txnId p) 6 = unitId p.
Proof.
  intros Ht.
  pose proof (bytesToUint16_uint16ToBytes txnId Ht) as H1.
  pose proof (bytesToUint16_uint16ToBytes (uint16 (2 + len (payload p)))) as H2.
  unfold frame_header, slice, index. cbn [uint16ToBytes] in *.
  repeat split.
  - exact H1.
  - apply H2. unfold uint16. apply Z.mod_pos_bound. lia.
Qed.

(** ** Encoding then decoding *)

(** C1. Round trip: for every PDU whose payload has between 0 and 252
    bytes and every 16-bit transaction id, when the bytes produced by
    [assembleMBAPFrame] are what the stream delivers next (in whatever
    chunks the socket hands them over, and whatever follows them),
    [readMBAPFrame] succeeds and returns the original unit id, function
    code and payload together with the original transaction id, leaving
    exactly what followed the frame pending and logging nothing. *)
Theorem readMBAPFrame_assembleMBAPFrame
  (tt : tcpTransport) (txnId : Z) (p : pdu)
  (cs : list (list byte)) (more : list byte) (rest : list rx_event) :
  0 <= txnId < 65536 ->
  0 <= len (payload p) <= 252 ->
  rx (socket tt) = map RxData cs ++ rest ->
  concat cs = assembleMBAPFrame txnId p ++ more ->
  exists cs',
    readMBAPFrame tt
    = (with_socket tt
         (mkConn (map RxData cs' ++ rest)
            (wr (socket tt)) (dl (socket tt)) (written (socket tt))),
       Ok (p, txnId))
    /\ concat cs' = more.
Proof.
  intros Ht Hp Hrx Hcat.
  rewrite assembleMBAPFrame_split, <- app_assoc in Hcat.
  destruct (ReadFull_data cs (socket tt) (make mbapHeaderLength)
              (frame_header txnId p) (frame_body p ++ more) rest Hrx Hcat)
    as (cs1 & Hhdr & Hcat1); [reflexivity|].
  destruct (frame_header_fields txnId p Ht) as (Htxn & Hproto & Hlen & Hunit).
  assert (Hneeded : uint16 (2 + len (payload p)) - 1 = 1 + len (payload p)).
  { unfold uint16. rewrite Z.mod_small by lia. lia. }
  set (s1 := mkConn (map RxData cs1 ++ rest)
               (wr (socket tt)) (dl (socket tt)) (written (socket tt))) in *.
  destruct (ReadFull_data cs1 s1 (make (1 + len (payload p)))
              (frame_body p) more rest eq_refl Hcat1)
    as (cs2 & Hbody & Hcat2).
  { rewrite make_length. unfold frame_body, len. cbn [length]. lia. }
  exists cs2. split; [|exact Hcat2].
  unfold readMBAPFrame. rewrite Hhdr.
  rewrite Htxn, Hproto, Hlen, Hunit, Hneeded.
  unfold mbapHeaderLength, maxTCPFrameLength.
  destruct (Z.gtb_spec (1 + len (payload p) + 7) 260) as [Hgt|_]; [lia|].
  destruct (Z.leb_spec (1 + len (payload p)) 0) as [Hle|_]; [lia|].
  cbn [with_socket socket]. rewrite Hbody.
  cbn [Z.eqb negb with_socket logger lastTxnId socket s1 wr dl written].
  unfold frame_body, index, slice_from. cbn [Z.to_nat Pos.to_nat Pos.iter_op nth skipn].
  destruct p; reflexivity.
Qed.

(** The frame arriving in one piece with nothing after it. *)
Lemma readMBAPFrame_assembleMBAPFrame_witness :
  let p := mkPdu x11 x03 [x00; x6b; x00; x03] in
  let c := mkConn [RxData (assembleMBAPFrame 258 p)] [] [] [] in
  exists cs',
    readMBAPFrame (mkTcpTransport [] c 7)
    = (mkTcpTransport [] (mkConn (map RxData cs' ++ []) [] [] []) 7, Ok (p, 258))
    /\ concat cs' = [].
Proof.
  intros p c.
  apply (readMBAPFrame_assembleMBAPFrame (mkTcpTransport [] c 7) 258 p
           [assembleMBAPFrame 258 p] [] []).
  - lia.
  - cbn. lia.
  - reflexivity.
  - cbn [concat]. rewrite !app_nil_r. reflexivity.
Defined.

(** The length field holds [2 + len(payload)] reduced to 16 bits. *)
Lemma assembleMBAPFrame_length_field (txnId : Z) (p : pdu) :
  length_field (assembleMBAPFrame txnId p) = uint16 (2 + len (payload p)).
Proof.
  pose proof (bytesToUint16_uint16ToBytes (uint16 (2 + len (payload p)))) as H.
  unfold length_field, assembleMBAPFrame, slice.
  cbn [uint16ToBytes app] in *.
  apply H. unfold uint16. apply Z.mod_pos_bound. lia.
Qed.

(** C5, as stated, fails on a payload of 65534 bytes: [2 + len(payload)] is
    65536, which the conversion to [uint16] turns into 0, so the two length
    bytes are [00 00]. *)
Lemma assembleMBAPFrame_length_field_wraps :
  let p := mkPdu x01 x03 (make 65534) in
  length_field (assembleMBAPFrame 1 p) = 0
  /\ 2 + len (payload p) = 65536
  /\ length_field (assembleMBAPFrame 1 p) <> 2 + len (payload p).
Proof.
  assert (H1 : length_field (assembleMBAPFrame 1 (mkPdu x01 x03 (make 65534))) = 0)
    by (vm_compute; reflexivity).
  assert (H2 : 2 + len (payload (mkPdu x01 x03 (make 65534))) = 65536)
    by (vm_compute; reflexivity).
  cbv zeta. rewrite H1, H2. repeat split. discriminate.
Qed.

(** C5 (amended). For every PDU whose payload has at most 65533 bytes and
    every 16-bit transaction id, [assembleMBAPFrame] produces exactly the
    two big-endian bytes of the transaction id, the two bytes [00 00], the
    two big-endian bytes of [2 + len(payload)], the unit id, the function
    code and the payload bytes, with nothing between or after them: the
    transaction id and the length read back from the frame are the
    originals, and the frame has [7 + 1 + len(payload)] bytes. *)
Theorem assembleMBAPFrame_layout (txnId : Z) (p : pdu) :
  0 <= txnId < 65536 ->
  len (payload p) <= 65533 ->
  assembleMBAPFrame txnId p
  = uint16ToBytes BIG_ENDIAN txnId ++ [x00; x00]
    ++ uint16ToBytes BIG_ENDIAN (2 + len (payload p))
    ++ [unitId p] ++ [functionCode p] ++ payload p
  /\ bytesToUint16 BIG_ENDIAN (slice (assembleMBAPFrame txnId p) 0 2) = txnId
  /\ length_field (assembleMBAPFrame txnId p) = 2 + len (payload p)
  /\ len (assembleMBAPFrame txnId p) = 7 + 1 + len (payload p).
Proof.
  intros Ht Hp.
  pose proof (len_nonneg (payload p)) as H0.
  assert (Hfit : uint16 (2 + len (payload p)) = 2 + len (payload p))
    by (unfold uint16; apply Z.mod_small; lia).
  repeat apply conj.
  - unfold assembleMBAPFrame. rewrite Hfit.
    cbn [uint16ToBytes app]. reflexivity.
  - pose proof (bytesToUint16_uint16ToBytes txnId Ht) as H.
    unfold assembleMBAPFrame, slice. cbn [uint16ToBytes app] in *. exact H.
  - rewrite assembleMBAPFrame_length_field. exact Hfit.
  - apply assembleMBAPFrame_len.
Qed.

(** A read request for three registers, transaction 1. *)
Lemma assembleMBAPFrame_layout_witness :
  assembleMBAPFrame 1 (mkPdu x11 x03 [x00; x6b; x00; x03])
  = [x00; x01; x00; x00; x00; x06; x11; x03; x00; x6b; x00; x03]
  /\ length_field (assembleMBAPFrame 1 (mkPdu x11 x03 [x00; x6b; x00; x03])) = 6.
Proof.
  destruct (assembleMBAPFrame_layout 1 (mkPdu x11 x03 [x00; x6b; x00; x03]))
    as (H1 & _ & H3 & _).
  - lia.
  - cbn. lia.
  - split; [rewrite H1; reflexivity|exact H3].
Defined.

(** ** Illegal length fields *)

(** C3. Whenever the seven header bytes have been read and the length
    field they carry leaves [remaining = length - 1] with [remaining <= 0]
    (a length of 0 or 1) or [7 + remaining > 260], [readMBAPFrame] returns
    the protocol error and no PDU; the client loop then aborts with that
    error, and so does the server's [ReadRequest]: neither path produces
    a PDU from such a frame. *)
Theorem readMBAPFrame_illegal_length
  (tt : tcpTransport) (s1 : Conn) (hdr : list byte) (n : Z) :
  ReadFull (socket tt) (make mbapHeaderLength) = (s1, hdr, n, None) ->
  (length_field hdr - 1 <= 0 \/
   mbapHeaderLength + (length_field hdr - 1) > maxTCPFrameLength) ->
  readMBAPFrame tt = (with_socket tt s1, Err ErrProtocol)
  /\ (forall fuel,
        readResponse (S fuel) tt = (with_socket tt s1, Some (Err ErrProtocol)))
  /\ (forall tt0,
        Conn_SetDeadline (socket tt0) = (socket tt, None) ->
        tt = with_socket tt0 (socket tt) ->
        ReadRequest tt0 = (with_socket tt s1, Err ErrProtocol)).
Proof.
  intros Hhdr Hbad.
  assert (Hframe : readMBAPFrame tt = (with_socket tt s1, Err ErrProtocol)).
  { unfold readMBAPFrame. rewrite Hhdr. unfold length_field in Hbad.
    destruct (Z.gtb_spec
                (bytesToUint16 BIG_ENDIAN (slice hdr 4 6) - 1 + mbapHeaderLength)
                maxTCPFrameLength) as [Hgt|Hle]; [reflexivity|].
    destruct (Z.leb_spec (bytesToUint16 BIG_ENDIAN (slice hdr 4 6) - 1) 0)
      as [Hle0|Hgt0]; [reflexivity|].
    lia. }
  repeat apply conj.
  - exact Hframe.
  - intros fuel. cbn [readResponse]. rewrite Hframe. reflexivity.
  - intros tt0 Hdl Htt. unfold ReadRequest. rewrite Hdl, <- Htt, Hframe.
    reflexivity.
Qed.

(** A header announcing a length of 0. *)
Lemma readMBAPFrame_illegal_length_witness :
  let c := mkConn [RxData [x00; x01; x00; x00; x00; x00; x11]] [] [] [] in
  readMBAPFrame (mkTcpTransport [] c 1)
  = (mkTcpTransport [] (mkConn [] [] [] []) 1, Err ErrProtocol).
Proof.
  intros c.
  apply (readMBAPFrame_illegal_length (mkTcpTransport [] c 1)
           (mkConn [] [] [] []) [x00; x01; x00; x00; x00; x00; x11] 7).
  - vm_compute. reflexivity.
  - left. vm_compute. discriminate.
Defined.

(** ** The client matching loop *)

(** The six ways through [readMBAPFrame]: the header read fails, the
    length is too large, the length is too small, the body read fails, the
    protocol identifier is foreign, the frame decodes. *)
Ltac readMBAPFrame_paths :=
  unfold readMBAPFrame;
  destruct (ReadFull _ (make mbapHeaderLength)) as [[[? ?] ?] [?|]];
  [|destruct (_ >? maxTCPFrameLength);
    [|destruct (_ <=? 0);
      [|cbn [with_socket socket];
        destruct (ReadFull _ _) as [[[? ?] ?] [?|]];
        [|destruct (negb _)]]]].

Lemma readMBAPFrame_lastTxnId (tt : tcpTransport) :
  lastTxnId (fst (readMBAPFrame tt)) = lastTxnId tt.
Proof. readMBAPFrame_paths; reflexivity. Qed.

Lemma discards_lastTxnId (T : Z) (tt tt1 : tcpTransport) :
  discards T tt tt1 -> lastTxnId tt1 = lastTxnId tt.
Proof.
  intros [a b H|a b p t H Hne];
    pose proof (readMBAPFrame_lastTxnId a) as HT; rewrite H in HT; exact HT.
Qed.

Lemma is_ErrUnknownProtocolId_false (e : error) :
  is_ErrUnknownProtocolId e = false <-> e <> ErrUnknownProtocolId.
Proof. destruct e; cbn; split; intros; congruence. Qed.

(** What the loop has done when it stops, and when it is still running. *)
Lemma readResponse_stops (fuel : nat) :
  forall tt tt' res,
    readResponse fuel tt = (tt', Some res) <->
    exists n tt0,
      (n < fuel)%nat /\ skips (lastTxnId tt) n tt tt0
      /\ ends (lastTxnId tt) tt0 tt' res.
Proof.
  induction fuel as [|fuel IH]; intros tt tt' res.
  - cbn. split; [discriminate|]. intros (n & tt0 & Hn & _). lia.
  - cbn [readResponse].
    pose proof (readMBAPFrame_lastTxnId tt) as HT.
    destruct (readMBAPFrame tt) as [tt1 r] eqn:Hread. cbn [fst] in HT.
    split.
    + (* the call returned: find the frame that ended it *)
      destruct r as [[p t]|e].
      * destruct (Z.eqb_spec (lastTxnId tt1) t) as [Heq|Hne]; cbn [negb].
        -- intros H. injection H as <- <-.
           exists O, tt. split; [lia|split; [constructor|]].
           cbn. rewrite Hread. congruence.
        -- intros H. apply IH in H as (n & tt0 & Hn & Hskips & Hends).
           cbn [Warningf lastTxnId] in Hskips, Hends. rewrite HT in *.
           exists (S n), tt0. split; [lia|split; [|exact Hends]].
           econstructor; [|exact Hskips].
           eapply discards_txn; [exact Hread|congruence].
      * destruct (is_ErrUnknownProtocolId e) eqn:He.
        -- destruct e; try discriminate.
           intros H. apply IH in H as (n & tt0 & Hn & Hskips & Hends).
           rewrite HT in *.
           exists (S n), tt0. split; [lia|split; [|exact Hends]].
           econstructor; [|exact Hskips]. now apply discards_protocol.
        -- intros H. injection H as <- <-.
           exists O, tt. split; [lia|split; [constructor|]].
           cbn. split; [exact Hread|]. now apply is_ErrUnknownProtocolId_false.
    + (* a frame ends the loop after [n] discarded ones: the call returns *)
      intros (n & tt0 & Hn & Hskips & Hends).
      inversion Hskips as [a|m a b c Hd Hs]; subst.
      * (* the first frame read ends it *)
        destruct res as [p|e]; cbn in Hends.
        -- rewrite Hread in Hends. injection Hends as -> ->.
           rewrite HT, Z.eqb_refl. reflexivity.
        -- destruct Hends as [Hends He]. rewrite Hread in Hends.
           injection Hends as -> ->.
           apply is_ErrUnknownProtocolId_false in He. rewrite He. reflexivity.
      * (* the first frame read is discarded *)
        inversion Hd as [a b' H|a b' p t H Hne]; subst;
          rewrite Hread in H; injection H as H1 H2; subst.
        -- cbn [is_ErrUnknownProtocolId]. apply IH.
           exists m, tt0. rewrite HT. split; [lia|split; [exact Hs|exact Hends]].
        -- rewrite HT.
           destruct (Z.eqb_spec (lastTxnId tt) t) as [Heq|_]; [congruence|].
           cbn [negb]. apply IH.
           exists m, tt0. cbn [Warningf lastTxnId]. rewrite HT.
           split; [lia|split; [exact Hs|exact Hends]].
Qed.

Lemma readResponse_running (fuel : nat) :
  forall tt tt',
    readResponse fuel tt = (tt', None) <-> skips (lastTxnId tt) fuel tt tt'.
Proof.
  induction fuel as [|fuel IH]; intros tt tt'.
  - cbn. split.
    + intros H. injection H as <-. constructor.
    + intros H. inversion H. reflexivity.
  - cbn [readResponse].
    pose proof (readMBAPFrame_lastTxnId tt) as HT.
    destruct (readMBAPFrame tt) as [tt1 r] eqn:Hread. cbn [fst] in HT.
    split.
    + destruct r as [[p t]|e].
      * destruct (Z.eqb_spec (lastTxnId tt1) t) as [Heq|Hne]; cbn [negb];
          [discriminate|].
        intros H. apply IH in H. cbn [Warningf lastTxnId] in H. rewrite HT in *.
        econstructor; [|exact H]. eapply discards_txn; [exact Hread|congruence].
      * destruct (is_ErrUnknownProtocolId e) eqn:He; [|discriminate].
        destruct e; try discriminate.
        intros H. apply IH in H. rewrite HT in H.
        econstructor; [|exact H]. now apply discards_protocol.
    + intros Hskips. inversion Hskips as [|m a b c Hd Hs]; subst.
      inversion Hd as [a b' H|a b' p t H Hne]; subst;
        rewrite Hread in H; injection H as H1 H2; subst.
      * cbn [is_ErrUnknownProtocolId]. apply IH. rewrite HT. exact Hs.
      * rewrite HT.
        destruct (Z.eqb_spec (lastTxnId tt) t) as [Heq|_]; [congruence|].
        cbn [negb]. apply IH. cbn [Warningf lastTxnId]. rewrite HT. exact Hs.
Qed.

(** C2. The client matching loop awaiting transaction id [T = tt.lastTxnId]:
    a frame rejected for its protocol identifier, or decoded with an id
    other than [T], is discarded and the loop reads on; the loop returns a
    PDU exactly when, after discarded frames only, a frame decodes with
    transaction id [T] (so never from a frame with another id), and that
    PDU is the frame's; it returns an error exactly when, after discarded
    frames only, a read fails with an error other than the unknown protocol
    identifier, and the error is that one; it is still running exactly when
    every frame read so far was discarded. *)
Theorem readResponse_matching (tt : tcpTransport) (fuel : nat) :
  (forall tt1,
     discards (lastTxnId tt) tt tt1 ->
     readResponse (S fuel) tt = readResponse fuel tt1)
  /\ (forall tt' p,
        readResponse fuel tt = (tt', Some (Ok p)) <->
        exists n tt0,
          (n < fuel)%nat /\ skips (lastTxnId tt) n tt tt0
          /\ readMBAPFrame tt0 = (tt', Ok (p, lastTxnId tt)))
  /\ (forall tt' e,
        readResponse fuel tt = (tt', Some (Err e)) <->
        exists n tt0,
          (n < fuel)%nat /\ skips (lastTxnId tt) n tt tt0
          /\ readMBAPFrame tt0 = (tt', Err e) /\ e <> ErrUnknownProtocolId)
  /\ (forall tt',
        readResponse fuel tt = (tt', None) <-> skips (lastTxnId tt) fuel tt tt').
Proof.
  repeat apply conj.
  - intros tt1 Hd. cbn [readResponse].
    pose proof (readMBAPFrame_lastTxnId tt) as HT.
    inversion Hd as [a b H|a b p t H Hne]; subst;
      rewrite H in *; cbn [fst] in HT.
    + reflexivity.
    + rewrite HT.
      destruct (Z.eqb_spec (lastTxnId tt) t) as [Heq|_]; [congruence|].
      reflexivity.
  - intros tt' p. apply (readResponse_stops fuel tt tt' (Ok p)).
  - intros tt' e. apply (readResponse_stops fuel tt tt' (Err e)).
  - intros tt'. apply readResponse_running.
Qed.

(** A stale response (transaction [00 02]) arrives before the awaited one
    ([00 01]): the call succeeds with the second frame and logs the first. *)
Lemma readResponse_matching_witness :
  let stale := [x00; x02; x00; x00; x00; x03; x11; x03; xaa] in
  let good := [x00; x01; x00; x00; x00; x03; x11; x03; xbb] in
  readResponse 2
    (mkTcpTransport [] (mkConn [RxData stale; RxData good] [] [] []) 1)
  = (mkTcpTransport [UnexpectedTxnId 1 2] (mkConn [] [] [] []) 1,
     Some (Ok (mkPdu x11 x03 [xbb]))).
Proof.
  intros stale good.
  apply (proj1 (proj2 (readResponse_matching
           (mkTcpTransport [] (mkConn [RxData stale; RxData good] [] [] []) 1) 2))).
  exists 1%nat,
    (mkTcpTransport [UnexpectedTxnId 1 2] (mkConn [RxData good] [] [] []) 1).
  split; [lia|split].
  - eapply skips_S; [|apply skips_O].
    apply (discards_txn 1
             (mkTcpTransport [] (mkConn [RxData stale; RxData good] [] [] []) 1)
             (mkTcpTransport [] (mkConn [RxData good] [] [] []) 1)
             (mkPdu x11 x03 [xaa]) 2).
    + vm_compute. reflexivity.
    + discriminate.
  - vm_compute. reflexivity.
Defined.

(** ** What the transport leaves untouched *)

Lemma Conn_SetDeadline_fields (c : Conn) :
  rx (fst (Conn_SetDeadline c)) = rx c
  /\ wr (fst (Conn_SetDeadline c)) = wr c
  /\ written (fst (Conn_SetDeadline c)) = written c.
Proof.
  unfold Conn_SetDeadline. destruct (next_outcome (dl c)). repeat split.
Qed.

Lemma Conn_Write_written (c : Conn) (b : list byte) :
  written (fst (fst (Conn_Write c b))) = written c ++ [b].
Proof.
  unfold Conn_Write. destruct (next_outcome (wr c)). reflexivity.
Qed.

Lemma readMBAPFrame_same_output (tt : tcpTransport) :
  same_output (socket tt) (socket (fst (readMBAPFrame tt))).
Proof.
  unfold readMBAPFrame.
  pose proof (ReadFull_same_output (socket tt) (make mbapHeaderLength)) as H1.
  destruct (ReadFull (socket tt) (make mbapHeaderLength))
    as [[[s1 hdr] n1] [e1|]]; cbn [fst] in H1; [exact H1|].
  destruct (_ >? maxTCPFrameLength); [exact H1|].
  destruct (_ <=? 0); [exact H1|].
  cbn [with_socket socket].
  match goal with
  | |- context [ReadFull s1 ?b] =>
      pose proof (ReadFull_same_output s1 b) as H2;
      destruct (ReadFull s1 b) as [[[s2 body] n2] [e2|]]
  end; cbn [fst] in H2.
  - eapply same_output_trans; eassumption.
  - destruct (negb _); eapply same_output_trans; eassumption.
Qed.

Lemma readResponse_frame (fuel : nat) :
  forall tt,
    lastTxnId (fst (readResponse fuel tt)) = lastTxnId tt
    /\ same_output (socket tt) (socket (fst (readResponse fuel tt))).
Proof.
  induction fuel as [|fuel IH]; intros tt; cbn [readResponse].
  - split; [reflexivity|apply same_output_refl].
  - pose proof (readMBAPFrame_lastTxnId tt) as HT.
    pose proof (readMBAPFrame_same_output tt) as HS.
    destruct (readMBAPFrame tt) as [tt1 [[p t]|e]]; cbn [fst] in HT, HS.
    + destruct (negb _).
      * destruct (IH (Warningf tt1 (UnexpectedTxnId (lastTxnId tt1) t))) as [H1 H2].
        cbn [Warningf lastTxnId socket] in H1, H2.
        split; [congruence|eapply same_output_trans; eassumption].
      * split; assumption.
    + destruct (is_ErrUnknownProtocolId e).
      * destruct (IH tt1) as [H1 H2].
        split; [congruence|eapply same_output_trans; eassumption].
      * split; assumption.
Qed.

(** ** The server path *)

Lemma bytesToUint16_txnId (t : Z) (p : pdu) :
  0 <= t < 65536 ->
  bytesToUint16 BIG_ENDIAN (slice (assembleMBAPFrame t p) 0 2) = t.
Proof.
  intros Ht. pose proof (bytesToUint16_uint16ToBytes t Ht) as H.
  unfold assembleMBAPFrame, slice. cbn [uint16ToBytes app] in *. exact H.
Qed.

Lemma readMBAPFrame_txnId_range (tt tt1 : tcpTransport) (p : pdu) (t : Z) :
  readMBAPFrame tt = (tt1, Ok (p, t)) -> 0 <= t < 65536.
Proof.
  readMBAPFrame_paths; try discriminate.
  intros H. injection H as _ _ <-. apply bytesToUint16_range.
Qed.

(** C4. The server path is single-shot.  Once the deadline is set,
    [ReadRequest] is the outcome of one [readMBAPFrame] and nothing more:
    whatever error that one read reports, the unknown protocol identifier
    included, is returned to the caller; a decoded frame is returned with
    its transaction id recorded, and the frame that a following
    [WriteResponse] hands to the socket is the response assembled with
    exactly that id, which its first two bytes carry. *)
Theorem ReadRequest_single_shot (tt : tcpTransport) (s : Conn) :
  Conn_SetDeadline (socket tt) = (s, None) ->
  (forall tt1 e,
     readMBAPFrame (with_socket tt s) = (tt1, Err e) ->
     ReadRequest tt = (tt1, Err e))
  /\ (forall tt1 p t,
        readMBAPFrame (with_socket tt s) = (tt1, Ok (p, t)) ->
        ReadRequest tt = (with_lastTxnId tt1 t, Ok p)
        /\ forall res,
             written (socket (fst (WriteResponse (with_lastTxnId tt1 t) res)))
             = written (socket tt) ++ [assembleMBAPFrame t res]
             /\ bytesToUint16 BIG_ENDIAN (slice (assembleMBAPFrame t res) 0 2) = t).
Proof.
  intros Hdl. split.
  - intros tt1 e Hread. unfold ReadRequest. rewrite Hdl, Hread. reflexivity.
  - intros tt1 p t Hread. split.
    + unfold ReadRequest. rewrite Hdl, Hread. reflexivity.
    + intros res. split.
      * unfold WriteResponse. cbn [with_lastTxnId lastTxnId socket].
        pose proof (Conn_Write_written (socket tt1) (assembleMBAPFrame t res)) as HW.
        destruct (Conn_Write (socket tt1) (assembleMBAPFrame t res)) as [[s' n] err].
        cbn [fst with_socket socket] in *. rewrite HW. f_equal.
        pose proof (readMBAPFrame_same_output (with_socket tt s)) as (_ & _ & H3).
        rewrite Hread in H3. cbn [fst with_socket socket] in H3. rewrite H3.
        pose proof (Conn_SetDeadline_fields (socket tt)) as (_ & _ & H4).
        rewrite Hdl in H4. exact H4.
      * apply bytesToUint16_txnId. eapply readMBAPFrame_txnId_range. exact Hread.
Qed.

(** A frame of a foreign protocol (protocol id [00 01]) aborts the call. *)
Lemma ReadRequest_single_shot_witness :
  let c := mkConn [RxData [x00; x05; x00; x01; x00; x02; x11; x03]] [] [] [] in
  ReadRequest (mkTcpTransport [] c 9)
  = (mkTcpTransport [UnexpectedProtocolId 1] (mkConn [] [] [] []) 9,
     Err ErrUnknownProtocolId).
Proof.
  intros c.
  apply (proj1 (ReadRequest_single_shot (mkTcpTransport [] c 9) c eq_refl)).
  vm_compute. reflexivity.
Defined.

(** C9. [ReadRequest] is atomic with respect to the stored transaction id:
    whenever it returns an error (the deadline could not be set, an I/O
    error, a protocol error, an unknown protocol identifier), [lastTxnId]
    is what it was before the call, and so is the id of the frame that
    [WriteResponse] would send. *)
Theorem ReadRequest_error_keeps_lastTxnId
  (tt tt' : tcpTransport) (e : error) :
  ReadRequest tt = (tt', Err e) ->
  lastTxnId tt' = lastTxnId tt
  /\ forall res,
       written (socket (fst (WriteResponse tt' res)))
       = written (socket tt') ++ [assembleMBAPFrame (lastTxnId tt) res].
Proof.
  intros H.
  assert (HT : lastTxnId tt' = lastTxnId tt).
  { unfold ReadRequest in H.
    destruct (Conn_SetDeadline (socket tt)) as [s [e0|]].
    - injection H as <- _. reflexivity.
    - pose proof (readMBAPFrame_lastTxnId (with_socket tt s)) as HT.
      destruct (readMBAPFrame (with_socket tt s)) as [tt1 [[p t]|e1]];
        [discriminate|].
      injection H as <- _. exact HT. }
  split; [exact HT|].
  intros res. unfold WriteResponse. rewrite HT.
  pose proof (Conn_Write_written (socket tt') (assembleMBAPFrame (lastTxnId tt) res)) as HW.
  destruct (Conn_Write (socket tt') (assembleMBAPFrame (lastTxnId tt) res)) as [[s' n] err].
  exact HW.
Qed.

(** The stream ends in the middle of a header. *)
Lemma ReadRequest_error_keeps_lastTxnId_witness :
  let c := mkConn [RxData [x00; x05; x00]; RxErr EOF] [] [] [] in
  lastTxnId (fst (ReadRequest (mkTcpTransport [] c 9))) = 9.
Proof.
  intros c.
  apply (proj1 (ReadRequest_error_keeps_lastTxnId (mkTcpTransport [] c 9)
                  (fst (ReadRequest (mkTcpTransport [] c 9)))
                  (ErrIO ErrUnexpectedEOF) eq_refl)).
Defined.

(** ** The transaction counter *)

(** A call that gets past [SetDeadline]: the counter it leaves and the
    frame it hands to the socket, whatever happens afterwards. *)
Lemma ExecuteRequest_after_deadline
  (fuel : nat) (tt : tcpTransport) (req : pdu) (s : Conn) :
  Conn_SetDeadline (socket tt) = (s, None) ->
  lastTxnId (fst (ExecuteRequest fuel tt req)) = uint16 (lastTxnId tt + 1)
  /\ written (socket (fst (ExecuteRequest fuel tt req)))
     = written (socket tt)
       ++ [assembleMBAPFrame (uint16 (lastTxnId tt + 1)) req].
Proof.
  intros Hdl. unfold ExecuteRequest. rewrite Hdl.
  cbn [with_socket with_lastTxnId socket lastTxnId logger].
  pose proof (Conn_SetDeadline_fields (socket tt)) as (_ & _ & Hw).
  rewrite Hdl in Hw. cbn [fst] in Hw.
  pose proof (Conn_Write_written s
                (assembleMBAPFrame (uint16 (lastTxnId tt + 1)) req)) as HW.
  destruct (Conn_Write s (assembleMBAPFrame (uint16 (lastTxnId tt + 1)) req))
    as [[s' n] [e|]]; cbn [fst] in HW.
  - cbn [fst with_socket with_lastTxnId lastTxnId socket logger].
    rewrite HW, Hw. split; reflexivity.
  - match goal with
    | |- context [readResponse fuel ?t] =>
        destruct (readResponse_frame fuel t) as (HT & _ & _ & HS)
    end.
    cbn [with_socket with_lastTxnId lastTxnId socket logger] in HT, HS.
    rewrite HT, HS, HW, Hw. split; reflexivity.
Qed.

(** A call that does not get past [SetDeadline] returns that error, sends
    nothing and leaves the counter alone. *)
Lemma ExecuteRequest_deadline_failure
  (fuel : nat) (tt : tcpTransport) (req : pdu) (s : Conn) (e : io_error) :
  Conn_SetDeadline (socket tt) = (s, Some e) ->
  ExecuteRequest fuel tt req = (with_socket tt s, Some (Err (ErrIO e)))
  /\ lastTxnId (fst (ExecuteRequest fuel tt req)) = lastTxnId tt
  /\ written (socket (fst (ExecuteRequest fuel tt req))) = written (socket tt).
Proof.
  intros Hdl. unfold ExecuteRequest. rewrite Hdl. cbn [fst].
  pose proof (Conn_SetDeadline_fields (socket tt)) as (_ & _ & Hw).
  rewrite Hdl in Hw. repeat split. exact Hw.
Qed.

(** C10. Every call to [ExecuteRequest] that gets past setting the socket
    deadline leaves [lastTxnId] incremented by exactly one modulo 2^16 and
    has handed to the socket the request assembled with the incremented
    id, whether the call then returns a response, returns an error (a
    failed write, a timeout, a decode error) or is still reading; a second
    such call therefore sends the next id after the first one's,
    regardless of how the first call ended. *)
Theorem ExecuteRequest_successive_ids
  (fuel fuel2 : nat) (tt : tcpTransport) (req req2 : pdu) (s s2 : Conn) :
  Conn_SetDeadline (socket tt) = (s, None) ->
  Conn_SetDeadline (socket (fst (ExecuteRequest fuel tt req))) = (s2, None) ->
  let T1 := uint16 (lastTxnId tt + 1) in
  let T2 := uint16 (T1 + 1) in
  let tt1 := fst (ExecuteRequest fuel tt req) in
  let tt2 := fst (ExecuteRequest fuel2 tt1 req2) in
  lastTxnId tt1 = T1
  /\ written (socket tt1) = written (socket tt) ++ [assembleMBAPFrame T1 req]
  /\ lastTxnId tt2 = T2
  /\ written (socket tt2)
     = written (socket tt)
       ++ [assembleMBAPFrame T1 req; assembleMBAPFrame T2 req2].
Proof.
  intros Hdl Hdl2 T1 T2 tt1 tt2.
  destruct (ExecuteRequest_after_deadline fuel tt req s Hdl) as [H1 H2].
  destruct (ExecuteRequest_after_deadline fuel2 tt1 req2 s2 Hdl2) as [H3 H4].
  fold tt1 in H1, H2. fold tt2 in H3, H4.
  repeat apply conj.
  - exact H1.
  - exact H2.
  - rewrite H3, H1. reflexivity.
  - rewrite H4, H2, H1, <- app_assoc. reflexivity.
Qed.

(** The first write fails and the second call times out waiting for a
    response: the two requests still carry the ids 65535 and 0. *)
Lemma ExecuteRequest_successive_ids_witness :
  let c := mkConn [] [Some ErrClosed] [] [] in
  let req := mkPdu x11 x03 [x00; x6b; x00; x03] in
  let tt1 := fst (ExecuteRequest 5 (mkTcpTransport [] c 65534) req) in
  let tt2 := fst (ExecuteRequest 5 tt1 req) in
  lastTxnId tt1 = 65535
  /\ written (socket tt1) = [] ++ [assembleMBAPFrame 65535 req]
  /\ lastTxnId tt2 = 0
  /\ written (socket tt2)
     = [] ++ [assembleMBAPFrame 65535 req; assembleMBAPFrame 0 req].
Proof.
  intros c req tt1 tt2.
  apply (ExecuteRequest_successive_ids 5 5 (mkTcpTransport [] c 65534) req req
           c (mkConn [] [] [] [assembleMBAPFrame 65535 req]));
    vm_compute; reflexivity.
Defined.

(** C6, as stated, fails on a call whose [SetDeadline] fails (a closed
    connection): the call returns before the increment, so the counter is
    not advanced and no frame is encoded. *)
Lemma ExecuteRequest_closed_socket_keeps_counter :
  let tt := mkTcpTransport [] (mkConn [] [] [Some ErrClosed] []) 0 in
  let req := mkPdu x11 x03 [x00; x6b; x00; x03] in
  ExecuteRequest 1 tt req
  = (mkTcpTransport [] (mkConn [] [] [] []) 0, Some (Err (ErrIO ErrClosed)))
  /\ lastTxnId (fst (ExecuteRequest 1 tt req)) <> uint16 (lastTxnId tt + 1).
Proof.
  cbv zeta. split.
  - vm_compute. reflexivity.
  - vm_compute. discriminate.
Qed.

(** C6 (amended). Each call to [ExecuteRequest] whose [SetDeadline]
    succeeds advances the 16-bit transaction counter by one before
    encoding: the frame handed to the socket is assembled with the advanced
    counter, which wraps from 65535 back to 0; with the counter at 0, the
    request frame carries transaction id 1 and its first four bytes are
    [00 01 00 00]. *)
Theorem ExecuteRequest_advances_counter
  (fuel : nat) (tt : tcpTransport) (req : pdu) (s : Conn) :
  Conn_SetDeadline (socket tt) = (s, None) ->
  0 <= lastTxnId tt < 65536 ->
  let tt' := fst (ExecuteRequest fuel tt req) in
  lastTxnId tt' = (if lastTxnId tt =? 65535 then 0 else lastTxnId tt + 1)
  /\ written (socket tt')
     = written (socket tt) ++ [assembleMBAPFrame (lastTxnId tt') req]
  /\ bytesToUint16 BIG_ENDIAN (slice (assembleMBAPFrame (lastTxnId tt') req) 0 2)
     = lastTxnId tt'
  /\ (lastTxnId tt = 0 ->
      lastTxnId tt' = 1
      /\ slice (assembleMBAPFrame (lastTxnId tt') req) 0 4 = [x00; x01; x00; x00]).
Proof.
  intros Hdl Hrange tt'.
  destruct (ExecuteRequest_after_deadline fuel tt req s Hdl) as [H1 H2].
  fold tt' in H1, H2.
  assert (Hadv : uint16 (lastTxnId tt + 1)
                 = if lastTxnId tt =? 65535 then 0 else lastTxnId tt + 1).
  { unfold uint16. destruct (Z.eqb_spec (lastTxnId tt) 65535) as [->|Hne].
    - reflexivity.
    - apply Z.mod_small. lia. }
  repeat apply conj.
  - rewrite H1. exact Hadv.
  - rewrite H2, H1. reflexivity.
  - apply bytesToUint16_txnId. rewrite H1. unfold uint16.
    apply Z.mod_pos_bound. lia.
  - rewrite H1, Hadv. intros ->. cbn [Z.eqb]. split; reflexivity.
Qed.

(** A fresh transport sends its first request. *)
Lemma ExecuteRequest_advances_counter_witness :
  let req := mkPdu x11 x03 [x00; x6b; x00; x03] in
  let tt' := fst (ExecuteRequest 3 (newTCPTransport (mkConn [] [] [] [])) req) in
  lastTxnId tt' = 1
  /\ slice (assembleMBAPFrame (lastTxnId tt') req) 0 4 = [x00; x01; x00; x00].
Proof.
  intros req tt'.
  apply (ExecuteRequest_advances_counter 3 (newTCPTransport (mkConn [] [] [] []))
           req (mkConn [] [] [] []) eq_refl).
  - cbn. lia.
  - reflexivity.
Defined.

(** ** The datagram adapter *)

Lemma slice_0 {A : Type} (s : list A) (n : Z) :
  slice s 0 n = firstn (Z.to_nat n) s.
Proof. unfold slice. rewrite Z.sub_0_r. reflexivity. Qed.

Lemma slice_skipn_firstn {A : Type} (s : list A) (lo hi : Z) :
  0 <= lo <= hi ->
  slice s lo hi = skipn (Z.to_nat lo) (firstn (Z.to_nat hi) s).
Proof.
  intros H. unfold slice. rewrite skipn_firstn_comm. f_equal. lia.
Qed.

Lemma slice_in_range_true {A : Type} (s : list A) (lo hi : Z) :
  0 <= lo <= hi -> hi <= len s -> slice_in_range s lo hi = true.
Proof.
  intros H1 H2. unfold slice_in_range.
  rewrite !andb_true_iff, !Z.leb_le. lia.
Qed.

Lemma copy_fst (dst src : list byte) :
  (length src <= length dst)%nat ->
  fst (copy dst src) = src ++ skipn (length src) dst.
Proof.
  intros H. unfold copy. cbn [fst].
  replace (Nat.min (length dst) (length src)) with (length src) by lia.
  rewrite firstn_all. reflexivity.
Qed.

(** A call with leftover bytes: what it computes. *)
Lemma Read_leftover_eq (usw : udpSockWrapper) (buf : list byte) :
  wf usw ->
  leftoverCount usw > 0 ->
  let n := Z.min (len buf) (leftoverCount usw) in
  exists rxbuf',
    Read usw buf
    = Some (mkUdpSockWrapper (leftoverCount usw - n) rxbuf' (sock usw),
            fst (copy buf (leftover usw)), n, None)
    /\ length rxbuf' = length (rxbuf usw)
    /\ slice rxbuf' 0 (leftoverCount usw - n)
       = slice (rxbuf usw) n (leftoverCount usw).
Proof.
  intros [Hlen Hlc] Hpos n.
  unfold maxTCPFrameLength in *.
  assert (Hcount : snd (copy buf (leftover usw)) = n).
  { rewrite copy_count. unfold leftover. rewrite slice_0. unfold n, len.
    rewrite length_firstn. unfold len in Hlen. lia. }
  assert (Hn : 0 <= n <= leftoverCount usw) by (unfold n; pose proof (len_nonneg buf); lia).
  unfold Read.
  destruct (Z.gtb_spec (leftoverCount usw) 0) as [_|]; [|lia].
  unfold checked_slice.
  rewrite slice_in_range_true by lia. cbn [bind].
  fold (leftover usw).
  destruct (copy buf (leftover usw)) as [buf' copied] eqn:Hcopy.
  cbn [snd fst] in *. subst copied.
  destruct (Z.gtb_spec (leftoverCount usw) n) as [Hgt|Hle].
  - (* bytes remain: they move to the front *)
    rewrite slice_in_range_true by lia. cbn [bind].
    eexists. split; [reflexivity|]. split.
    + apply copy_length.
    + rewrite copy_fst.
      2:{ unfold slice. rewrite length_firstn, length_skipn. lia. }
      rewrite slice_0.
      assert (Hl : length (slice (rxbuf usw) n (leftoverCount usw))
                   = Z.to_nat (leftoverCount usw - n)).
      { unfold slice. rewrite length_firstn, length_skipn.
        unfold len in Hlen. lia. }
      rewrite <- Hl at 1. rewrite firstn_app, firstn_all, Nat.sub_diag.
      cbn [firstn]. apply app_nil_r.
  - (* everything was delivered *)
    cbn [bind]. eexists. split; [reflexivity|]. split; [reflexivity|].
    replace (leftoverCount usw - n) with 0 by lia.
    unfold slice. replace (Z.to_nat (leftoverCount usw - n)) with 0%nat by lia.
    reflexivity.
Qed.

(** A call without leftover bytes that receives a datagram: what it
    computes. *)
Lemma Read_receive_eq (usw : udpSockWrapper) (buf d : list byte)
  (rest : list dgram_event) :
  wf usw ->
  leftoverCount usw <= 0 ->
  inbox (sock usw) = Datagram d :: rest ->
  let d' := firstn (length (rxbuf usw)) d in
  let n := Z.min (len buf) (len d') in
  exists rxbuf',
    Read usw buf
    = Some (mkUdpSockWrapper (len d' - n) rxbuf' (mkUDPConn rest),
            fst (copy buf d'), n, None)
    /\ length rxbuf' = length (rxbuf usw)
    /\ slice rxbuf' 0 (len d' - n) = skipn (Z.to_nat n) d'.
Proof.
  intros [Hlen Hlc] Hzero Hin d' n.
  unfold maxTCPFrameLength in *.
  assert (Hd' : (length d' <= length (rxbuf usw))%nat).
  { unfold d'. rewrite length_firstn. lia. }
  assert (Hmin : Nat.min (length (rxbuf usw)) (length d) = length d').
  { unfold d'. rewrite length_firstn. lia. }
  assert (Hn : 0 <= n <= len d') by (unfold n; pose proof (len_nonneg buf); pose proof (len_nonneg d'); lia).
  unfold Read.
  destruct (Z.gtb_spec (leftoverCount usw) 0) as [|_]; [lia|].
  unfold UDPConn_Read. rewrite Hin.
  assert (Hfd : firstn (length d') d = d').
  { unfold d'. rewrite length_firstn.
    destruct (Nat.le_ge_cases (length (rxbuf usw)) (length d)).
    - f_equal. lia.
    - rewrite (firstn_all2 d (n:=length (rxbuf usw))) by lia.
      replace (Nat.min _ _) with (length d) by lia. apply firstn_all. }
  unfold copy at 1. rewrite Hmin, Hfd. fold (len d').
  set (rxbuf0 := d' ++ skipn (length d') (rxbuf usw)).
  assert (Hl0 : length rxbuf0 = length (rxbuf usw)).
  { unfold rxbuf0. rewrite length_app, length_skipn. lia. }
  assert (Hsrc : slice rxbuf0 0 (len d') = d').
  { rewrite slice_0. unfold len. rewrite Nat2Z.id. unfold rxbuf0.
    rewrite firstn_app, firstn_all, Nat.sub_diag. cbn [firstn]. apply app_nil_r. }
  unfold checked_slice.
  rewrite slice_in_range_true by (unfold len in *; lia). cbn [bind].
  rewrite Hsrc.
  assert (Hcount : snd (copy buf d') = n) by (rewrite copy_count; reflexivity).
  destruct (copy buf d') as [buf' copied] eqn:Hcopy.
  cbn [snd fst] in *. subst copied.
  assert (Hrest : slice rxbuf0 n (len d') = skipn (Z.to_nat n) d').
  { rewrite slice_skipn_firstn by lia. rewrite <- slice_0, Hsrc. reflexivity. }
  destruct (Z.gtb_spec (len d') n) as [Hgt|Hle].
  - rewrite slice_in_range_true by (unfold len in *; lia). cbn [bind].
    eexists. split; [reflexivity|]. split.
    + rewrite copy_length. exact Hl0.
    + rewrite Hrest, copy_fst.
      2:{ rewrite length_skipn. lia. }
      rewrite slice_0.
      assert (Hl : length (skipn (Z.to_nat n) d') = Z.to_nat (len d' - n)).
      { rewrite length_skipn. unfold len. lia. }
      rewrite <- Hl at 1. rewrite firstn_app, firstn_all, Nat.sub_diag.
      cbn [firstn]. apply app_nil_r.
  - cbn [bind]. eexists. split; [reflexivity|]. split; [exact Hl0|].
    replace (len d' - n) with 0 by lia.
    rewrite skipn_all2 by (unfold len in *; lia). reflexivity.
Qed.

(** A call without leftover bytes whose receive fails. *)
Lemma Read_receive_error (usw : udpSockWrapper) (buf : list byte) :
  leftoverCount usw <= 0 ->
  (forall d rest, inbox (sock usw) <> Datagram d :: rest) ->
  exists e,
    Read usw buf
    = Some (mkUdpSockWrapper (leftoverCount usw) (rxbuf usw)
              (mkUDPConn (tl (inbox (sock usw)))),
            buf, 0, Some e).
Proof.
  intros Hzero Hin. unfold Read.
  destruct (Z.gtb_spec (leftoverCount usw) 0) as [|_]; [lia|].
  unfold UDPConn_Read. destruct (sock usw) as [[|[d|e] rest]]; cbn [inbox tl] in *.
  - eexists. reflexivity.
  - exfalso. eapply Hin. reflexivity.
  - eexists. reflexivity.
Qed.

Lemma copy_rest (dst src : list byte) :
  slice_from (fst (copy dst src)) (snd (copy dst src))
  = slice_from dst (snd (copy dst src)).
Proof.
  unfold copy, slice_from. cbn [fst snd]. rewrite Nat2Z.id.
  rewrite skipn_app, length_firstn.
  replace (Nat.min (length dst) (length src) -
           Nat.min (Nat.min (length dst) (length src)) (length src))%nat
    with 0%nat by lia.
  rewrite skipn_all2 by (rewrite length_firstn; lia).
  reflexivity.
Qed.

Lemma firstn_min_length {A : Type} (k : nat) (l : list A) :
  firstn (Nat.min k (length l)) l = firstn k l.
Proof.
  destruct (Nat.le_ge_cases k (length l)).
  - f_equal. lia.
  - replace (Nat.min k (length l)) with (length l) by lia.
    rewrite firstn_all. symmetry. apply firstn_all2. lia.
Qed.

(** Every call, in one statement: it does not panic; it delivers the first
    [n] bytes of its source, [n] being as many as fit into [buf]; it keeps
    the rest of the source as the leftover region; it leaves the rest of
    [buf] alone; and it takes an event from the socket exactly when it had
    no leftover bytes. *)
Lemma Read_step (usw : udpSockWrapper) (buf : list byte) :
  wf usw ->
  exists usw' buf' n err,
    Read usw buf = Some (usw', buf', n, err)
    /\ wf usw'
    /\ (err = None -> n = Z.min (len buf) (len (source usw)))
    /\ (err <> None -> n = 0 /\ source usw = [])
    /\ delivered buf' n = firstn (Z.to_nat n) (source usw)
    /\ leftover usw' = skipn (Z.to_nat n) (source usw)
    /\ slice_from buf' n = slice_from buf n
    /\ (if leftoverCount usw >? 0 then sock usw' = sock usw /\ err = None
        else inbox (sock usw') = tl (inbox (sock usw))).
Proof.
  intros Hwf. pose proof Hwf as [Hlen Hlc]. unfold maxTCPFrameLength in *.
  unfold source.
  destruct (Z.gtb_spec (leftoverCount usw) 0) as [Hpos|Hzero].
  - (* served from the leftover region *)
    destruct (Read_leftover_eq usw buf Hwf ltac:(lia)) as (rxbuf' & HR & Hl & Hshift).
    assert (Hlo : len (leftover usw) = leftoverCount usw).
    { unfold leftover. rewrite slice_0. unfold len in *.
      rewrite length_firstn. lia. }
    do 4 eexists. split; [exact HR|].
    pose proof (copy_count buf (leftover usw)) as Hc. rewrite Hlo in Hc.
    pose proof (len_nonneg buf) as Hb.
    split; [|split; [|split; [|split; [|split; [|split]]]]].
    + split; cbn [rxbuf leftoverCount]; unfold maxTCPFrameLength, len in *; lia.
    + intros _. rewrite Hlo. reflexivity.
    + intros H. congruence.
    + unfold delivered. rewrite <- Hc, copy_delivered.
      rewrite Hc. rewrite <- firstn_min_length. f_equal.
      unfold len in *. lia.
    + unfold leftover at 1. cbn [rxbuf leftoverCount]. rewrite Hshift.
      rewrite slice_skipn_firstn by lia.
      unfold leftover. rewrite slice_0. reflexivity.
    + rewrite <- Hc. apply copy_rest.
    + split; reflexivity.
  - destruct (inbox (sock usw)) as [|[d|e] rest] eqn:Hin.
    + (* nothing arrives *)
      destruct (Read_receive_error usw buf Hzero) as (e & HR).
      { intros d rest. rewrite Hin. discriminate. }
      do 4 eexists. split; [exact HR|]. rewrite Hin.
      split; [|split; [|split; [|split; [|split; [|split]]]]]; try reflexivity.
      * split; cbn [rxbuf leftoverCount]; unfold maxTCPFrameLength; lia.
      * discriminate.
      * intros _. split; reflexivity.
      * unfold leftover. cbn [rxbuf leftoverCount].
        replace (leftoverCount usw) with 0 by lia. reflexivity.
    + (* a datagram arrives *)
      destruct (Read_receive_eq usw buf d rest Hwf Hzero Hin)
        as (rxbuf' & HR & Hl & Hshift).
      set (d' := firstn (length (rxbuf usw)) d) in *.
      assert (Hd' : len d' <= 260).
      { unfold d', len in *. rewrite length_firstn. lia. }
      pose proof (len_nonneg buf) as Hb. pose proof (len_nonneg d') as Hd0.
      pose proof (copy_count buf d') as Hc.
      do 4 eexists. split; [exact HR|].
      split; [|split; [|split; [|split; [|split; [|split]]]]].
      * split; cbn [rxbuf leftoverCount]; unfold maxTCPFrameLength, len in *; lia.
      * intros _. reflexivity.
      * intros H. congruence.
      * unfold delivered. rewrite <- Hc, copy_delivered.
        rewrite Hc. rewrite <- firstn_min_length. f_equal.
        unfold len in *. lia.
      * unfold leftover. cbn [rxbuf leftoverCount]. exact Hshift.
      * rewrite <- Hc. apply copy_rest.
      * reflexivity.
    + (* the receive fails *)
      destruct (Read_receive_error usw buf Hzero) as (e' & HR).
      { intros d rest'. rewrite Hin. discriminate. }
      do 4 eexists. split; [exact HR|]. rewrite Hin.
      split; [|split; [|split; [|split; [|split; [|split]]]]]; try reflexivity.
      * split; cbn [rxbuf leftoverCount]; unfold maxTCPFrameLength; lia.
      * discriminate.
      * intros _. split; reflexivity.
      * unfold leftover. cbn [rxbuf leftoverCount].
        replace (leftoverCount usw) with 0 by lia. reflexivity.
Qed.

Lemma serving_wf (last : list byte) (usw : udpSockWrapper) :
  serving last usw -> wf usw.
Proof.
  induction 1 as [s|last usw usw' buf buf' n err _ IH HR].
  - split; cbn; [reflexivity|unfold maxTCPFrameLength; lia].
  - destruct (Read_step usw buf IH) as (u & b & m & e & HR' & Hwf & _).
    rewrite HR in HR'. injection HR' as -> _ _ _. exact Hwf.
Qed.

Lemma leftover_len (usw : udpSockWrapper) :
  wf usw -> len (leftover usw) = leftoverCount usw.
Proof.
  intros [Hlen Hlc]. unfold leftover. rewrite slice_0.
  unfold maxTCPFrameLength, len in *. rewrite length_firstn. lia.
Qed.

(** The leftover region always holds the tail of the datagram received
    most recently: the bytes of it that no call has delivered yet. *)
Lemma serving_tail (last : list byte) (usw : udpSockWrapper) :
  serving last usw -> exists pre, last = pre ++ leftover usw.
Proof.
  induction 1 as [s|last usw usw' buf buf' n err Hs [pre IH] HR].
  - exists []. reflexivity.
  - pose proof (serving_wf _ _ Hs) as Hwf.
    destruct (Read_step usw buf Hwf)
      as (u & b & m & e & HR' & _ & _ & Herr & _ & Hleft & _).
    rewrite HR in HR'. injection HR' as <- <- <- <-.
    rewrite Hleft. unfold served_datagram, source in *.
    destruct (leftoverCount usw >? 0).
    + exists (pre ++ firstn (Z.to_nat n) (leftover usw)).
      rewrite <- app_assoc, firstn_skipn. exact IH.
    + destruct (inbox (sock usw)) as [|[d|e'] rest].
      * exists last. rewrite skipn_nil, app_nil_r. reflexivity.
      * exists (firstn (Z.to_nat n) (firstn (length (rxbuf usw)) d)).
        rewrite firstn_skipn. reflexivity.
      * exists last. rewrite skipn_nil, app_nil_r. reflexivity.
Qed.

(** C7. In every state the adapter goes through, the leftover region is
    the prefix of the internal buffer of length [leftoverCount], within the
    buffer, and holds the undelivered tail of the last datagram.  Whenever
    [leftoverCount > 0], [Read] copies [min(len(buf), leftoverCount)] bytes
    from the front of the internal buffer into [buf] (leaving the rest of
    [buf] alone), moves the bytes that remain to offset 0, decreases
    [leftoverCount] by the amount copied and returns that amount without a
    receive on the socket.  A call receives from the socket only when
    [leftoverCount = 0]. *)
Theorem Read_serves_leftover
  (last : list byte) (usw : udpSockWrapper) (buf : list byte) :
  serving last usw ->
  (0 <= leftoverCount usw <= len (rxbuf usw)
   /\ exists pre, last = pre ++ leftover usw)
  /\ (leftoverCount usw > 0 ->
      let n := Z.min (len buf) (leftoverCount usw) in
      exists usw' buf',
        Read usw buf = Some (usw', buf', n, None)
        /\ delivered buf' n = slice (rxbuf usw) 0 n
        /\ slice_from buf' n = slice_from buf n
        /\ leftoverCount usw' = leftoverCount usw - n
        /\ leftover usw' = slice (rxbuf usw) n (leftoverCount usw)
        /\ sock usw' = sock usw)
  /\ (forall usw' buf' n err,
        Read usw buf = Some (usw', buf', n, err) ->
        sock usw' <> sock usw ->
        leftoverCount usw = 0).
Proof.
  intros Hs. pose proof (serving_wf _ _ Hs) as Hwf.
  pose proof Hwf as [Hlen Hlc].
  split; [|split].
  - split; [rewrite Hlen; exact Hlc|]. now apply serving_tail.
  - intros Hpos n.
    destruct (Read_leftover_eq usw buf Hwf Hpos) as (rxbuf' & HR & _ & Hshift).
    fold n in HR, Hshift.
    pose proof (copy_count buf (leftover usw)) as Hc.
    rewrite (leftover_len usw Hwf) in Hc. fold n in Hc.
    pose proof (len_nonneg buf) as Hb.
    do 2 eexists. split; [exact HR|].
    split; [|split; [|split; [|split]]]; try reflexivity.
    + unfold delivered. rewrite <- Hc at 1. rewrite copy_delivered.
      unfold leftover. rewrite !slice_0, firstn_firstn. f_equal.
      unfold n, len. lia.
    + rewrite <- Hc. apply copy_rest.
    + exact Hshift.
  - intros usw' buf' n err HR Hsock.
    destruct (Read_step usw buf Hwf)
      as (u & b & m & e & HR' & _ & _ & _ & _ & _ & _ & Hnet).
    rewrite HR in HR'. injection HR' as <- <- <- <-.
    destruct (Z.gtb_spec (leftoverCount usw) 0) as [Hpos|Hzero].
    + destruct Hnet as [Hsame _]. contradiction.
    + lia.
Qed.

(** A datagram of five bytes read two bytes at a time: the second call is
    served from the buffer. *)
Lemma Read_serves_leftover_witness :
  let s := mkUDPConn [Datagram [x01; x02; x03; x04; x05]] in
  let usw := mkUdpSockWrapper 3
               ([x03; x04; x05; x04; x05] ++ make 255) (mkUDPConn []) in
  exists usw' buf',
    Read usw [x00; x00] = Some (usw', buf', 2, None)
    /\ delivered buf' 2 = [x03; x04]
    /\ slice_from buf' 2 = []
    /\ leftoverCount usw' = 1
    /\ leftover usw' = [x05]
    /\ sock usw' = sock usw.
Proof.
  intros s usw.
  refine (proj1 (proj2 (Read_serves_leftover [x01; x02; x03; x04; x05] usw
                          [x00; x00] _)) _).
  - apply (serving_Read [] (newUDPSockWrapper s) usw [x00; x00] [x01; x02] 2 None).
    + apply serving_new.
    + vm_compute. reflexivity.
  - reflexivity.
Defined.

(** One call on a source that is not empty: it delivers without error. *)
Lemma Read_step_data (usw : udpSockWrapper) (buf : list byte) :
  wf usw ->
  source usw <> [] ->
  let n := Z.min (len buf) (len (source usw)) in
  exists usw' buf',
    Read usw buf = Some (usw', buf', n, None)
    /\ wf usw'
    /\ delivered buf' n = firstn (Z.to_nat n) (source usw)
    /\ leftover usw' = skipn (Z.to_nat n) (source usw)
    /\ (if leftoverCount usw >? 0 then sock usw' = sock usw
        else inbox (sock usw') = tl (inbox (sock usw))).
Proof.
  intros Hwf Hsrc n.
  destruct (Read_step usw buf Hwf)
    as (u & b & m & e & HR & Hwf' & Hn & Herr & Hdel & Hleft & _ & Hnet).
  destruct e as [e|].
  - destruct Herr as [_ H]; [discriminate|contradiction].
  - specialize (Hn eq_refl). subst m. fold n in HR, Hdel, Hleft.
    exists u, b. repeat (split; [assumption|]).
    destruct (leftoverCount usw >? 0); [apply Hnet|exact Hnet].
Qed.

(** C8. A datagram of 260 bytes received by an adapter that holds no
    leftover bytes: two calls with buffers of 7 and 253 bytes deliver,
    one after the other, the same 260 bytes in the same order as a single
    call with a buffer of 260 bytes, namely the datagram, and both ways
    leave the adapter without leftover bytes and the socket past that one
    datagram.  And no call ever returns bytes of two datagrams: what a call
    delivers, followed by the leftover region it leaves, is a tail of the
    one datagram it serves, and it takes at most one event from the
    socket. *)
Theorem Read_byte_stream_emulation :
  (forall last usw d rest buf7 buf253 buf260,
     serving last usw ->
     leftoverCount usw = 0 ->
     inbox (sock usw) = Datagram d :: rest ->
     len d = 260 ->
     len buf7 = 7 -> len buf253 = 253 -> len buf260 = 260 ->
     exists u1 b1 u2 b2 u3 b3,
       Read usw buf7 = Some (u1, b1, 7, None)
       /\ Read u1 buf253 = Some (u2, b2, 253, None)
       /\ Read usw buf260 = Some (u3, b3, 260, None)
       /\ delivered b1 7 ++ delivered b2 253 = delivered b3 260
       /\ delivered b3 260 = d
       /\ leftoverCount u2 = 0 /\ leftoverCount u3 = 0
       /\ inbox (sock u2) = rest /\ inbox (sock u3) = rest)
  /\ (forall last usw buf usw' buf' n err,
        serving last usw ->
        Read usw buf = Some (usw', buf', n, err) ->
        (exists pre,
           served_datagram last usw = pre ++ delivered buf' n ++ leftover usw')
        /\ (inbox (sock usw') = inbox (sock usw)
            \/ exists ev, inbox (sock usw) = ev :: inbox (sock usw'))).
Proof.
  split.
  - intros last usw d rest buf7 buf253 buf260 Hs Hzero Hin Hd H7 H253 H260.
    pose proof (serving_wf _ _ Hs) as Hwf. pose proof Hwf as [Hlen _].
    unfold maxTCPFrameLength in Hlen.
    assert (Hsrc : source usw = d).
    { unfold source. rewrite Hzero, Hin. cbn [Z.gtb Z.compare].
      apply firstn_all2. unfold len in *. lia. }
    assert (Hne : source usw <> []).
    { rewrite Hsrc. intros ->. discriminate. }
    (* the header-sized call *)
    destruct (Read_step_data usw buf7 Hwf Hne)
      as (u1 & b1 & HR1 & Hwf1 & Hdel1 & Hleft1 & Hnet1).
    rewrite Hsrc, H7, Hd in HR1, Hdel1, Hleft1.
    change (Z.min 7 260) with 7 in *.
    rewrite Hzero in Hnet1. cbn [Z.gtb Z.compare] in Hnet1.
    rewrite Hin in Hnet1. cbn [tl] in Hnet1.
    assert (Hlc1 : leftoverCount u1 = 253).
    { rewrite <- (leftover_len u1 Hwf1), Hleft1. unfold len in *.
      rewrite length_skipn. lia. }
    assert (Hsrc1 : source u1 = skipn 7 d).
    { unfold source. rewrite Hlc1. cbn [Z.gtb Z.compare]. exact Hleft1. }
    assert (Hl1 : len (skipn 7 d) = 253).
    { unfold len in *. rewrite length_skipn. lia. }
    (* the body-sized call *)
    destruct (Read_step_data u1 buf253 Hwf1)
      as (u2 & b2 & HR2 & Hwf2 & Hdel2 & Hleft2 & Hnet2).
    { rewrite Hsrc1. intros E. rewrite E in Hl1. discriminate. }
    rewrite Hsrc1, H253, Hl1 in HR2, Hdel2, Hleft2.
    change (Z.min 253 253) with 253 in *.
    rewrite Hlc1 in Hnet2. cbn [Z.gtb Z.compare] in Hnet2.
    (* the single call *)
    destruct (Read_step_data usw buf260 Hwf Hne)
      as (u3 & b3 & HR3 & Hwf3 & Hdel3 & Hleft3 & Hnet3).
    rewrite Hsrc, H260, Hd in HR3, Hdel3, Hleft3.
    change (Z.min 260 260) with 260 in *.
    rewrite Hzero in Hnet3. cbn [Z.gtb Z.compare] in Hnet3.
    rewrite Hin in Hnet3. cbn [tl] in Hnet3.
    assert (Hall : firstn (Z.to_nat 260) d = d)
      by (apply firstn_all2; unfold len in *; lia).
    exists u1, b1, u2, b2, u3, b3.
    repeat (split; [assumption|]).
    split; [|split; [|split; [|split; [|split]]]].
    + rewrite Hdel1, Hdel2, Hdel3, Hall.
      rewrite (firstn_all2 (skipn 7 d)) by (unfold len in *; lia).
      apply (firstn_skipn 7 d).
    + rewrite Hdel3. exact Hall.
    + rewrite <- (leftover_len u2 Hwf2), Hleft2.
      rewrite skipn_all2 by (unfold len in *; lia). reflexivity.
    + rewrite <- (leftover_len u3 Hwf3), Hleft3.
      rewrite skipn_all2 by (unfold len in *; lia). reflexivity.
    + rewrite Hnet2. exact Hnet1.
    + exact Hnet3.
  - intros last usw buf usw' buf' n err Hs HR.
    pose proof (serving_wf _ _ Hs) as Hwf.
    destruct (serving_tail _ _ Hs) as [pre Hpre].
    destruct (Read_step usw buf Hwf)
      as (u & b & m & e & HR' & _ & _ & Herr & Hdel & Hleft & _ & Hnet).
    rewrite HR in HR'. injection HR' as <- <- <- <-.
    rewrite Hdel, Hleft, firstn_skipn.
    unfold served_datagram, source in *.
    destruct (leftoverCount usw >? 0).
    + split; [exists pre; exact Hpre|]. left. destruct Hnet as [-> _]. reflexivity.
    + destruct (inbox (sock usw)) as [|[d|e'] rest] eqn:Hin; cbn [tl] in Hnet.
      * split; [exists last; rewrite app_nil_r; reflexivity|]. left. exact Hnet.
      * split; [exists []; reflexivity|]. right. exists (Datagram d).
        rewrite Hnet. reflexivity.
      * split; [exists last; rewrite app_nil_r; reflexivity|]. right.
        exists (RecvErr e'). rewrite Hnet. reflexivity.
Qed.

(** A datagram holding the bytes 0, 1, ..., 255, 0, 1, 2, 3, read by a fresh
    adapter as a header and a body. *)
Lemma Read_byte_stream_emulation_witness :
  let d := map (fun i => byte_of_Z (Z.of_nat i)) (seq 0 260) in
  let usw := newUDPSockWrapper (mkUDPConn [Datagram d]) in
  exists u1 b1 u2 b2 u3 b3,
    Read usw (make 7) = Some (u1, b1, 7, None)
    /\ Read u1 (make 253) = Some (u2, b2, 253, None)
    /\ Read usw (make 260) = Some (u3, b3, 260, None)
    /\ delivered b1 7 ++ delivered b2 253 = delivered b3 260
    /\ delivered b3 260 = d
    /\ leftoverCount u2 = 0 /\ leftoverCount u3 = 0
    /\ inbox (sock u2) = [] /\ inbox (sock u3) = [].
Proof.
  intros d usw.
  apply (proj1 Read_byte_stream_emulation [] usw d [] (make 7) (make 253) (make 260)).
  - apply serving_new.
  - reflexivity.
  - reflexivity.
  - vm_compute. reflexivity.
  - vm_compute. reflexivity.
  - vm_compute. reflexivity.
  - vm_compute. reflexivity.
Defined.

(** ** Reads end *)

Lemma Conn_Read_spec (c : Conn) (buf : list byte) :
  let '(c', buf', n, err) := Conn_Read c buf in
  length buf' = length buf
  /\ 0 <= n <= len buf
  /\ Z.of_nat (rx_weight (rx c')) + n <= Z.of_nat (rx_weight (rx c))
  /\ (err = None -> (length (rx c') < length (rx c))%nat \/ n = len buf).
Proof.
  unfold Conn_Read.
  destruct (rx c) as [|[bs|e] rest] eqn:Hrx.
  - rewrite Hrx. pose proof (len_nonneg buf). repeat split; lia || discriminate.
  - pose proof (copy_length buf bs) as Hl. pose proof (copy_count buf bs) as Hc.
    destruct (copy buf bs) as [buf' n]. cbn [fst snd] in Hl, Hc. subst n.
    pose proof (len_nonneg buf) as Hb. pose proof (len_nonneg bs) as Hs.
    destruct (Z.ltb_spec (Z.min (len buf) (len bs)) (len bs)) as [Hpart|Hwhole];
      cbn [rx rx_weight length].
    + unfold slice_from. rewrite length_skipn. unfold len in *.
      repeat split; lia.
    + unfold len in *. repeat split; lia.
  - cbn [rx rx_weight length]. pose proof (len_nonneg buf).
    repeat split; lia || discriminate.
Qed.

(** The loop of [io.ReadAtLeast] leaves by its own condition, never by the
    bound on its turns: it stops with the buffer full or with an error. *)
Lemma ReadAtLeast_loop_exit (turns : nat) :
  forall r buf n err,
    ((length (rx r) < turns)%nat \/ n = len buf \/ err <> None) ->
    0 <= n <= len buf ->
    let '(r', buf', n', err') := ReadAtLeast_loop turns r buf (len buf) n err in
    length buf' = length buf
    /\ n <= n' <= len buf
    /\ (n' = len buf \/ err' <> None)
    /\ Z.of_nat (rx_weight (rx r')) + (n' - n) <= Z.of_nat (rx_weight (rx r)).
Proof.
  induction turns as [|turns IH]; intros r buf n err Hstop Hn.
  - cbn [ReadAtLeast_loop]. repeat split; try lia.
    all: destruct Hstop as [H|[H|H]]; [lia|now left|now right].
  - cbn [ReadAtLeast_loop].
    destruct (Z.ltb_spec n (len buf)) as [Hlt|Hge]; cbn [andb].
    2:{ repeat split; try lia. all: left; lia. }
    destruct err as [e|]; cbn [is_nil].
    { repeat split; try lia. all: right; discriminate. }
    pose proof (Conn_Read_spec r (slice_from buf n)) as HR.
    destruct (Conn_Read r (slice_from buf n)) as [[[r' tail'] nn] err'].
    destruct HR as (Hl & Hnn & Hw & Hprog).
    assert (Htail : len (slice_from buf n) = len buf - n).
    { unfold slice_from, len in *. rewrite length_skipn. lia. }
    assert (Hbuf : length (slice buf 0 n ++ tail') = length buf).
    { rewrite length_app, slice_0, length_firstn, Hl.
      unfold slice_from, len in *. rewrite length_skipn. lia. }
    assert (Hlen : len (slice buf 0 n ++ tail') = len buf)
      by (unfold len; rewrite Hbuf; reflexivity).
    specialize (IH r' (slice buf 0 n ++ tail') (n + nn) err').
    rewrite Hlen in IH.
    destruct (ReadAtLeast_loop turns r' (slice buf 0 n ++ tail') (len buf) (n + nn) err')
      as [[[r'' buf''] n''] err''].
    destruct IH as (H1 & H2 & H3 & H4).
    + destruct err' as [e'|]; [right; right; discriminate|].
      destruct (Hprog eq_refl) as [Hless|Hfull].
      * destruct Hstop as [H|[H|H]]; [left; lia|lia|congruence].
      * right. left. lia.
    + lia.
    + repeat split; try lia; try congruence; exact H3.
Qed.

(** [io.ReadFull] either fills the buffer, without error, or reports an
    error with the buffer short: a short read is an I/O error. *)
Lemma ReadFull_complete (r : Conn) (buf : list byte) :
  let '(r', buf', n, err) := ReadFull r buf in
  length buf' = length buf
  /\ ((err = None /\ n = len buf) \/ (err <> None /\ 0 <= n < len buf))
  /\ (err = None ->
      Z.of_nat (rx_weight (rx r')) + len buf <= Z.of_nat (rx_weight (rx r)))
  /\ (rx_weight (rx r') <= rx_weight (rx r))%nat.
Proof.
  unfold ReadFull.
  pose proof (ReadAtLeast_loop_exit (S (length (rx r))) r buf 0 None) as H.
  destruct (ReadAtLeast_loop (S (length (rx r))) r buf (len buf) 0 None)
    as [[[r' buf'] n] err].
  pose proof (len_nonneg buf) as Hb.
  destruct H as (H1 & H2 & H3 & H4); [left; lia|lia|].
  destruct (Z.leb_spec (len buf) n) as [Hfull|Hshort].
  - split; [exact H1|]. split; [left; split; [reflexivity|lia]|].
    split; [intros _|]; lia.
  - destruct H3 as [H3|H3]; [lia|].
    assert (Herr : (if (0 <? n) && is_EOF err then Some ErrUnexpectedEOF else err)
                   <> None)
      by (destruct ((0 <? n) && is_EOF err); [discriminate|exact H3]).
    split; [exact H1|]. split; [right; split; [exact Herr|lia]|].
    split; [intros E; contradiction|lia].
Qed.

(** A frame that is decoded, or rejected for its protocol identifier, has
    been taken off the stream. *)
Lemma readMBAPFrame_consumes (tt : tcpTransport) :
  let '(tt', r) := readMBAPFrame tt in
  match r with
  | Err (ErrIO _) | Err ErrProtocol => True
  | _ => (rx_weight (rx (socket tt')) < rx_weight (rx (socket tt)))%nat
  end.
Proof.
  unfold readMBAPFrame.
  pose proof (ReadFull_complete (socket tt) (make mbapHeaderLength)) as H1.
  destruct (ReadFull (socket tt) (make mbapHeaderLength))
    as [[[s1 hdr] n1] [e1|]]; [exact I|].
  destruct H1 as (_ & _ & Hw1 & _). specialize (Hw1 eq_refl).
  rewrite len_make in Hw1 by (unfold mbapHeaderLength; lia).
  unfold mbapHeaderLength in Hw1.
  destruct (_ >? maxTCPFrameLength); [exact I|].
  destruct (_ <=? 0); [exact I|].
  cbn [with_socket socket].
  match goal with
  | |- context [ReadFull s1 ?b] =>
      pose proof (ReadFull_complete s1 b) as H2;
      destruct (ReadFull s1 b) as [[[s2 body] n2] [e2|]]
  end; [exact I|].
  destruct H2 as (_ & _ & _ & Hw2).
  destruct (negb _); cbn [Warningf with_socket socket]; lia.
Qed.

(** The matching loop ends on every stream: with enough turns it returns a
    response or an error. *)
Lemma readResponse_ends (fuel : nat) :
  forall tt,
    (rx_weight (rx (socket tt)) < fuel)%nat ->
    exists tt' res, readResponse fuel tt = (tt', Some res).
Proof.
  induction fuel as [|fuel IH]; intros tt Hw; [lia|].
  cbn [readResponse].
  pose proof (readMBAPFrame_consumes tt) as Hc.
  destruct (readMBAPFrame tt) as [tt1 [[p t]|e]].
  - destruct (negb _).
    + apply IH. cbn [Warningf socket]. lia.
    + do 2 eexists. reflexivity.
  - destruct e; cbn [is_ErrUnknownProtocolId].
    + do 2 eexists. reflexivity.
    + apply IH. lia.
    + do 2 eexists. reflexivity.
Qed.

Lemma ExecuteRequest_ends (tt : tcpTransport) (req : pdu) :
  exists fuel tt' res, ExecuteRequest fuel tt req = (tt', Some res).
Proof.
  exists (S (rx_weight (rx (socket tt)))). unfold ExecuteRequest.
  pose proof (Conn_SetDeadline_fields (socket tt)) as (Hrx & _).
  destruct (Conn_SetDeadline (socket tt)) as [s [e|]]; cbn [fst] in Hrx.
  - do 2 eexists. reflexivity.
  - cbn [with_socket with_lastTxnId socket lastTxnId logger].
    unfold Conn_Write. destruct (next_outcome (wr s)) as [[e|] wr'].
    + do 2 eexists. reflexivity.
    + apply readResponse_ends. cbn [with_socket socket rx]. rewrite Hrx. lia.
Qed.

(** * Scenarios *)

(** A client whose counter starts at 0 sends a request: the frame on the
    wire begins with [00 01 00 00]; the server decodes unit id, function
    code and payload from that frame unchanged and records transaction 1;
    its response goes out with transaction id [00 01]; the client's
    matching loop accepts it on the first read. *)
Example request_response_exchange :
  let req := mkPdu x11 x03 [x00; x6b; x00; x03] in
  let res := mkPdu x11 x03 [x06; xae; x41; x56; x52; x43; x40] in
  let on_wire := [x00; x01; x00; x00; x00; x06; x11; x03; x00; x6b; x00; x03] in
  let reply := [x00; x01; x00; x00; x00; x09; x11; x03;
                x06; xae; x41; x56; x52; x43; x40] in
  let client := newTCPTransport (mkConn [RxData reply] [] [] []) in
  let server := newTCPTransport (mkConn [RxData on_wire] [] [] []) in
  ExecuteRequest 1 client req
  = (mkTcpTransport [] (mkConn [] [] [] [on_wire]) 1, Some (Ok res))
  /\ ReadRequest server = (mkTcpTransport [] (mkConn [] [] [] []) 1, Ok req)
  /\ WriteResponse (fst (ReadRequest server)) res
     = (mkTcpTransport [] (mkConn [] [] [] [reply]) 1, None).
Proof. vm_compute. repeat split. Qed.

(** The socket hands a frame over in pieces of three bytes: the decoder
    still sees one frame. *)
Example frame_in_pieces :
  readMBAPFrame
    (newTCPTransport
       (mkConn [RxData [x00; x01; x00]; RxData [x00; x00; x06];
                RxData [x11; x03; x00]; RxData [x6b; x00; x03]] [] [] []))
  = (newTCPTransport (mkConn [] [] [] []),
     Ok (mkPdu x11 x03 [x00; x6b; x00; x03], 1)).
Proof. vm_compute. reflexivity. Qed.

(** A stream that ends inside the header is an I/O error, not a protocol
    error; one that ends before the header is a plain end of stream. *)
Example short_header :
  snd (readMBAPFrame
         (newTCPTransport (mkConn [RxData [x00; x01; x00]; RxErr EOF] [] [] [])))
  = Err (ErrIO ErrUnexpectedEOF)
  /\ snd (readMBAPFrame (newTCPTransport (mkConn [RxErr EOF] [] [] [])))
     = Err (ErrIO EOF)
  /\ snd (readMBAPFrame (newTCPTransport (mkConn [] [] [] [])))
     = Err (ErrIO ErrDeadlineExceeded).
Proof. vm_compute. repeat split. Qed.

(** A frame of 261 bytes in all is refused on its header alone; one of 260
    bytes is the largest accepted. *)
Example largest_frame :
  snd (readMBAPFrame
         (newTCPTransport
            (mkConn [RxData ([x00; x01; x00; x00; x00; xff; x11] ++ make 254)]
               [] [] [])))
  = Err ErrProtocol
  /\ snd (readMBAPFrame
            (newTCPTransport
               (mkConn [RxData ([x00; x01; x00; x00; x00; xfe; x11] ++ make 253)]
                  [] [] [])))
     = Ok (mkPdu x11 x00 (make 252), 1).
Proof. vm_compute. repeat split. Qed.

(** A foreign frame and a stale frame before the awaited one: both are
    skipped, both are logged. *)
Example foreign_then_stale_then_awaited :
  let foreign := [x00; x01; x12; x34; x00; x02; x11; x03] in
  let stale := [x00; x02; x00; x00; x00; x02; x11; x03] in
  let awaited := [x00; x01; x00; x00; x00; x02; x11; x03] in
  readResponse 3
    (mkTcpTransport []
       (mkConn [RxData (foreign ++ stale ++ awaited)] [] [] []) 1)
  = (mkTcpTransport [UnexpectedProtocolId 4660; UnexpectedTxnId 1 2]
       (mkConn [] [] [] []) 1,
     Some (Ok (mkPdu x11 x03 []))).
Proof. vm_compute. reflexivity. Qed.

(** The framing reading through the adapter a frame that arrives cut in
    three datagrams, with an empty one in between and a byte to spare. *)
Example frame_cut_in_datagrams :
  let ds := [[x00; x07; x00]; []; [x00; x00; x06; x11; x03; x00];
             [x6b; x00; x03; xee]] in
  match Framing.readMBAPFrame udpSockWrapper Read 5
          (newUDPSockWrapper (mkUDPConn (map Datagram ds))) with
  | Some (usw', ws, r) =>
      r = Ok (mkPdu x11 x03 [x00; x6b; x00; x03], 7) /\ ws = []
      /\ leftover usw' = [xee] /\ inbox (sock usw') = []
  | None => False
  end.
Proof. vm_compute. repeat split. Qed.

(** A caller's buffer larger than the datagram: the call returns that
    datagram's bytes only, and the next datagram waits for the next call. *)
Example oversized_buffer :
  let s := mkUDPConn [Datagram [x01; x02; x03]; Datagram [x04; x05]] in
  match Read (newUDPSockWrapper s) (make 8) with
  | Some (usw', buf', n, err) =>
      n = 3 /\ delivered buf' n = [x01; x02; x03] /\ err = None
      /\ leftoverCount usw' = 0 /\ inbox (sock usw') = [Datagram [x04; x05]]
  | None => False
  end.
Proof. vm_compute. repeat split. Qed.

(** * Further properties of the transport *)

(** ** What a read takes off the stream *)

Lemma copy_spec (dst src : list byte) :
  let '(dst', n) := copy dst src in
  0 <= n <= len dst
  /\ n <= len src
  /\ length dst' = length dst
  /\ slice dst' 0 n = slice src 0 n
  /\ slice_from dst' n = slice_from dst n.
Proof.
  pose proof (copy_length dst src) as Hl.
  pose proof (copy_count dst src) as Hc.
  pose proof (copy_delivered dst src) as Hd.
  pose proof (copy_rest dst src) as Hr.
  destruct (copy dst src) as [dst' n]. cbn [fst snd] in *.
  pose proof (len_nonneg dst). pose proof (len_nonneg src).
  repeat split; try lia; try assumption.
  rewrite Hd, slice_0, Hc. rewrite <- firstn_min_length. f_equal.
  unfold len. lia.
Qed.

(** One [Read]: the bytes it stores at the front of [buf] are the next
    bytes of the stream, and they are gone from it. *)
Lemma Conn_Read_bytes (c : Conn) (buf : list byte) :
  let '(c', buf', n, err) := Conn_Read c buf in
  0 <= n <= len buf
  /\ length buf' = length buf
  /\ slice_from buf' n = slice_from buf n
  /\ stream_bytes (rx c) = slice buf' 0 n ++ stream_bytes (rx c').
Proof.
  unfold Conn_Read. pose proof (len_nonneg buf) as Hb.
  destruct (rx c) as [|[bs|e] rest] eqn:Hrx.
  - rewrite Hrx. repeat split; lia.
  - pose proof (copy_spec buf bs) as H.
    destruct (copy buf bs) as [buf' n].
    destruct H as (Hn & Hs & Hl & Hd & Hr).
    cbn [rx]. repeat split; try lia; try assumption.
    rewrite Hd. cbn [stream_bytes].
    destruct (Z.ltb_spec n (len bs)) as [Hpart|Hwhole]; cbn [stream_bytes].
    + unfold slice_from. rewrite slice_0, app_assoc, firstn_skipn. reflexivity.
    + rewrite slice_0, firstn_all2 by (unfold len in *; lia). reflexivity.
  - cbn [rx stream_bytes]. repeat split; lia.
Qed.

Lemma slice_app_mid {A : Type} (s : list A) (a b c : Z) :
  0 <= a <= b -> b <= c ->
  slice s a b ++ slice s b c = slice s a c.
Proof.
  intros Hab Hbc. rewrite !slice_skipn_firstn by lia.
  set (t := firstn (Z.to_nat c) s).
  replace (firstn (Z.to_nat b) s) with (firstn (Z.to_nat b) t)
    by (unfold t; rewrite firstn_firstn; f_equal; lia).
  rewrite <- (firstn_skipn (Z.to_nat b) t) at 3.
  rewrite skipn_app. f_equal.
  rewrite length_firstn.
  destruct (Nat.le_ge_cases (Z.to_nat b) (length t)).
  - replace (Z.to_nat a - Nat.min (Z.to_nat b) (length t))%nat with 0%nat by lia.
    reflexivity.
  - rewrite (skipn_all2 t) by lia. now rewrite skipn_nil.
Qed.

(** The loop of [io.ReadAtLeast]: what it has stored in [buf] between its
    first and its last position is what it took off the stream; the bytes
    before stay as they were. *)
Lemma ReadAtLeast_loop_bytes (turns : nat) :
  forall r buf min n err,
    0 <= n <= len buf ->
    let '(r', buf', n', err') := ReadAtLeast_loop turns r buf min n err in
    n <= n' <= len buf
    /\ length buf' = length buf
    /\ slice buf' 0 n = slice buf 0 n
    /\ stream_bytes (rx r) = slice buf' n n' ++ stream_bytes (rx r').
Proof.
  induction turns as [|turns IH]; intros r buf min n err Hn;
    cbn [ReadAtLeast_loop].
  - repeat split; try lia. unfold slice. rewrite Z.sub_diag. reflexivity.
  - destruct ((n <? min) && is_nil err).
    2:{ repeat split; try lia. unfold slice. rewrite Z.sub_diag. reflexivity. }
    pose proof (Conn_Read_bytes r (slice_from buf n)) as HR.
    destruct (Conn_Read r (slice_from buf n)) as [[[r1 tail1] nn] err1].
    destruct HR as (Hnn & Hl & Hrest & Hbytes).
    assert (Htail : len (slice_from buf n) = len buf - n).
    { unfold slice_from, len in *. rewrite length_skipn. lia. }
    assert (Hfront : length (slice buf 0 n) = Z.to_nat n).
    { rewrite slice_0, length_firstn. unfold len in *. lia. }
    set (buf1 := slice buf 0 n ++ tail1).
    assert (Hl1 : length buf1 = length buf).
    { unfold buf1. rewrite length_app, Hfront, Hl.
      unfold slice_from, len in *. rewrite length_skipn. lia. }
    assert (Hlen1 : len buf1 = len buf) by (unfold len; rewrite Hl1; reflexivity).
    specialize (IH r1 buf1 min (n + nn) err1). rewrite Hlen1 in IH.
    destruct (ReadAtLeast_loop turns r1 buf1 min (n + nn) err1)
      as [[[r2 buf2] n2] err2].
    destruct IH as (H1 & H2 & H3 & H4); [lia|].
    rewrite !slice_0 in H3.
    assert (Hfn : length (firstn (Z.to_nat n) buf) = Z.to_nat n)
      by (rewrite <- slice_0; exact Hfront).
    assert (Hpre : slice buf2 0 n = slice buf 0 n).
    { apply (f_equal (firstn (Z.to_nat n))) in H3.
      rewrite !firstn_firstn in H3.
      replace (Nat.min (Z.to_nat n) (Z.to_nat (n + nn))) with (Z.to_nat n) in H3 by lia.
      rewrite !slice_0, H3. unfold buf1. rewrite slice_0.
      rewrite firstn_app, Hfn, Nat.sub_diag, firstn_firstn, Nat.min_id.
      cbn [firstn]. apply app_nil_r. }
    assert (Hmid : slice buf2 n (n + nn) = slice tail1 0 nn).
    { apply (f_equal (skipn (Z.to_nat n))) in H3.
      rewrite (slice_skipn_firstn buf2 n (n + nn)) by lia.
      rewrite H3. unfold buf1. rewrite slice_0.
      rewrite firstn_app, Hfn, skipn_app, length_firstn, Hfn.
      rewrite skipn_all2 by (rewrite length_firstn; lia).
      replace (Z.to_nat n - Nat.min (Z.to_nat (n + nn)) (Z.to_nat n))%nat
        with 0%nat by lia.
      cbn [skipn app]. rewrite slice_0. f_equal. lia. }
    repeat split; try lia; try congruence.
    rewrite Hbytes, H4, app_assoc, <- Hmid. f_equal.
    apply slice_app_mid; lia.
Qed.

(** [io.ReadFull]: on success the buffer holds the next [len(buf)] bytes of
    the stream, which are gone from it; on failure fewer bytes were taken. *)
Lemma ReadFull_bytes (r : Conn) (buf : list byte) :
  let '(r', buf', n, err) := ReadFull r buf in
  0 <= n <= len buf
  /\ length buf' = length buf
  /\ stream_bytes (rx r) = slice buf' 0 n ++ stream_bytes (rx r')
  /\ (err = None -> n = len buf /\ slice buf' 0 n = buf')
  /\ (err <> None -> n < len buf).
Proof.
  pose proof (ReadFull_complete r buf) as HC.
  unfold ReadFull in *.
  pose proof (ReadAtLeast_loop_bytes (S (length (rx r))) r buf (len buf) 0 None) as HB.
  destruct (ReadAtLeast_loop (S (length (rx r))) r buf (len buf) 0 None)
    as [[[r' buf'] n] err].
  pose proof (len_nonneg buf) as Hb.
  destruct HB as (H1 & H2 & _ & H4); [lia|].
  destruct HC as (_ & HC & _).
  split; [lia|]. split; [exact H2|]. split; [exact H4|]. split.
  - intros E. destruct HC as [[_ Hn]|[Hne _]]; [|contradiction].
    split; [exact Hn|]. rewrite slice_0. apply firstn_all2. unfold len in *. lia.
  - intros E. destruct HC as [[Hnone _]|[_ Hn]]; [contradiction|lia].
Qed.

(** ** Two bytes and back *)

Lemma bytesToUint16_pair (a b : byte) :
  bytesToUint16 BIG_ENDIAN [a; b] = Z_of_byte a * 256 + Z_of_byte b.
Proof.
  pose proof (Z_of_byte_range a) as Ha. pose proof (Z_of_byte_range b) as Hb.
  pose proof (lor_shiftl_8 (Z_of_byte a * 256 + Z_of_byte b) ltac:(lia)) as H.
  rewrite Z.shiftr_div_pow2 in H by lia. change (2 ^ 8) with 256 in H.
  replace ((Z_of_byte a * 256 + Z_of_byte b) / 256) with (Z_of_byte a) in H
    by (apply Z.div_unique with (r := Z_of_byte b); lia).
  replace ((Z_of_byte a * 256 + Z_of_byte b) mod 256) with (Z_of_byte b) in H
    by (apply Z.mod_unique with (q := Z_of_byte a); lia).
  rewrite (Z.mod_small (Z_of_byte a)) in H by lia.
  rewrite (Z.mod_small _ 65536) in H by lia.
  exact H.
Qed.

(** Encoding undoes decoding: the two bytes of a field are the encoding of
    the value read from them. *)
Lemma uint16ToBytes_bytesToUint16 (a b : byte) :
  uint16ToBytes BIG_ENDIAN (bytesToUint16 BIG_ENDIAN [a; b]) = [a; b].
Proof.
  pose proof (Z_of_byte_range a) as Ha. pose proof (Z_of_byte_range b) as Hb.
  rewrite bytesToUint16_pair. cbn [uint16ToBytes].
  rewrite Z.shiftr_div_pow2 by lia. change (2 ^ 8) with 256.
  replace ((Z_of_byte a * 256 + Z_of_byte b) / 256) with (Z_of_byte a)
    by (apply Z.div_unique with (r := Z_of_byte b); lia).
  rewrite byte_of_Z_of_byte. f_equal. f_equal.
  rewrite <- (byte_of_Z_of_byte b) at 2. unfold byte_of_Z.
  replace ((Z_of_byte a * 256 + Z_of_byte b) mod 256) with (Z_of_byte b mod 256).
  - reflexivity.
  - rewrite Z.add_comm, Z.mod_add by lia. reflexivity.
Qed.

Lemma bytesToUint16_zero (a b : byte) :
  bytesToUint16 BIG_ENDIAN [a; b] = 0 -> a = x00 /\ b = x00.
Proof.
  intros H. pose proof (uint16ToBytes_bytesToUint16 a b) as E.
  rewrite H in E. cbn in E. injection E as <- <-. split; reflexivity.
Qed.

(** ** What each way through the decoder takes and logs *)

Lemma length_7 {A : Type} (l : list A) :
  length l = 7%nat ->
  exists a b c d e f g, l = [a; b; c; d; e; f; g].
Proof.
  intros H.
  destruct l as [|a [|b [|c [|d [|e [|f [|g [|h l]]]]]]]]; try discriminate.
  now exists a, b, c, d, e, f, g.
Qed.

(** Every way through [readMBAPFrame], with the bytes it took off the
    stream and the warnings it logged. *)
Lemma readMBAPFrame_accounts (tt : tcpTransport) :
  let '(tt', r) := readMBAPFrame tt in
  let before := stream_bytes (rx (socket tt)) in
  let after := stream_bytes (rx (socket tt')) in
  match r with
  | Ok (p, t) =>
      before = assembleMBAPFrame t p ++ after
      /\ 0 <= t < 65536
      /\ len (payload p) <= 252
      /\ logger tt' = logger tt
  | Err ErrProtocol =>
      exists hdr,
        length hdr = 7%nat
        /\ before = hdr ++ after
        /\ (length_field hdr - 1 <= 0
            \/ mbapHeaderLength + (length_field hdr - 1) > maxTCPFrameLength)
        /\ logger tt' = logger tt
  | Err ErrUnknownProtocolId =>
      exists hdr body,
        length hdr = 7%nat
        /\ len body = length_field hdr - 1
        /\ 0 < len body
        /\ mbapHeaderLength + len body <= maxTCPFrameLength
        /\ before = hdr ++ body ++ after
        /\ bytesToUint16 BIG_ENDIAN (slice hdr 2 4) <> 0
        /\ logger tt'
           = logger tt
             ++ [UnexpectedProtocolId (bytesToUint16 BIG_ENDIAN (slice hdr 2 4))]
  | Err (ErrIO _) =>
      exists got,
        before = got ++ after
        /\ len got < maxTCPFrameLength
        /\ logger tt' = logger tt
  end.
Proof.
  unfold readMBAPFrame.
  pose proof (ReadFull_bytes (socket tt) (make mbapHeaderLength)) as H1.
  destruct (ReadFull (socket tt) (make mbapHeaderLength)) as [[[s1 hdr] n1] err1].
  destruct H1 as (Hn1 & Hl1 & Hb1 & Hok1 & Hko1).
  rewrite len_make in * by (unfold mbapHeaderLength; lia).
  rewrite make_length in Hl1. unfold mbapHeaderLength, maxTCPFrameLength in *.
  destruct err1 as [e1|].
  { (* the header read fails *)
    cbn [with_socket socket logger]. exists (slice hdr 0 n1).
    split; [exact Hb1|]. split; [|reflexivity].
    specialize (Hko1 ltac:(discriminate)).
    rewrite slice_0. unfold len. rewrite length_firstn. lia. }
  destruct (Hok1 eq_refl) as [-> Hall1]. rewrite Hall1 in Hb1. clear Hok1 Hko1 Hall1.
  fold (length_field hdr).
  destruct (Z.gtb_spec (length_field hdr - 1 + 7) 260) as [Hbig|Hfit].
  { cbn [with_socket socket logger]. exists hdr.
    repeat split; try assumption. right. lia. }
  destruct (Z.leb_spec (length_field hdr - 1) 0) as [Hsmall|Hpos].
  { cbn [with_socket socket logger]. exists hdr.
    repeat split; try assumption. left. lia. }
  cbn [with_socket socket].
  pose proof (ReadFull_bytes s1 (make (length_field hdr - 1))) as H2.
  destruct (ReadFull s1 (make (length_field hdr - 1))) as [[[s2 body] n2] err2].
  destruct H2 as (Hn2 & Hl2 & Hb2 & Hok2 & Hko2).
  rewrite len_make in * by lia. rewrite make_length in Hl2.
  destruct err2 as [e2|].
  { (* the body read fails *)
    cbn [with_socket socket logger]. exists (hdr ++ slice body 0 n2).
    split; [rewrite Hb1, Hb2, app_assoc; reflexivity|]. split; [|reflexivity].
    specialize (Hko2 ltac:(discriminate)).
    rewrite len_app, slice_0. unfold len. rewrite length_firstn. lia. }
  destruct (Hok2 eq_refl) as [-> Hall2]. rewrite Hall2 in Hb2. clear Hok2 Hko2 Hall2.
  assert (Hbody : len body = length_field hdr - 1) by (unfold len; lia).
  destruct (Z.eqb_spec (bytesToUint16 BIG_ENDIAN (slice hdr 2 4)) 0) as [Hproto|Hproto];
    cbn [negb].
  2:{ (* a foreign protocol identifier *)
    cbn [Warningf with_socket socket logger]. exists hdr, body.
    repeat split; try assumption; try lia.
    rewrite Hb1, Hb2. reflexivity. }
  (* the frame decodes *)
  cbn [with_socket socket logger].
  destruct (length_7 hdr Hl1) as (a & b & c & d & e & f & u & ->).
  unfold length_field in *.
  change (slice [a; b; c; d; e; f; u] 0 2) with [a; b] in *.
  change (slice [a; b; c; d; e; f; u] 2 4) with [c; d] in *.
  change (slice [a; b; c; d; e; f; u] 4 6) with [e; f] in *.
  change (index [a; b; c; d; e; f; u] 6) with u.
  apply bytesToUint16_zero in Hproto as [-> ->].
  destruct body as [|fc pl];
    [exfalso; unfold len in Hbody; cbn [length] in Hbody; lia|].
  change (index (fc :: pl) 0) with fc.
  change (slice_from (fc :: pl) 1) with pl.
  cbn [payload].
  pose proof (bytesToUint16_range BIG_ENDIAN [e; f]) as HL.
  assert (Hpl : 2 + len pl = bytesToUint16 BIG_ENDIAN [e; f]).
  { unfold len in *. cbn [length] in Hbody. lia. }
  repeat split; try apply bytesToUint16_range.
  - rewrite Hb1, Hb2. unfold assembleMBAPFrame. cbn [payload unitId functionCode].
    rewrite Hpl. unfold uint16. rewrite Z.mod_small by lia.
    rewrite !uint16ToBytes_bytesToUint16. reflexivity.
  - lia.
Qed.

(** ** The decoder against the encoder *)

(** X1. Decoding then encoding: whenever [readMBAPFrame] returns a PDU and
    a transaction id, the bytes it took off the stream are exactly the
    frame [assembleMBAPFrame] builds from them, nothing more and nothing
    less; the id is a 16-bit value, the payload has at most 252 bytes, and
    nothing is logged. *)
Theorem readMBAPFrame_accepts_assembled_frames
  (tt tt' : tcpTransport) (p : pdu) (t : Z) :
  readMBAPFrame tt = (tt', Ok (p, t)) ->
  stream_bytes (rx (socket tt))
  = assembleMBAPFrame t p ++ stream_bytes (rx (socket tt'))
  /\ 0 <= t < 65536
  /\ len (payload p) <= 252
  /\ logger tt' = logger tt.
Proof.
  intros H. pose proof (readMBAPFrame_accounts tt) as HA.
  rewrite H in HA. exact HA.
Qed.

Lemma readMBAPFrame_accepts_assembled_frames_witness :
  stream_bytes [RxData [x00; x07; x00]; RxData [x00; x00; x03; x11; x03; xaa; xbb]]
  = assembleMBAPFrame 7 (mkPdu x11 x03 [xaa]) ++ stream_bytes [RxData [xbb]]
  /\ 0 <= 7 < 65536
  /\ len [xaa] <= 252
  /\ @nil warning = [].
Proof.
  apply (readMBAPFrame_accepts_assembled_frames
           (newTCPTransport
              (mkConn [RxData [x00; x07; x00];
                       RxData [x00; x00; x03; x11; x03; xaa; xbb]] [] [] []))
           (newTCPTransport (mkConn [RxData [xbb]] [] [] []))
           (mkPdu x11 x03 [xaa]) 7 eq_refl).
Defined.

(** X2. A frame rejected for its protocol identifier has been taken off the
    stream whole: the seven header bytes and the [length - 1] bytes the
    header announces (between 1 and 253), so that the next read starts at
    the next frame.  Its protocol identifier is not 0 and is the one thing
    logged. *)
Theorem readMBAPFrame_foreign_frame_consumed (tt tt' : tcpTransport) :
  readMBAPFrame tt = (tt', Err ErrUnknownProtocolId) ->
  exists hdr body,
    length hdr = 7%nat
    /\ len body = length_field hdr - 1
    /\ 0 < len body
    /\ mbapHeaderLength + len body <= maxTCPFrameLength
    /\ stream_bytes (rx (socket tt))
       = hdr ++ body ++ stream_bytes (rx (socket tt'))
    /\ bytesToUint16 BIG_ENDIAN (slice hdr 2 4) <> 0
    /\ logger tt'
       = logger tt
         ++ [UnexpectedProtocolId (bytesToUint16 BIG_ENDIAN (slice hdr 2 4))].
Proof.
  intros H. pose proof (readMBAPFrame_accounts tt) as HA.
  rewrite H in HA. exact HA.
Qed.

Lemma readMBAPFrame_foreign_frame_consumed_witness :
  exists hdr body,
    length hdr = 7%nat
    /\ len body = length_field hdr - 1
    /\ 0 < len body
    /\ mbapHeaderLength + len body <= maxTCPFrameLength
    /\ stream_bytes [RxData [x00; x05; x00; x01; x00; x02; x11; x03; xee]]
       = hdr ++ body ++ stream_bytes [RxData [xee]]
    /\ bytesToUint16 BIG_ENDIAN (slice hdr 2 4) <> 0
    /\ [UnexpectedProtocolId 1]
       = [] ++ [UnexpectedProtocolId (bytesToUint16 BIG_ENDIAN (slice hdr 2 4))].
Proof.
  apply (readMBAPFrame_foreign_frame_consumed
           (newTCPTransport
              (mkConn [RxData [x00; x05; x00; x01; x00; x02; x11; x03; xee]]
                 [] [] []))
           (mkTcpTransport [UnexpectedProtocolId 1]
              (mkConn [RxData [xee]] [] [] []) 0)
           eq_refl).
Defined.

(** X3. The protocol error is reported for an illegal length field and for
    nothing else, and the decoder has then taken the seven header bytes off
    the stream and not one byte more: whatever followed the header is still
    pending.  Nothing is logged. *)
Theorem readMBAPFrame_protocol_error_consumes_header (tt tt' : tcpTransport) :
  readMBAPFrame tt = (tt', Err ErrProtocol) ->
  exists hdr,
    length hdr = 7%nat
    /\ stream_bytes (rx (socket tt)) = hdr ++ stream_bytes (rx (socket tt'))
    /\ (length_field hdr - 1 <= 0
        \/ mbapHeaderLength + (length_field hdr - 1) > maxTCPFrameLength)
    /\ logger tt' = logger tt.
Proof.
  intros H. pose proof (readMBAPFrame_accounts tt) as HA.
  rewrite H in HA. exact HA.
Qed.

Lemma readMBAPFrame_protocol_error_consumes_header_witness :
  exists hdr,
    length hdr = 7%nat
    /\ stream_bytes [RxData [x00; x05; x00; x00; x00; x01; x11; x03; xee]]
       = hdr ++ stream_bytes [RxData [x03; xee]]
    /\ (length_field hdr - 1 <= 0
        \/ mbapHeaderLength + (length_field hdr - 1) > maxTCPFrameLength)
    /\ @nil warning = [].
Proof.
  apply (readMBAPFrame_protocol_error_consumes_header
           (newTCPTransport
              (mkConn [RxData [x00; x05; x00; x00; x00; x01; x11; x03; xee]]
                 [] [] []))
           (newTCPTransport (mkConn [RxData [x03; xee]] [] [] []))
           eq_refl).
Defined.

(** X4. A stream that delivers fewer than seven bytes before it stops gives
    an I/O error, never a protocol error, an unknown protocol identifier or
    a PDU. *)
Theorem readMBAPFrame_short_stream (tt : tcpTransport) :
  len (stream_bytes (rx (socket tt))) < mbapHeaderLength ->
  exists e, snd (readMBAPFrame tt) = Err (ErrIO e).
Proof.
  intros Hshort. pose proof (readMBAPFrame_accounts tt) as HA.
  unfold mbapHeaderLength in *.
  destruct (readMBAPFrame tt) as [tt' [[p t]|[| |e]]]; cbn [snd].
  - destruct HA as (Hb & _). exfalso. rewrite Hb, len_app in Hshort.
    rewrite assembleMBAPFrame_len in Hshort. unfold mbapHeaderLength in Hshort.
    pose proof (len_nonneg (payload p)).
    pose proof (len_nonneg (stream_bytes (rx (socket tt')))). lia.
  - destruct HA as (hdr & Hl & Hb & _). exfalso. rewrite Hb, len_app in Hshort.
    pose proof (len_nonneg (stream_bytes (rx (socket tt')))).
    unfold len in *. lia.
  - destruct HA as (hdr & body & Hl & _ & _ & _ & Hb & _). exfalso.
    rewrite Hb, !len_app in Hshort.
    pose proof (len_nonneg (stream_bytes (rx (socket tt')))).
    pose proof (len_nonneg body). unfold len in *. lia.
  - now exists e.
Qed.

Lemma readMBAPFrame_short_stream_witness :
  exists e,
    snd (readMBAPFrame
           (newTCPTransport
              (mkConn [RxData [x00; x01]; RxData [x00; x00; x00; x06]] [] [] [])))
    = Err (ErrIO e).
Proof.
  apply (readMBAPFrame_short_stream
           (newTCPTransport
              (mkConn [RxData [x00; x01]; RxData [x00; x00; x00; x06]] [] [] []))).
  vm_compute. reflexivity.
Defined.

(** X5. [readMBAPFrame] never reads more than the maximum frame length:
    whatever the stream holds and whichever way the call ends, it takes at
    most 260 bytes off the stream, from its front. *)
Theorem readMBAPFrame_reads_at_most_a_frame (tt : tcpTransport) :
  exists got,
    stream_bytes (rx (socket tt))
    = got ++ stream_bytes (rx (socket (fst (readMBAPFrame tt))))
    /\ len got <= maxTCPFrameLength.
Proof.
  pose proof (readMBAPFrame_accounts tt) as HA.
  unfold maxTCPFrameLength, mbapHeaderLength in *.
  destruct (readMBAPFrame tt) as [tt' [[p t]|[| |e]]]; cbn [fst].
  - destruct HA as (Hb & _ & Hp & _). exists (assembleMBAPFrame t p).
    split; [exact Hb|]. rewrite assembleMBAPFrame_len.
    unfold mbapHeaderLength. lia.
  - destruct HA as (hdr & Hl & Hb & _). exists hdr.
    split; [exact Hb|]. unfold len. lia.
  - destruct HA as (hdr & body & Hl & _ & _ & Hfit & Hb & _).
    exists (hdr ++ body). split; [rewrite Hb, app_assoc; reflexivity|].
    rewrite len_app. unfold len in *. lia.
  - destruct HA as (got & Hb & Hlt & _). exists got. split; [exact Hb|lia].
Qed.

(** X7. The encoder never gives two different messages the same bytes:
    equal frames come from equal transaction ids and equal PDUs. *)
Theorem assembleMBAPFrame_injective (t t' : Z) (p p' : pdu) :
  0 <= t < 65536 ->
  0 <= t' < 65536 ->
  assembleMBAPFrame t p = assembleMBAPFrame t' p' ->
  t = t' /\ p = p'.
Proof.
  intros Ht Ht' H.
  pose proof (bytesToUint16_txnId t p Ht) as E.
  pose proof (bytesToUint16_txnId t' p' Ht') as E'.
  rewrite H in E. split; [congruence|].
  unfold assembleMBAPFrame in H. cbn [uint16ToBytes app] in H.
  injection H as _ _ _ _ Hu Hf Hp.
  destruct p, p'. cbn [unitId functionCode payload] in *. congruence.
Qed.

Lemma assembleMBAPFrame_injective_witness :
  5 = 5 /\ mkPdu x11 x03 [xaa] = mkPdu x11 x03 [xaa].
Proof.
  apply (assembleMBAPFrame_injective 5 5 (mkPdu x11 x03 [xaa]) (mkPdu x11 x03 [xaa]));
    [lia|lia|reflexivity].
Defined.

(** ** What the matching loop logs *)

Lemma discards_logs (T : Z) (tt tt1 : tcpTransport) :
  discards T tt tt1 ->
  exists w, logger tt1 = logger tt ++ [w] /\ reports_discard T w.
Proof.
  intros [a b H|a b p t H Hne]; pose proof (readMBAPFrame_accounts a) as HA;
    rewrite H in HA.
  - destruct HA as (hdr & body & _ & _ & _ & _ & _ & Hproto & Hlog).
    eexists. split; [exact Hlog|exact Hproto].
  - destruct HA as (_ & _ & _ & Hlog).
    exists (UnexpectedTxnId T t). cbn [Warningf logger]. rewrite Hlog.
    split; [reflexivity|]. split; [reflexivity|exact Hne].
Qed.

Lemma skips_logs (T : Z) (n : nat) (tt tt0 : tcpTransport) :
  skips T n tt tt0 ->
  exists ws,
    logger tt0 = logger tt ++ ws /\ length ws = n /\ Forall (reports_discard T) ws.
Proof.
  induction 1 as [a|n a b c Hd Hs (ws & Hlog & Hlen & Hall)].
  - exists []. rewrite app_nil_r. repeat split. constructor.
  - destruct (discards_logs T a b Hd) as (w & Hw & Hrep).
    exists (w :: ws). rewrite Hlog, Hw, <- app_assoc.
    repeat split; [cbn; lia|]. constructor; assumption.
Qed.

(** X6. The matching loop logs each frame it discards exactly once, and
    nothing else: when it returns, the log has grown by as many warnings as
    frames were discarded, each reporting a protocol identifier other than
    0 or a transaction id other than the awaited one against the awaited
    one; the frame that ends the loop is not logged. *)
Theorem readResponse_logs_each_discarded_frame
  (fuel : nat) (tt tt' : tcpTransport) (res : result pdu) :
  readResponse fuel tt = (tt', Some res) ->
  exists n tt0 ws,
    (n < fuel)%nat
    /\ skips (lastTxnId tt) n tt tt0
    /\ ends (lastTxnId tt) tt0 tt' res
    /\ logger tt' = logger tt ++ ws
    /\ length ws = n
    /\ Forall (reports_discard (lastTxnId tt)) ws.
Proof.
  intros H. apply readResponse_stops in H as (n & tt0 & Hn & Hs & He).
  destruct (skips_logs _ _ _ _ Hs) as (ws & Hlog & Hlen & Hall).
  exists n, tt0, ws. repeat (split; [assumption|]).
  split; [|split; assumption].
  rewrite <- Hlog. pose proof (readMBAPFrame_accounts tt0) as HA.
  destruct res as [p|e]; cbn [ends] in He.
  - rewrite He in HA. apply HA.
  - destruct He as [He Hne]. rewrite He in HA.
    destruct e as [| |e]; [|contradiction|].
    + destruct HA as (hdr & _ & _ & _ & Hl). exact Hl.
    + destruct HA as (got & _ & _ & Hl). exact Hl.
Qed.

Lemma readResponse_logs_each_discarded_frame_witness :
  exists n tt0 ws,
    (n < 3)%nat
    /\ skips 1 n
         (mkTcpTransport []
            (mkConn [RxData [x00; x01; x12; x34; x00; x02; x11; x03;
                             x00; x02; x00; x00; x00; x02; x11; x03;
                             x00; x01; x00; x00; x00; x02; x11; x03]] [] [] []) 1)
         tt0
    /\ ends 1 tt0
         (mkTcpTransport [UnexpectedProtocolId 4660; UnexpectedTxnId 1 2]
            (mkConn [] [] [] []) 1)
         (Ok (mkPdu x11 x03 []))
    /\ [UnexpectedProtocolId 4660; UnexpectedTxnId 1 2] = [] ++ ws
    /\ length ws = n
    /\ Forall (reports_discard 1) ws.
Proof.
  apply (readResponse_logs_each_discarded_frame 3
           (mkTcpTransport []
              (mkConn [RxData [x00; x01; x12; x34; x00; x02; x11; x03;
                               x00; x02; x00; x00; x00; x02; x11; x03;
                               x00; x01; x00; x00; x00; x02; x11; x03]] [] [] []) 1)
           (mkTcpTransport [UnexpectedProtocolId 4660; UnexpectedTxnId 1 2]
              (mkConn [] [] [] []) 1)
           (Ok (mkPdu x11 x03 [])) eq_refl).
Defined.

(** ** Requests and responses across the wire *)

Lemma stream_bytes_data (cs : list (list byte)) (rest : list rx_event) :
  stream_bytes (map RxData cs ++ rest) = concat cs ++ stream_bytes rest.
Proof.
  induction cs as [|c cs IH]; cbn [map app stream_bytes concat].
  - reflexivity.
  - rewrite IH, app_assoc. reflexivity.
Qed.

(** A frame built by the encoder, arriving on the stream, decodes. *)
Lemma readMBAPFrame_of_frame
  (tt : tcpTransport) (t : Z) (p : pdu)
  (cs : list (list byte)) (more : list byte) (rest : list rx_event) :
  0 <= t < 65536 ->
  len (payload p) <= 252 ->
  rx (socket tt) = map RxData cs ++ rest ->
  concat cs = assembleMBAPFrame t p ++ more ->
  exists cs',
    readMBAPFrame tt
    = (mkTcpTransport (logger tt)
         (mkConn (map RxData cs' ++ rest)
            (wr (socket tt)) (dl (socket tt)) (written (socket tt)))
         (lastTxnId tt),
       Ok (p, t))
    /\ concat cs' = more.
Proof.
  intros Ht Hp Hrx Hcat. pose proof (len_nonneg (payload p)) as Hp0.
  rewrite assembleMBAPFrame_split, <- app_assoc in Hcat.
  destruct (ReadFull_data cs (socket tt) (make mbapHeaderLength)
              (frame_header t p) (frame_body p ++ more) rest Hrx Hcat)
    as (cs1 & Hhdr & Hcat1); [reflexivity|].
  destruct (frame_header_fields t p Ht) as (Htxn & Hproto & Hlen & Hunit).
  assert (Hneeded : uint16 (2 + len (payload p)) - 1 = 1 + len (payload p))
    by (unfold uint16; rewrite Z.mod_small by lia; lia).
  set (s1 := mkConn (map RxData cs1 ++ rest)
               (wr (socket tt)) (dl (socket tt)) (written (socket tt))) in *.
  destruct (ReadFull_data cs1 s1 (make (1 + len (payload p)))
              (frame_body p) more rest eq_refl Hcat1)
    as (cs2 & Hbody & Hcat2).
  { rewrite make_length. unfold frame_body, len. cbn [length]. lia. }
  exists cs2. split; [|exact Hcat2].
  unfold readMBAPFrame. rewrite Hhdr, Htxn, Hproto, Hlen, Hunit, Hneeded.
  unfold mbapHeaderLength, maxTCPFrameLength.
  destruct (Z.gtb_spec (1 + len (payload p) + 7) 260) as [Hgt|_]; [lia|].
  destruct (Z.leb_spec (1 + len (payload p)) 0) as [Hle|_]; [lia|].
  cbn [with_socket socket]. rewrite Hbody.
  cbn [Z.eqb negb with_socket logger lastTxnId socket s1 wr dl written].
  change (index (frame_body p) 0) with (functionCode p).
  change (slice_from (frame_body p) 1) with (payload p).
  destruct p; reflexivity.
Qed.

(** A frame of a foreign protocol, arriving on the stream, is rejected for
    its protocol identifier once it has been read whole. *)
Lemma readMBAPFrame_of_foreign
  (tt : tcpTransport) (t protocolId : Z) (u : byte) (body : list byte)
  (cs : list (list byte)) (more : list byte) (rest : list rx_event) :
  0 < protocolId < 65536 ->
  1 <= len body <= 253 ->
  rx (socket tt) = map RxData cs ++ rest ->
  concat cs = noise_bytes (Foreign t protocolId u body) ++ more ->
  exists cs',
    readMBAPFrame tt
    = (mkTcpTransport (logger tt ++ [UnexpectedProtocolId protocolId])
         (mkConn (map RxData cs' ++ rest)
            (wr (socket tt)) (dl (socket tt)) (written (socket tt)))
         (lastTxnId tt),
       Err ErrUnknownProtocolId)
    /\ concat cs' = more.
Proof.
  intros Hproto Hbody Hrx Hcat.
  cbn [noise_bytes uint16ToBytes app] in Hcat.
  set (hdr := [byte_of_Z (Z.shiftr t 8); byte_of_Z t;
               byte_of_Z (Z.shiftr protocolId 8); byte_of_Z protocolId;
               byte_of_Z (Z.shiftr (1 + len body) 8); byte_of_Z (1 + len body);
               u]) in *.
  change (concat cs = hdr ++ body ++ more) in Hcat.
  destruct (ReadFull_data cs (socket tt) (make mbapHeaderLength)
              hdr (body ++ more) rest Hrx Hcat)
    as (cs1 & Hhdr & Hcat1); [reflexivity|].
  pose proof (bytesToUint16_uint16ToBytes protocolId ltac:(lia)) as Hp.
  pose proof (bytesToUint16_uint16ToBytes (1 + len body) ltac:(lia)) as Hl.
  cbn [uint16ToBytes] in Hp, Hl.
  set (s1 := mkConn (map RxData cs1 ++ rest)
               (wr (socket tt)) (dl (socket tt)) (written (socket tt))) in *.
  destruct (ReadFull_data cs1 s1 (make (len body)) body more rest eq_refl Hcat1)
    as (cs2 & Hrd & Hcat2).
  { rewrite make_length. unfold len. lia. }
  exists cs2. split; [|exact Hcat2].
  unfold readMBAPFrame. rewrite Hhdr.
  change (slice hdr 2 4)
    with [byte_of_Z (Z.shiftr protocolId 8); byte_of_Z protocolId].
  change (slice hdr 4 6)
    with [byte_of_Z (Z.shiftr (1 + len body) 8); byte_of_Z (1 + len body)].
  rewrite Hp, Hl. replace (1 + len body - 1) with (len body) by lia.
  unfold mbapHeaderLength, maxTCPFrameLength.
  destruct (Z.gtb_spec (len body + 7) 260) as [Hgt|_]; [lia|].
  destruct (Z.leb_spec (len body) 0) as [Hle|_]; [lia|].
  cbn [with_socket socket]. rewrite Hrd.
  destruct (Z.eqb_spec protocolId 0) as [E|_]; [lia|]. reflexivity.
Qed.

(** The loop reads past any number of discardable frames, logging each. *)
Lemma readResponse_past_noise (rest : list rx_event) (frames : list noise) :
  forall fuel tt cs tail,
    Forall (discardable (lastTxnId tt)) frames ->
    rx (socket tt) = map RxData cs ++ rest ->
    concat cs = concat (map noise_bytes frames) ++ tail ->
    exists cs',
      readResponse (length frames + fuel) tt
      = readResponse fuel
          (mkTcpTransport
             (logger tt ++ map (noise_warning (lastTxnId tt)) frames)
             (mkConn (map RxData cs' ++ rest)
                (wr (socket tt)) (dl (socket tt)) (written (socket tt)))
             (lastTxnId tt))
      /\ concat cs' = tail.
Proof.
  induction frames as [|f frames IH]; intros fuel tt cs tail Hall Hrx Hcat.
  - cbn [map concat app length Nat.add] in *. exists cs. split; [|exact Hcat].
    rewrite app_nil_r, <- Hrx. destruct tt as [l c t], c; reflexivity.
  - inversion Hall as [|? ? Hf Hall']; subst.
    cbn [map concat] in Hcat. rewrite <- app_assoc in Hcat.
    cbn [length Nat.add readResponse].
    destruct f as [t p|t pid u body]; cbn [discardable] in Hf.
    + (* another transaction id *)
      destruct Hf as (Ht & Hne & Hp).
      destruct (readMBAPFrame_of_frame tt t p cs _ rest Ht Hp Hrx Hcat)
        as (cs1 & Hread & Hcat1).
      rewrite Hread. cbn [lastTxnId].
      destruct (Z.eqb_spec (lastTxnId tt) t) as [E|_]; [congruence|]. cbn [negb].
      match goal with
      | |- context [readResponse (length frames + fuel) ?t1] =>
          destruct (IH fuel t1 cs1 tail) as (cs' & Hloop & Hmore)
      end; cbn [Warningf lastTxnId socket rx logger wr dl written];
        try assumption; try reflexivity.
      exists cs'. split; [|exact Hmore]. rewrite Hloop.
      cbn [Warningf lastTxnId socket rx logger wr dl written map noise_warning].
      rewrite <- app_assoc. reflexivity.
    + (* a foreign protocol *)
      destruct Hf as (Hpid & Hbody).
      destruct (readMBAPFrame_of_foreign tt t pid u body cs _ rest
                  Hpid Hbody Hrx Hcat) as (cs1 & Hread & Hcat1).
      rewrite Hread. cbn [is_ErrUnknownProtocolId].
      match goal with
      | |- context [readResponse (length frames + fuel) ?t1] =>
          destruct (IH fuel t1 cs1 tail) as (cs' & Hloop & Hmore)
      end; cbn [lastTxnId socket rx logger wr dl written];
        try assumption; try reflexivity.
      exists cs'. split; [|exact Hmore]. rewrite Hloop.
      cbn [lastTxnId socket rx logger wr dl written map noise_warning].
      rewrite <- app_assoc. reflexivity.
Qed.

(** After a successful [SetDeadline] and [Write], the call is the matching
    loop on the same input, with the counter advanced. *)
Lemma ExecuteRequest_sent
  (fuel : nat) (tt : tcpTransport) (req : pdu) (s s' : Conn) (n : Z) :
  let T := uint16 (lastTxnId tt + 1) in
  Conn_SetDeadline (socket tt) = (s, None) ->
  Conn_Write s (assembleMBAPFrame T req) = (s', n, None) ->
  ExecuteRequest fuel tt req
  = readResponse fuel (mkTcpTransport (logger tt) s' T)
  /\ rx s' = rx (socket tt)
  /\ written s' = written (socket tt) ++ [assembleMBAPFrame T req].
Proof.
  intros T Hdl Hwr. split; [|split].
  - unfold ExecuteRequest. rewrite Hdl.
    cbn [with_socket with_lastTxnId socket lastTxnId logger]. fold T.
    rewrite Hwr. reflexivity.
  - unfold Conn_SetDeadline in Hdl. destruct (next_outcome (dl (socket tt))).
    injection Hdl as <- _.
    unfold Conn_Write in Hwr. cbn [wr rx dl written] in Hwr.
    destruct (next_outcome (wr (socket tt))). injection Hwr as <- _ _.
    reflexivity.
  - pose proof (Conn_Write_written s (assembleMBAPFrame T req)) as HW.
    rewrite Hwr in HW. cbn [fst] in HW. rewrite HW.
    pose proof (Conn_SetDeadline_fields (socket tt)) as (_ & _ & H).
    rewrite Hdl in H. cbn [fst] in H. rewrite H. reflexivity.
Qed.

(** X8. A request is answered through any amount of noise: when the
    deadline is set and the frame written, and the stream then delivers
    any number of frames with other transaction ids or of foreign
    protocols, followed by the response assembled with the id just sent,
    [ExecuteRequest] returns that response (given a turn of the loop for
    each frame), has logged one warning per discarded frame in their
    order, and leaves what followed the response pending. *)
Theorem ExecuteRequest_returns_matching_response
  (fuel : nat) (tt : tcpTransport) (req res : pdu) (s s' : Conn) (n : Z)
  (frames : list noise) (cs : list (list byte)) (more : list byte)
  (rest : list rx_event) :
  let T := uint16 (lastTxnId tt + 1) in
  Conn_SetDeadline (socket tt) = (s, None) ->
  Conn_Write s (assembleMBAPFrame T req) = (s', n, None) ->
  Forall (discardable T) frames ->
  len (payload res) <= 252 ->
  rx (socket tt) = map RxData cs ++ rest ->
  concat cs
  = concat (map noise_bytes frames) ++ assembleMBAPFrame T res ++ more ->
  (length frames < fuel)%nat ->
  exists tt',
    ExecuteRequest fuel tt req = (tt', Some (Ok res))
    /\ lastTxnId tt' = T
    /\ logger tt' = logger tt ++ map (noise_warning T) frames
    /\ stream_bytes (rx (socket tt')) = more ++ stream_bytes rest
    /\ written (socket tt') = written (socket tt) ++ [assembleMBAPFrame T req].
Proof.
  intros T Hdl Hwr Hall Hres Hrx Hcat Hfuel.
  assert (HT : 0 <= T < 65536) by (apply Z.mod_pos_bound; lia).
  destruct (ExecuteRequest_sent fuel tt req s s' n Hdl Hwr) as (HE & Hrx' & Hw').
  fold T in HE, Hw'. rewrite HE.
  replace fuel with (length frames + S (fuel - S (length frames)))%nat by lia.
  destruct (readResponse_past_noise rest frames (S (fuel - S (length frames)))
              (mkTcpTransport (logger tt) s' T) cs
              (assembleMBAPFrame T res ++ more))
    as (cs1 & Hloop & Hcat1); cbn [lastTxnId socket logger]; try assumption.
  { rewrite Hrx'. exact Hrx. }
  rewrite Hloop. cbn [lastTxnId socket logger readResponse].
  match goal with
  | |- context [readMBAPFrame ?t1] =>
      destruct (readMBAPFrame_of_frame t1 T res cs1 more rest HT Hres eq_refl Hcat1)
        as (cs2 & Hread & Hmore)
  end.
  rewrite Hread. cbn [lastTxnId socket logger wr dl written].
  rewrite Z.eqb_refl. cbn [negb].
  eexists. split; [reflexivity|].
  cbn [lastTxnId logger socket rx written].
  rewrite stream_bytes_data, Hmore, Hw'. repeat split.
Qed.

Lemma ExecuteRequest_returns_matching_response_witness :
  let frames := [Stale 9 (mkPdu x11 x03 [x01]);
                 Foreign 1 4660 x11 [x03; x00];
                 Stale 4 (mkPdu x12 x04 [])] in
  let res := mkPdu x11 x03 [x02; xab; xcd] in
  let req := mkPdu x11 x03 [x00; x6b; x00; x01] in
  let c := mkConn
             [RxData (concat (map noise_bytes frames) ++ assembleMBAPFrame 1 res)]
             [] [] [] in
  exists tt',
    ExecuteRequest 4 (newTCPTransport c) req = (tt', Some (Ok res))
    /\ lastTxnId tt' = 1
    /\ logger tt'
       = [] ++ [UnexpectedTxnId 1 9; UnexpectedProtocolId 4660; UnexpectedTxnId 1 4]
    /\ stream_bytes (rx (socket tt')) = [] ++ []
    /\ written (socket tt') = [] ++ [assembleMBAPFrame 1 req].
Proof.
  intros frames res req c.
  apply (ExecuteRequest_returns_matching_response 4 (newTCPTransport c) req res
           c (mkConn (rx c) [] [] [assembleMBAPFrame 1 req])
           (len (assembleMBAPFrame 1 req)) frames
           [concat (map noise_bytes frames) ++ assembleMBAPFrame 1 res] [] []).
  - reflexivity.
  - reflexivity.
  - repeat constructor; cbn; lia || discriminate.
  - cbn. lia.
  - reflexivity.
  - cbn [concat]. rewrite !app_nil_r. reflexivity.
  - cbn. lia.
Defined.

(** X17. A request that is never answered ends in an I/O error: when the
    deadline is set and the frame written, and the stream delivers only
    frames with other transaction ids or of foreign protocols and then
    fewer than seven bytes before it stops, [ExecuteRequest] returns an
    I/O error (given a turn of the loop for each frame), never a PDU, and
    has logged one warning per discarded frame in their order. *)
Theorem ExecuteRequest_unanswered
  (fuel : nat) (tt : tcpTransport) (req : pdu) (s s' : Conn) (n : Z)
  (frames : list noise) (cs : list (list byte)) (tail : list byte)
  (rest : list rx_event) :
  let T := uint16 (lastTxnId tt + 1) in
  Conn_SetDeadline (socket tt) = (s, None) ->
  Conn_Write s (assembleMBAPFrame T req) = (s', n, None) ->
  Forall (discardable T) frames ->
  rx (socket tt) = map RxData cs ++ rest ->
  concat cs = concat (map noise_bytes frames) ++ tail ->
  len (tail ++ stream_bytes rest) < mbapHeaderLength ->
  (length frames < fuel)%nat ->
  exists tt' e,
    ExecuteRequest fuel tt req = (tt', Some (Err (ErrIO e)))
    /\ lastTxnId tt' = T
    /\ logger tt' = logger tt ++ map (noise_warning T) frames.
Proof.
  intros T Hdl Hwr Hall Hrx Hcat Hshort Hfuel.
  destruct (ExecuteRequest_sent fuel tt req s s' n Hdl Hwr) as (HE & Hrx' & _).
  fold T in HE. rewrite HE.
  replace fuel with (length frames + S (fuel - S (length frames)))%nat by lia.
  destruct (readResponse_past_noise rest frames (S (fuel - S (length frames)))
              (mkTcpTransport (logger tt) s' T) cs tail)
    as (cs1 & Hloop & Hcat1); cbn [lastTxnId socket logger]; try assumption.
  { rewrite Hrx'. exact Hrx. }
  rewrite Hloop. cbn [lastTxnId socket logger readResponse].
  match goal with
  | |- context [readMBAPFrame ?t1] =>
      pose proof (readMBAPFrame_accounts t1) as HA;
      pose proof (readMBAPFrame_lastTxnId t1) as HT;
      destruct (readMBAPFrame t1) as [tt1 r]
  end.
  cbn [socket rx logger lastTxnId fst] in HA, HT.
  rewrite stream_bytes_data, Hcat1 in HA.
  unfold mbapHeaderLength in Hshort.
  destruct r as [[p t]|[| |e]].
  - exfalso. destruct HA as (Hb & _). rewrite Hb, len_app in Hshort.
    rewrite assembleMBAPFrame_len in Hshort. unfold mbapHeaderLength in Hshort.
    pose proof (len_nonneg (payload p)).
    pose proof (len_nonneg (stream_bytes (rx (socket tt1)))). lia.
  - exfalso. destruct HA as (hdr & Hl & Hb & _). rewrite Hb, len_app in Hshort.
    pose proof (len_nonneg (stream_bytes (rx (socket tt1)))).
    unfold len in *. lia.
  - exfalso. destruct HA as (hdr & body & Hl & _ & _ & _ & Hb & _).
    rewrite Hb, !len_app in Hshort.
    pose proof (len_nonneg (stream_bytes (rx (socket tt1)))).
    pose proof (len_nonneg body). unfold len in *. lia.
  - destruct HA as (_ & _ & _ & Hlog). cbn [is_ErrUnknownProtocolId].
    exists tt1, e. repeat split; assumption.
Qed.

Lemma ExecuteRequest_unanswered_witness :
  let frames := [Stale 9 (mkPdu x11 x03 [x01]); Foreign 1 4660 x11 [x03; x00]] in
  let req := mkPdu x11 x03 [x00; x6b; x00; x01] in
  let c := mkConn [RxData (concat (map noise_bytes frames) ++ [x00; x01])]
             [] [] [] in
  exists tt' e,
    ExecuteRequest 3 (newTCPTransport c) req = (tt', Some (Err (ErrIO e)))
    /\ lastTxnId tt' = 1
    /\ logger tt' = [] ++ [UnexpectedTxnId 1 9; UnexpectedProtocolId 4660].
Proof.
  intros frames req c.
  apply (ExecuteRequest_unanswered 3 (newTCPTransport c) req
           c (mkConn (rx c) [] [] [assembleMBAPFrame 1 req])
           (len (assembleMBAPFrame 1 req)) frames
           [concat (map noise_bytes frames) ++ [x00; x01]] [x00; x01] []).
  - reflexivity.
  - reflexivity.
  - repeat constructor; cbn; lia || discriminate.
  - reflexivity.
  - cbn [concat]. rewrite !app_nil_r. reflexivity.
  - cbn. unfold mbapHeaderLength. lia.
  - cbn. lia.
Defined.

(** X10. The server answers with the id of the request: when the stream
    delivers a frame assembled with transaction id [t], [ReadRequest]
    returns its PDU and logs nothing, what followed the frame stays
    pending, and the frame a following [WriteResponse] hands to the socket
    is the response assembled with that same [t]. *)
Theorem ReadRequest_then_WriteResponse_echoes_id
  (tt : tcpTransport) (s : Conn) (t : Z) (req : pdu)
  (cs : list (list byte)) (more : list byte) (rest : list rx_event) :
  Conn_SetDeadline (socket tt) = (s, None) ->
  0 <= t < 65536 ->
  len (payload req) <= 252 ->
  rx (socket tt) = map RxData cs ++ rest ->
  concat cs = assembleMBAPFrame t req ++ more ->
  exists tt1,
    ReadRequest tt = (tt1, Ok req)
    /\ lastTxnId tt1 = t
    /\ logger tt1 = logger tt
    /\ stream_bytes (rx (socket tt1)) = more ++ stream_bytes rest
    /\ forall res,
         written (socket (fst (WriteResponse tt1 res)))
         = written (socket tt) ++ [assembleMBAPFrame t res].
Proof.
  intros Hdl Ht Hp Hrx Hcat.
  pose proof (Conn_SetDeadline_fields (socket tt)) as (Hrxs & _ & Hws).
  rewrite Hdl in Hrxs, Hws. cbn [fst] in Hrxs, Hws.
  destruct (readMBAPFrame_of_frame (with_socket tt s) t req cs more rest
              Ht Hp) as (cs' & Hread & Hmore).
  { cbn [with_socket socket]. rewrite Hrxs. exact Hrx. }
  { exact Hcat. }
  unfold ReadRequest. rewrite Hdl, Hread.
  eexists. split; [reflexivity|].
  cbn [with_lastTxnId with_socket lastTxnId logger socket rx written].
  rewrite stream_bytes_data, Hmore. repeat split.
  intros res. unfold WriteResponse. cbn [socket lastTxnId].
  match goal with
  | |- context [Conn_Write ?c ?b] =>
      pose proof (Conn_Write_written c b) as HW;
      destruct (Conn_Write c b) as [[c' k] err]
  end.
  cbn [fst with_socket socket written] in *. rewrite HW, Hws. reflexivity.
Qed.

Lemma ReadRequest_then_WriteResponse_echoes_id_witness :
  let req := mkPdu x11 x03 [x00; x6b; x00; x01] in
  let c := mkConn [RxData (assembleMBAPFrame 513 req)] [] [] [] in
  exists tt1,
    ReadRequest (newTCPTransport c) = (tt1, Ok req)
    /\ lastTxnId tt1 = 513
    /\ logger tt1 = []
    /\ stream_bytes (rx (socket tt1)) = [] ++ []
    /\ forall res,
         written (socket (fst (WriteResponse tt1 res)))
         = [] ++ [assembleMBAPFrame 513 res].
Proof.
  intros req c.
  apply (ReadRequest_then_WriteResponse_echoes_id (newTCPTransport c) c 513 req
           [assembleMBAPFrame 513 req] [] []).
  - reflexivity.
  - lia.
  - cbn. lia.
  - reflexivity.
  - cbn [concat]. rewrite !app_nil_r. reflexivity.
Defined.

(** ** A sequence of requests *)

Lemma ExecuteRequest_dl (fuel : nat) (tt : tcpTransport) (req : pdu) :
  dl (socket (fst (ExecuteRequest fuel tt req)))
  = snd (next_outcome (dl (socket tt))).
Proof.
  unfold ExecuteRequest, Conn_SetDeadline.
  destruct (next_outcome (dl (socket tt))) as [[e|] dl']; [reflexivity|].
  cbn [with_socket with_lastTxnId socket lastTxnId logger snd].
  unfold Conn_Write. cbn [wr rx dl written].
  destruct (next_outcome (wr (socket tt))) as [[e|] wr']; [reflexivity|].
  match goal with
  | |- context [readResponse fuel ?t] =>
      destruct (readResponse_frame fuel t) as (_ & _ & HD & _)
  end.
  exact HD.
Qed.

Lemma uint16_succ (a k : Z) : uint16 (uint16 (a + 1) + k) = uint16 (a + 1 + k).
Proof. unfold uint16. apply Z.add_mod_idemp_l. lia. Qed.

Lemma uint16_injective_within (a b : Z) :
  Z.abs (a - b) < 65536 -> uint16 a = uint16 b -> a = b.
Proof.
  unfold uint16. intros Hab H.
  pose proof (Z.div_mod a 65536 ltac:(lia)) as Ha.
  pose proof (Z.div_mod b 65536 ltac:(lia)) as Hb.
  lia.
Qed.

(** X9. On a socket whose deadline can always be set, the requests a
    caller issues one after the other carry successive transaction ids,
    whatever each call returns: the request of rank [k] (from 0) goes out
    with id [(lastTxnId + k + 1) mod 65536], the counter ends at
    [(lastTxnId + number of requests) mod 65536], and no two requests fewer
    than 65536 ranks apart carry the same id. *)
Theorem run_requests_successive_ids (fuel : nat) (reqs : list pdu) :
  forall tt,
    Forall (fun o => o = None) (dl (socket tt)) ->
    0 <= lastTxnId tt < 65536 ->
    lastTxnId (run_requests fuel tt reqs) = uint16 (lastTxnId tt + len reqs)
    /\ (exists frames,
          written (socket (run_requests fuel tt reqs))
          = written (socket tt) ++ frames
          /\ length frames = length reqs
          /\ forall k req,
               nth_error reqs k = Some req ->
               nth_error frames k
               = Some (assembleMBAPFrame
                         (uint16 (lastTxnId tt + Z.of_nat k + 1)) req))
    /\ (forall j k,
          Z.abs (Z.of_nat j - Z.of_nat k) < 65536 ->
          uint16 (lastTxnId tt + Z.of_nat j + 1)
          = uint16 (lastTxnId tt + Z.of_nat k + 1) ->
          j = k).
Proof.
  induction reqs as [|req reqs IH]; intros tt Hdl HT.
  - cbn [run_requests]. split; [|split].
    + unfold len, uint16. cbn [length]. rewrite Z.add_0_r, Z.mod_small; lia.
    + exists []. rewrite app_nil_r. repeat split.
      intros [|k] r H; discriminate.
    + intros j k Hjk H. apply uint16_injective_within in H; lia.
  - cbn [run_requests].
    assert (Hnext : exists s, Conn_SetDeadline (socket tt) = (s, None)).
    { unfold Conn_SetDeadline. destruct (dl (socket tt)) as [|o l];
        cbn [next_outcome]; [eexists; reflexivity|].
      inversion Hdl as [|? ? Ho _]; subst. eexists. reflexivity. }
    destruct Hnext as [s Hs].
    destruct (ExecuteRequest_after_deadline fuel tt req s Hs) as [H1 H2].
    pose proof (ExecuteRequest_dl fuel tt req) as H3.
    set (tt1 := fst (ExecuteRequest fuel tt req)) in *.
    destruct (IH tt1) as (HL & (frames & HW & Hlen & Hnth) & _).
    { rewrite H3. destruct (dl (socket tt)) as [|o l]; cbn [next_outcome snd].
      - constructor.
      - now inversion Hdl. }
    { rewrite H1. apply Z.mod_pos_bound. lia. }
    split; [|split].
    + rewrite HL, H1, uint16_succ. f_equal. unfold len. cbn [length]. lia.
    + exists (assembleMBAPFrame (uint16 (lastTxnId tt + 1)) req :: frames).
      split; [rewrite HW, H2, <- app_assoc; reflexivity|].
      split; [cbn [length]; lia|].
      intros [|k] r Hr; cbn [nth_error] in *.
      * injection Hr as <-. do 3 f_equal. lia.
      * rewrite (Hnth k r Hr), H1.
        replace (uint16 (lastTxnId tt + 1) + Z.of_nat k + 1)
          with (uint16 (lastTxnId tt + 1) + (Z.of_nat k + 1)) by lia.
        rewrite uint16_succ. do 3 f_equal. lia.
    + intros j k Hjk H. apply uint16_injective_within in H; lia.
Qed.

Lemma run_requests_successive_ids_witness :
  let req := mkPdu x11 x03 [x00; x6b; x00; x01] in
  let tt := mkTcpTransport [] (mkConn [] [Some ErrClosed] [None] []) 65534 in
  lastTxnId (run_requests 2 tt [req; req; req]) = uint16 (65534 + 3).
Proof.
  intros req tt.
  apply (run_requests_successive_ids 2 [req; req; req] tt).
  - repeat constructor.
  - cbn. lia.
Defined.

(** ** What a call does to the socket besides *)

(** X13. [ExecuteRequest] hands the socket at most one frame per call, and
    exactly when it has advanced the counter: however many frames it reads
    and discards while waiting, and however the call ends, either nothing
    was written and the counter is unchanged, or the one request frame
    assembled with the advanced counter was written. *)
Theorem ExecuteRequest_writes_at_most_once
  (fuel : nat) (tt : tcpTransport) (req : pdu) :
  let tt' := fst (ExecuteRequest fuel tt req) in
  (written (socket tt') = written (socket tt)
   /\ lastTxnId tt' = lastTxnId tt)
  \/ (written (socket tt')
      = written (socket tt)
        ++ [assembleMBAPFrame (uint16 (lastTxnId tt + 1)) req]
      /\ lastTxnId tt' = uint16 (lastTxnId tt + 1)).
Proof.
  intros tt'. destruct (Conn_SetDeadline (socket tt)) as [s [e|]] eqn:Hdl.
  - left. destruct (ExecuteRequest_deadline_failure fuel tt req s e Hdl)
      as (_ & HT & HW). split; assumption.
  - right. destruct (ExecuteRequest_after_deadline fuel tt req s Hdl) as [HT HW].
    split; assumption.
Qed.

(** X14. A request that cannot be sent reads nothing.  When the deadline
    cannot be set, [ExecuteRequest] returns that error with the socket's
    input, its write script and the counter untouched.  When the write
    fails, it returns that error with the input untouched; the counter has
    been advanced all the same. *)
Theorem ExecuteRequest_failed_send_reads_nothing
  (fuel : nat) (tt : tcpTransport) (req : pdu) (e : io_error) :
  (fst (next_outcome (dl (socket tt))) = Some e ->
   snd (ExecuteRequest fuel tt req) = Some (Err (ErrIO e))
   /\ rx (socket (fst (ExecuteRequest fuel tt req))) = rx (socket tt)
   /\ wr (socket (fst (ExecuteRequest fuel tt req))) = wr (socket tt)
   /\ lastTxnId (fst (ExecuteRequest fuel tt req)) = lastTxnId tt)
  /\ (fst (next_outcome (dl (socket tt))) = None ->
      fst (next_outcome (wr (socket tt))) = Some e ->
      snd (ExecuteRequest fuel tt req) = Some (Err (ErrIO e))
      /\ rx (socket (fst (ExecuteRequest fuel tt req))) = rx (socket tt)
      /\ lastTxnId (fst (ExecuteRequest fuel tt req))
         = uint16 (lastTxnId tt + 1)).
Proof.
  unfold ExecuteRequest, Conn_SetDeadline.
  destruct (next_outcome (dl (socket tt))) as [o dl'] eqn:Hdl. cbn [fst].
  split.
  - intros ->. repeat split.
  - intros ->. cbn [with_socket with_lastTxnId socket lastTxnId logger].
    unfold Conn_Write. cbn [wr rx dl written].
    destruct (next_outcome (wr (socket tt))) as [o wr'] eqn:Hwr. cbn [fst].
    intros ->. repeat split.
Qed.

Lemma ExecuteRequest_failed_send_reads_nothing_witness :
  let req := mkPdu x11 x03 [x00; x6b; x00; x01] in
  let tt := mkTcpTransport [] (mkConn [RxData [x00; x01]] [Some ErrClosed] [] []) 4 in
  snd (ExecuteRequest 5 tt req) = Some (Err (ErrIO ErrClosed))
  /\ rx (socket (fst (ExecuteRequest 5 tt req))) = rx (socket tt)
  /\ lastTxnId (fst (ExecuteRequest 5 tt req)) = uint16 (lastTxnId tt + 1).
Proof.
  intros req tt.
  apply (proj2 (ExecuteRequest_failed_send_reads_nothing 5 tt req ErrClosed));
    reflexivity.
Defined.

(** X15. The server's read never writes and its write never reads:
    [ReadRequest], however it ends, leaves untouched what was handed to the
    socket and the outcomes of the writes to come; [WriteResponse] leaves
    the pending input, the log and the recorded transaction id untouched
    and hands the socket one frame. *)
Theorem ReadRequest_never_writes_WriteResponse_never_reads
  (tt : tcpTransport) (res : pdu) :
  (written (socket (fst (ReadRequest tt))) = written (socket tt)
   /\ wr (socket (fst (ReadRequest tt))) = wr (socket tt))
  /\ (rx (socket (fst (WriteResponse tt res))) = rx (socket tt)
      /\ logger (fst (WriteResponse tt res)) = logger tt
      /\ lastTxnId (fst (WriteResponse tt res)) = lastTxnId tt
      /\ written (socket (fst (WriteResponse tt res)))
         = written (socket tt) ++ [assembleMBAPFrame (lastTxnId tt) res]).
Proof.
  split.
  - unfold ReadRequest.
    pose proof (Conn_SetDeadline_fields (socket tt)) as (_ & Hwr & Hw).
    destruct (Conn_SetDeadline (socket tt)) as [s [e|]]; cbn [fst] in *.
    + split; assumption.
    + pose proof (readMBAPFrame_same_output (with_socket tt s)) as (H1 & _ & H3).
      destruct (readMBAPFrame (with_socket tt s)) as [tt1 [[p t]|err]];
        cbn [fst with_socket with_lastTxnId socket] in *; split; congruence.
  - unfold WriteResponse, Conn_Write.
    destruct (next_outcome (wr (socket tt))) as [o wr']. repeat split.
Qed.

(** * Further properties of the adapter *)

Lemma firstn_add_split {A : Type} (a b : nat) (l : list A) :
  firstn (a + b) l = firstn a l ++ firstn b (skipn a l).
Proof.
  revert l. induction a as [|a IH]; intros l; [reflexivity|].
  destruct l as [|x l]; cbn [Nat.add firstn skipn app].
  - now rewrite firstn_nil.
  - now rewrite IH.
Qed.

(** Reading the leftover region in pieces. *)
Lemma read_sizes_leftover (sizes : list Z) :
  forall usw,
    wf usw ->
    Forall (fun k => 0 < k) sizes ->
    total sizes <= leftoverCount usw ->
    exists usw' chunks,
      read_sizes usw sizes = Some (usw', chunks)
      /\ concat chunks = firstn (Z.to_nat (total sizes)) (leftover usw)
      /\ map len chunks = sizes
      /\ leftover usw' = skipn (Z.to_nat (total sizes)) (leftover usw)
      /\ sock usw' = sock usw.
Proof.
  induction sizes as [|k sizes IH]; intros usw Hwf Hpos Hsum.
  - exists usw, []. repeat split.
  - inversion Hpos as [|? ? Hk Hpos']; subst. cbn [total fold_right] in *.
    fold (total sizes) in *.
    assert (Htot : 0 <= total sizes).
    { clear -Hpos'. induction Hpos' as [|x l Hx _ IHl]; cbn [total fold_right];
        [lia|]. fold (total l). lia. }
    pose proof (leftover_len usw Hwf) as Hlen.
    assert (Hsrc : source usw = leftover usw).
    { unfold source. destruct (Z.gtb_spec (leftoverCount usw) 0); [reflexivity|lia]. }
    destruct (Read_step_data usw (make k) Hwf)
      as (u1 & b1 & HR & Hwf1 & Hdel & Hleft & Hnet).
    { rewrite Hsrc. intros E. rewrite E in Hlen. unfold len in Hlen.
      cbn in Hlen. lia. }
    rewrite Hsrc, len_make, Hlen in * by lia.
    replace (Z.min k (leftoverCount usw)) with k in * by lia.
    destruct (Z.gtb_spec (leftoverCount usw) 0) as [_|]; [|lia].
    assert (Hlc1 : leftoverCount u1 = leftoverCount usw - k).
    { rewrite <- (leftover_len u1 Hwf1), Hleft. unfold len in *.
      rewrite length_skipn. lia. }
    destruct (IH u1 Hwf1 Hpos') as (u2 & chunks & HRS & Hcat & Hmap & Hleft2 & Hsock);
      [lia|].
    cbn [read_sizes]. rewrite HR, HRS.
    exists u2, (delivered b1 k :: chunks).
    split; [reflexivity|]. split; [|split; [|split]].
    + cbn [concat]. rewrite Hdel, Hcat, Hleft.
      rewrite <- firstn_add_split. f_equal. lia.
    + cbn [map]. rewrite Hmap, Hdel. f_equal.
      unfold len in *. rewrite length_firstn. lia.
    + rewrite Hleft2, Hleft, skipn_skipn. f_equal. lia.
    + congruence.
Qed.

(** X11. One datagram read in pieces of any sizes: from an adapter without
    leftover bytes, calls with buffers of positive sizes that add up to no
    more than the datagram deliver, piece by piece and in order, exactly
    the first bytes of that datagram, each call filling its buffer; the
    rest of the datagram stays as the leftover region, and no other
    datagram is taken from the socket. *)
Theorem Read_datagram_in_pieces
  (last : list byte) (usw : udpSockWrapper) (d : list byte)
  (rest : list dgram_event) (sizes : list Z) :
  serving last usw ->
  leftoverCount usw = 0 ->
  inbox (sock usw) = Datagram d :: rest ->
  len d <= maxTCPFrameLength ->
  sizes <> [] ->
  Forall (fun k => 0 < k) sizes ->
  total sizes <= len d ->
  exists usw' chunks,
    read_sizes usw sizes = Some (usw', chunks)
    /\ concat chunks = firstn (Z.to_nat (total sizes)) d
    /\ map len chunks = sizes
    /\ leftover usw' = skipn (Z.to_nat (total sizes)) d
    /\ inbox (sock usw') = rest.
Proof.
  intros Hs Hzero Hin Hd Hne Hpos Hsum.
  destruct sizes as [|k sizes]; [contradiction|].
  inversion Hpos as [|? ? Hk Hpos']; subst. cbn [total fold_right] in *.
  fold (total sizes) in *.
  assert (Htot : 0 <= total sizes).
  { clear -Hpos'. induction Hpos' as [|x l Hx _ IHl]; cbn [total fold_right];
      [lia|]. fold (total l). lia. }
  pose proof (serving_wf _ _ Hs) as Hwf. pose proof Hwf as [Hlen _].
  unfold maxTCPFrameLength in *.
  assert (Hsrc : source usw = d).
  { unfold source. rewrite Hzero, Hin. cbn [Z.gtb Z.compare].
    apply firstn_all2. unfold len in *. lia. }
  destruct (Read_step_data usw (make k) Hwf)
    as (u1 & b1 & HR & Hwf1 & Hdel & Hleft & Hnet).
  { rewrite Hsrc. intros ->. unfold len in Hsum. cbn in Hsum. lia. }
  rewrite Hsrc, len_make in * by lia.
  replace (Z.min k (len d)) with k in * by lia.
  rewrite Hzero in Hnet. cbn [Z.gtb Z.compare] in Hnet.
  rewrite Hin in Hnet. cbn [tl] in Hnet.
  assert (Hlc1 : leftoverCount u1 = len d - k).
  { rewrite <- (leftover_len u1 Hwf1), Hleft. unfold len in *.
    rewrite length_skipn. lia. }
  destruct (read_sizes_leftover sizes u1 Hwf1 Hpos')
    as (u2 & chunks & HRS & Hcat & Hmap & Hleft2 & Hsock); [lia|].
  cbn [read_sizes]. rewrite HR, HRS.
  exists u2, (delivered b1 k :: chunks).
  split; [reflexivity|]. split; [|split; [|split]].
  - cbn [concat]. rewrite Hdel, Hcat, Hleft.
    rewrite <- firstn_add_split. f_equal. lia.
  - cbn [map]. rewrite Hmap, Hdel. f_equal.
    unfold len in *. rewrite length_firstn. lia.
  - rewrite Hleft2, Hleft, skipn_skipn. f_equal. lia.
  - rewrite Hsock. exact Hnet.
Qed.

Lemma Read_datagram_in_pieces_witness :
  let d := [x01; x02; x03; x04; x05; x06; x07] in
  let usw := newUDPSockWrapper (mkUDPConn [Datagram d; Datagram [x08]]) in
  exists usw' chunks,
    read_sizes usw [2; 1; 3] = Some (usw', chunks)
    /\ concat chunks = firstn (Z.to_nat (total [2; 1; 3])) d
    /\ map len chunks = [2; 1; 3]
    /\ leftover usw' = skipn (Z.to_nat (total [2; 1; 3])) d
    /\ inbox (sock usw') = [Datagram [x08]].
Proof.
  intros d usw.
  apply (Read_datagram_in_pieces [] usw d [Datagram [x08]] [2; 1; 3]).
  - apply serving_new.
  - reflexivity.
  - reflexivity.
  - cbn. unfold maxTCPFrameLength. lia.
  - discriminate.
  - repeat constructor.
  - cbn. lia.
Defined.

(** * The transport's reads through the adapter *)

(** ** The reads over any reader are the reads over a stream socket *)

Lemma Framing_loop_mono {R : Type}
  (Rd : R -> list byte -> option (R * list byte * Z * option io_error))
  (turns : nat) :
  forall r buf min n err x,
    Framing.ReadAtLeast_loop R Rd turns r buf min n err = Some x ->
    Framing.ReadAtLeast_loop R Rd (S turns) r buf min n err = Some x.
Proof.
  induction turns as [|turns IH]; intros r buf min n err x H.
  - cbn [Framing.ReadAtLeast_loop] in *.
    destruct ((n <? min) && is_nil err); [discriminate|exact H].
  - cbn [Framing.ReadAtLeast_loop] in H.
    change (Framing.ReadAtLeast_loop R Rd (S (S turns)) r buf min n err)
      with (if (n <? min) && is_nil err
            then match Rd r (slice_from buf n) with
                 | None => None
                 | Some (r', tail', nn, err') =>
                     Framing.ReadAtLeast_loop R Rd (S turns) r'
                       (slice buf 0 n ++ tail') min (n + nn) err'
                 end
            else Some (r, buf, n, err)).
    destruct ((n <? min) && is_nil err); [|exact H].
    destruct (Rd r (slice_from buf n)) as [[[[r' tail'] nn] err']|];
      [|discriminate].
    now apply IH.
Qed.

Lemma Framing_loop_mono_le {R : Type}
  (Rd : R -> list byte -> option (R * list byte * Z * option io_error))
  (turns turns' : nat) r buf min n err x :
  (turns <= turns')%nat ->
  Framing.ReadAtLeast_loop R Rd turns r buf min n err = Some x ->
  Framing.ReadAtLeast_loop R Rd turns' r buf min n err = Some x.
Proof.
  induction 1 as [|m _ IH]; intros H; [exact H|].
  apply Framing_loop_mono. now apply IH.
Qed.

(** On a stream socket the bounded loop, once it has left by its condition,
    has done what the loop of the stream transport does. *)
Lemma Framing_loop_Conn (turns : nat) :
  forall r buf min n err,
    (let '(_, _, n', err') := ReadAtLeast_loop turns r buf min n err in
     (n' <? min) && is_nil err' = false) ->
    Framing.ReadAtLeast_loop Conn Conn_reader turns r buf min n err
    = Some (ReadAtLeast_loop turns r buf min n err).
Proof.
  induction turns as [|turns IH]; intros r buf min n err Hexit;
    cbn [ReadAtLeast_loop Framing.ReadAtLeast_loop] in *.
  - rewrite Hexit. reflexivity.
  - destruct ((n <? min) && is_nil err); [|reflexivity].
    unfold Conn_reader.
    destruct (Conn_Read r (slice_from buf n)) as [[[r' tail'] nn] err'].
    now apply IH.
Qed.

Lemma Framing_ReadFull_Conn (turns : nat) (r : Conn) (buf : list byte) :
  (length (rx r) < turns)%nat ->
  Framing.ReadFull Conn Conn_reader turns r buf = Some (ReadFull r buf).
Proof.
  intros Hturns. unfold Framing.ReadFull, ReadFull.
  pose proof (ReadAtLeast_loop_exit (S (length (rx r))) r buf 0 None) as Hexit.
  pose proof (Framing_loop_Conn (S (length (rx r))) r buf (len buf) 0 None) as HA.
  destruct (ReadAtLeast_loop (S (length (rx r))) r buf (len buf) 0 None)
    as [[[r' buf'] n'] err'] eqn:Hloop.
  pose proof (len_nonneg buf) as Hb.
  destruct Hexit as (_ & Hn & Hstop & _); [left; lia|lia|].
  rewrite (Framing_loop_mono_le Conn_reader (S (length (rx r))) turns
             r buf (len buf) 0 None (r', buf', n', err')); [reflexivity|lia|].
  apply HA. destruct Hstop as [->|Herr].
  - rewrite Z.ltb_irrefl. reflexivity.
  - destruct err'; [apply andb_false_r|contradiction].
Qed.

Lemma Conn_Read_events (c : Conn) (buf : list byte) :
  (length (rx (fst (fst (fst (Conn_Read c buf))))) <= length (rx c))%nat.
Proof.
  unfold Conn_Read. destruct (rx c) as [|[bs|e] rest] eqn:Hrx.
  - cbn [fst]. rewrite Hrx. cbn. lia.
  - destruct (copy buf bs) as [buf' n]. cbn [fst rx].
    destruct (n <? len bs); cbn [length]; lia.
  - cbn. lia.
Qed.

Lemma ReadAtLeast_loop_events (turns : nat) :
  forall r buf min n err,
    (length (rx (fst (fst (fst (ReadAtLeast_loop turns r buf min n err)))))
     <= length (rx r))%nat.
Proof.
  induction turns as [|turns IH]; intros r buf min n err; cbn [ReadAtLeast_loop].
  - cbn. lia.
  - destruct ((n <? min) && is_nil err); [|cbn; lia].
    pose proof (Conn_Read_events r (slice_from buf n)) as HR.
    destruct (Conn_Read r (slice_from buf n)) as [[[r' tail'] nn] err'].
    cbn [fst] in HR.
    specialize (IH r' (slice buf 0 n ++ tail') min (n + nn) err'). lia.
Qed.

Lemma ReadFull_events (r : Conn) (buf : list byte) :
  (length (rx (fst (fst (fst (ReadFull r buf))))) <= length (rx r))%nat.
Proof.
  unfold ReadFull.
  pose proof (ReadAtLeast_loop_events (S (length (rx r))) r buf (len buf) 0 None) as H.
  destruct (ReadAtLeast_loop _ r buf (len buf) 0 None) as [[[r' buf'] n] err].
  exact H.
Qed.

(** The decoder over any reader, run on a stream socket with turns enough
    for its script, is [readMBAPFrame] of the stream transport. *)
Lemma Framing_readMBAPFrame_Conn (turns : nat) (tt : tcpTransport) :
  (length (rx (socket tt)) < turns)%nat ->
  exists s' ws r,
    Framing.readMBAPFrame Conn Conn_reader turns (socket tt) = Some (s', ws, r)
    /\ readMBAPFrame tt
       = (mkTcpTransport (logger tt ++ ws) s' (lastTxnId tt), r).
Proof.
  intros Hturns. unfold Framing.readMBAPFrame, readMBAPFrame.
  rewrite Framing_ReadFull_Conn by exact Hturns.
  pose proof (ReadFull_events (socket tt) (make mbapHeaderLength)) as Hev.
  destruct (ReadFull (socket tt) (make mbapHeaderLength))
    as [[[s1 hdr] n1] [e1|]]; cbn [fst] in Hev.
  { do 3 eexists. split; [reflexivity|]. rewrite app_nil_r. reflexivity. }
  destruct (_ >? maxTCPFrameLength).
  { do 3 eexists. split; [reflexivity|]. rewrite app_nil_r. reflexivity. }
  destruct (_ <=? 0).
  { do 3 eexists. split; [reflexivity|]. rewrite app_nil_r. reflexivity. }
  cbn [with_socket socket].
  rewrite Framing_ReadFull_Conn by lia.
  destruct (ReadFull s1 _) as [[[s2 body] n2] [e2|]].
  { do 3 eexists. split; [reflexivity|]. rewrite app_nil_r. reflexivity. }
  destruct (negb _).
  - do 3 eexists. split; reflexivity.
  - do 3 eexists. split; [reflexivity|]. rewrite app_nil_r. reflexivity.
Qed.

(** ** A frame inside a datagram *)

(** A call whose source holds at least what the buffer asks for: the buffer
    is filled from the front of the source. *)
Lemma Read_fills (usw : udpSockWrapper) (buf want more : list byte) :
  wf usw ->
  source usw = want ++ more ->
  length buf = length want ->
  want <> [] ->
  exists usw',
    Read usw buf = Some (usw', want, len buf, None)
    /\ wf usw'
    /\ leftover usw' = more
    /\ (if leftoverCount usw >? 0 then sock usw' = sock usw
        else inbox (sock usw') = tl (inbox (sock usw))).
Proof.
  intros Hwf Hsrc Hlen Hne.
  destruct (Read_step usw buf Hwf)
    as (u & b & m & e & HR & Hwf' & Hn & Herr & Hdel & Hleft & Hrest & Hnet).
  destruct e as [e|].
  { destruct Herr as [_ H]; [discriminate|].
    rewrite H in Hsrc. symmetry in Hsrc. apply app_eq_nil in Hsrc as [-> _].
    contradiction. }
  specialize (Hn eq_refl).
  assert (Hm : m = len buf).
  { rewrite Hn, Hsrc, len_app. unfold len. pose proof (len_nonneg more).
    unfold len in *. lia. }
  subst m. rewrite Hm in *.
  assert (Hb : b = want).
  { rewrite <- (firstn_skipn (Z.to_nat (len buf)) b).
    unfold delivered in Hdel. rewrite slice_0 in Hdel. rewrite Hdel.
    unfold slice_from in Hrest. rewrite Hrest.
    rewrite (skipn_all2 buf) by (unfold len; lia). rewrite app_nil_r.
    rewrite Hsrc, firstn_app.
    replace (Z.to_nat (len buf) - length want)%nat with 0%nat
      by (unfold len; lia).
    cbn [firstn]. rewrite app_nil_r. apply firstn_all2. unfold len. lia. }
  exists u. rewrite HR, Hb. split; [reflexivity|]. split; [exact Hwf'|].
  split.
  - rewrite Hleft, Hsrc, skipn_app.
    replace (Z.to_nat (len buf) - length want)%nat with 0%nat
      by (unfold len; lia).
    rewrite skipn_all2 by (unfold len; lia). reflexivity.
  - destruct (leftoverCount usw >? 0); [apply Hnet|exact Hnet].
Qed.

(** [io.ReadFull] through the adapter, under the same conditions: one call
    of the adapter fills the buffer. *)
Lemma Framing_ReadFull_adapter
  (turns : nat) (usw : udpSockWrapper) (buf want more : list byte) :
  wf usw ->
  source usw = want ++ more ->
  length buf = length want ->
  want <> [] ->
  (0 < turns)%nat ->
  exists usw',
    Framing.ReadFull udpSockWrapper Read turns usw buf
    = Some (usw', want, len buf, None)
    /\ wf usw'
    /\ leftover usw' = more
    /\ (if leftoverCount usw >? 0 then sock usw' = sock usw
        else inbox (sock usw') = tl (inbox (sock usw))).
Proof.
  intros Hwf Hsrc Hlen Hne Hturns.
  destruct (Read_fills usw buf want more Hwf Hsrc Hlen Hne)
    as (usw' & HR & Hrest).
  exists usw'. split; [|exact Hrest].
  assert (Hpos : 0 < len buf).
  { unfold len. rewrite Hlen. destruct want; [contradiction|cbn; lia]. }
  destruct turns as [|turns]; [lia|].
  unfold Framing.ReadFull. cbn [Framing.ReadAtLeast_loop is_nil].
  destruct (Z.ltb_spec 0 (len buf)) as [_|]; [|lia]. cbn [andb].
  change (slice_from buf 0) with buf. rewrite HR.
  change (slice buf 0 0) with (@nil byte). cbn [app Z.add].
  assert (Hexit : forall k,
             Framing.ReadAtLeast_loop udpSockWrapper Read k usw' want
               (len buf) (len buf) None
             = Some (usw', want, len buf, None)).
  { intros [|k]; cbn [Framing.ReadAtLeast_loop]; rewrite Z.ltb_irrefl;
      reflexivity. }
  rewrite Hexit, Z.leb_refl. reflexivity.
Qed.

(** X12. The framing runs unchanged over the adapter: when the bytes the
    adapter can draw on (its leftover region, or else the next datagram)
    begin with a frame assembled from a 16-bit id and a payload of at most
    252 bytes, [readMBAPFrame] over the adapter, with its header read and
    its body read served by the one datagram, returns the PDU and the id
    and logs nothing; what followed the frame in the datagram is kept as
    the leftover region, and the socket is asked for nothing but, when no
    bytes were buffered, that one datagram. *)
Theorem readMBAPFrame_through_adapter
  (turns : nat) (last : list byte) (usw : udpSockWrapper)
  (t : Z) (p : pdu) (more : list byte) :
  serving last usw ->
  source usw = assembleMBAPFrame t p ++ more ->
  0 <= t < 65536 ->
  len (payload p) <= 252 ->
  (0 < turns)%nat ->
  exists usw',
    Framing.readMBAPFrame udpSockWrapper Read turns usw
    = Some (usw', [], Ok (p, t))
    /\ leftover usw' = more
    /\ (if leftoverCount usw >? 0 then sock usw' = sock usw
        else inbox (sock usw') = tl (inbox (sock usw))).
Proof.
  intros Hs Hsrc Ht Hp Hturns.
  pose proof (serving_wf _ _ Hs) as Hwf.
  pose proof (len_nonneg (payload p)) as Hp0.
  rewrite assembleMBAPFrame_split, <- app_assoc in Hsrc.
  destruct (Framing_ReadFull_adapter turns usw (make mbapHeaderLength)
              (frame_header t p) (frame_body p ++ more) Hwf Hsrc)
    as (u1 & HR1 & Hwf1 & Hleft1 & Hnet1);
    [reflexivity|discriminate|exact Hturns|].
  assert (Hsrc1 : source u1 = frame_body p ++ more).
  { unfold source.
    pose proof (leftover_len u1 Hwf1) as Hl. rewrite Hleft1 in Hl.
    destruct (Z.gtb_spec (leftoverCount u1) 0) as [_|Hz]; [exact Hleft1|].
    unfold frame_body, len in Hl. cbn [app length] in Hl. lia. }
  destruct (Framing_ReadFull_adapter turns u1 (make (1 + len (payload p)))
              (frame_body p) more Hwf1 Hsrc1)
    as (u2 & HR2 & Hwf2 & Hleft2 & Hnet2);
    [|discriminate|exact Hturns|].
  { rewrite make_length. unfold frame_body, len. cbn [length]. lia. }
  assert (Hlc1 : (leftoverCount u1 >? 0) = true).
  { pose proof (leftover_len u1 Hwf1) as Hl. rewrite Hleft1 in Hl.
    unfold frame_body, len in Hl. cbn [app length] in Hl.
    apply Z.gtb_lt. lia. }
  rewrite Hlc1 in Hnet2.
  destruct (frame_header_fields t p Ht) as (Htxn & Hproto & Hlen & Hunit).
  assert (Hneeded : uint16 (2 + len (payload p)) - 1 = 1 + len (payload p))
    by (unfold uint16; rewrite Z.mod_small by lia; lia).
  exists u2. split; [|split; [exact Hleft2|]].
  - unfold Framing.readMBAPFrame. rewrite HR1.
    rewrite Htxn, Hproto, Hlen, Hunit, Hneeded.
    unfold mbapHeaderLength, maxTCPFrameLength.
    destruct (Z.gtb_spec (1 + len (payload p) + 7) 260) as [Hgt|_]; [lia|].
    destruct (Z.leb_spec (1 + len (payload p)) 0) as [Hle|_]; [lia|].
    rewrite HR2. cbn [Z.eqb negb].
    change (index (frame_body p) 0) with (functionCode p).
    change (slice_from (frame_body p) 1) with (payload p).
    destruct p; reflexivity.
  - destruct (leftoverCount usw >? 0); congruence.
Qed.

(** Two frames in one datagram: the first is decoded on receipt. *)
Lemma readMBAPFrame_through_adapter_witness :
  let p := mkPdu x11 x03 [x00; x6b; x00; x03] in
  let second := assembleMBAPFrame 8 (mkPdu x12 x04 [x01]) in
  let usw :=
    newUDPSockWrapper (mkUDPConn [Datagram (assembleMBAPFrame 7 p ++ second)]) in
  exists usw',
    Framing.readMBAPFrame udpSockWrapper Read 1 usw = Some (usw', [], Ok (p, 7))
    /\ leftover usw' = second
    /\ inbox (sock usw') = [].
Proof.
  intros p second usw.
  apply (readMBAPFrame_through_adapter 1 [] usw 7 p second).
  - apply serving_new.
  - reflexivity.
  - lia.
  - cbn. lia.
  - lia.
Defined.

(** ** Bounds *)

Lemma source_len (usw : udpSockWrapper) :
  wf usw -> len (source usw) <= maxTCPFrameLength.
Proof.
  intros Hwf. pose proof (leftover_len usw Hwf) as Hl.
  destruct Hwf as [Hlen Hlc]. unfold source.
  destruct (leftoverCount usw >? 0); [lia|].
  unfold maxTCPFrameLength in *.
  destruct (inbox (sock usw)) as [|[d|e] rest]; unfold len in *; cbn [length];
    try lia.
  rewrite length_firstn. lia.
Qed.

(** X16. [Read] never panics: in every state the adapter goes through and
    for every buffer, each slice expression of the call is within bounds
    and the call returns.  The count it returns is between 0 and
    [len(buf)] and never above the maximum frame length, the buffer keeps
    its length, and its bytes from the count on are left as they were. *)
Theorem Read_never_panics
  (last : list byte) (usw : udpSockWrapper) (buf : list byte) :
  serving last usw ->
  exists usw' buf' n err,
    Read usw buf = Some (usw', buf', n, err)
    /\ 0 <= n <= len buf
    /\ n <= maxTCPFrameLength
    /\ length buf' = length buf
    /\ slice_from buf' n = slice_from buf n.
Proof.
  intros Hs. pose proof (serving_wf _ _ Hs) as Hwf.
  destruct (Read_step usw buf Hwf)
    as (u & b & m & e & HR & _ & Hn & Herr & Hdel & _ & Hrest & _).
  pose proof (source_len usw Hwf) as Hsrc.
  pose proof (len_nonneg buf) as Hb. pose proof (len_nonneg (source usw)) as Hs0.
  assert (Hm : 0 <= m <= len buf /\ m <= len (source usw)).
  { destruct e as [e|].
    - destruct Herr as [-> _]; [discriminate|]. lia.
    - rewrite (Hn eq_refl). lia. }
  exists u, b, m, e. split; [exact HR|].
  split; [lia|]. split; [lia|]. split; [|exact Hrest].
  apply (f_equal (@length byte)) in Hdel, Hrest.
  unfold delivered, slice_from in *. rewrite slice_0 in Hdel.
  rewrite !length_firstn in Hdel. rewrite !length_skipn in Hrest.
  unfold len in *. lia.
Qed.

Lemma Read_never_panics_witness :
  exists usw' buf' n err,
    Read (newUDPSockWrapper (mkUDPConn [Datagram (make 300)])) (make 270)
    = Some (usw', buf', n, err)
    /\ 0 <= n <= len (make 270)
    /\ n <= maxTCPFrameLength
    /\ length buf' = length (make 270)
    /\ slice_from buf' n = slice_from (make 270) n.
Proof.
  apply (Read_never_panics []
           (newUDPSockWrapper (mkUDPConn [Datagram (make 300)])) (make 270)).
  apply serving_new.
Defined.

(** ** A frame across datagrams *)

Lemma Framing_loop_done {R : Type}
  (Rd : R -> list byte -> option (R * list byte * Z * option io_error))
  (turns : nat) r buf min n err :
  (n <? min) && is_nil err = false ->
  Framing.ReadAtLeast_loop R Rd turns r buf min n err = Some (r, buf, n, err).
Proof.
  intros H. destruct turns; cbn [Framing.ReadAtLeast_loop]; rewrite H;
    reflexivity.
Qed.

Lemma Framing_loop_turn {R : Type}
  (Rd : R -> list byte -> option (R * list byte * Z * option io_error))
  (turns : nat) r buf min n err :
  (n <? min) && is_nil err = true ->
  Framing.ReadAtLeast_loop R Rd (S turns) r buf min n err
  = match Rd r (slice_from buf n) with
    | None => None
    | Some (r', tail', nn, err') =>
        Framing.ReadAtLeast_loop R Rd turns r'
          (slice buf 0 n ++ tail') min (n + nn) err'
    end.
Proof.
  intros H. cbn [Framing.ReadAtLeast_loop]. rewrite H. reflexivity.
Qed.

Lemma slice_from_app_len (pre tl : list byte) :
  slice_from (pre ++ tl) (len pre) = tl.
Proof.
  unfold slice_from, len. rewrite Nat2Z.id, skipn_app, skipn_all, Nat.sub_diag.
  reflexivity.
Qed.

Lemma slice_app_len (pre tl : list byte) :
  slice (pre ++ tl) 0 (len pre) = pre.
Proof.
  rewrite slice_0. unfold len.
  rewrite Nat2Z.id, firstn_app, firstn_all, Nat.sub_diag.
  cbn [firstn]. apply app_nil_r.
Qed.

Lemma app_split_at {A : Type} (a b x y : list A) :
  a ++ b = x ++ y ->
  (length x <= length a)%nat ->
  x = firstn (length x) a /\ y = skipn (length x) a ++ b.
Proof.
  intros H Hl. split.
  - apply (f_equal (firstn (length x))) in H.
    rewrite !firstn_app, Nat.sub_diag, firstn_all in H.
    replace (length x - length a)%nat with 0%nat in H by lia.
    cbn [firstn] in H. rewrite !app_nil_r in H. congruence.
  - apply (f_equal (skipn (length x))) in H.
    rewrite !skipn_app, Nat.sub_diag, skipn_all in H.
    replace (length x - length a)%nat with 0%nat in H by lia.
    cbn [skipn app] in H. congruence.
Qed.

Lemma app_split_past {A : Type} (a b x y : list A) :
  a ++ b = x ++ y ->
  (length a <= length x)%nat ->
  x = a ++ skipn (length a) x /\ b = skipn (length a) x ++ y.
Proof.
  intros H Hl. symmetry in H.
  destruct (app_split_at x y a b H Hl) as [Ha Hb]. split.
  - rewrite <- (firstn_skipn (length a) x) at 1. f_equal. congruence.
  - exact Hb.
Qed.

(** The loop of [io.ReadAtLeast] over an adapter that holds no leftover
    bytes: it fills the rest of the buffer from the datagrams to come,
    whatever their boundaries, and keeps what it did not use of the last
    one it received. *)
Lemma Framing_loop_datagrams (rest : list dgram_event) (ds : list (list byte)) :
  forall turns usw pre tl want more,
    wf usw ->
    leftoverCount usw = 0 ->
    inbox (sock usw) = map Datagram ds ++ rest ->
    Forall (fun d => len d <= maxTCPFrameLength) ds ->
    concat ds = want ++ more ->
    length tl = length want ->
    (length ds <= turns)%nat ->
    exists usw' ds',
      Framing.ReadAtLeast_loop udpSockWrapper Read turns usw (pre ++ tl)
        (len (pre ++ tl)) (len pre) None
      = Some (usw', pre ++ want, len (pre ++ tl), None)
      /\ wf usw'
      /\ inbox (sock usw') = map Datagram ds' ++ rest
      /\ leftover usw' ++ concat ds' = more
      /\ Forall (fun d => len d <= maxTCPFrameLength) ds'
      /\ (length ds' <= length ds)%nat.
Proof.
  induction ds as [|d ds IH];
    intros turns usw pre tl want more Hwf Hzero Hin Hall Hcat Hlen Hturns.
  - (* no datagram to come: nothing is wanted *)
    cbn [concat] in Hcat. symmetry in Hcat. apply app_eq_nil in Hcat as [-> ->].
    destruct tl; [|discriminate]. rewrite app_nil_r.
    exists usw, []. rewrite Framing_loop_done by (rewrite Z.ltb_irrefl; reflexivity).
    split; [reflexivity|]. split; [exact Hwf|]. split; [exact Hin|].
    split; [unfold leftover; rewrite Hzero; reflexivity|].
    split; [constructor|cbn; lia].
  - destruct (Z.ltb_spec (len pre) (len (pre ++ tl))) as [Hlt|Hge].
    2:{ (* the buffer is full already *)
      rewrite len_app in Hge.
      assert (tl = []) by (destruct tl; [reflexivity|unfold len in Hge; cbn in Hge; lia]).
      subst tl. destruct want; [|discriminate]. rewrite !app_nil_r.
      exists usw, (d :: ds).
      rewrite Framing_loop_done
        by (destruct (Z.ltb_spec (len pre) (len pre)); [lia|reflexivity]).
      split; [reflexivity|]. split; [exact Hwf|]. split; [exact Hin|].
      split; [unfold leftover; rewrite Hzero; exact Hcat|].
      split; [exact Hall|lia]. }
    destruct turns as [|turns]; [cbn in Hturns; lia|].
    rewrite Framing_loop_turn
      by (destruct (Z.ltb_spec (len pre) (len (pre ++ tl))); [reflexivity|lia]).
    rewrite slice_from_app_len, slice_app_len.
    inversion Hall as [|? ? Hd Hall']; subst.
    pose proof Hwf as [Hrl _]. unfold maxTCPFrameLength in *.
    destruct (Read_receive_eq usw tl d (map Datagram ds ++ rest) Hwf
                ltac:(lia) Hin) as (rxbuf' & HR & Hl' & Hshift).
    assert (Hd' : firstn (length (rxbuf usw)) d = d)
      by (apply firstn_all2; unfold len in *; lia).
    rewrite Hd' in HR, Hshift. rewrite HR.
    rewrite len_app in Hlt. cbn [concat] in Hcat.
    pose proof (len_nonneg tl) as Htl0. pose proof (len_nonneg d) as Hd0.
    set (m := Z.min (len tl) (len d)) in *.
    set (usw1 := mkUdpSockWrapper (len d - m) rxbuf'
                   (mkUDPConn (map Datagram ds ++ rest))) in *.
    assert (Hwf1 : wf usw1).
    { unfold usw1, wf. cbn [rxbuf leftoverCount].
      unfold maxTCPFrameLength, m, len in *. lia. }
    assert (Hleft1 : leftover usw1 = skipn (Z.to_nat m) d) by exact Hshift.
    unfold copy. cbn [fst].
    destruct (Z.le_gt_cases (len tl) (len d)) as [Hfill|Hmore].
    + (* the datagram fills the buffer *)
      assert (Hm : m = len tl) by (unfold m; lia).
      replace (Nat.min (length tl) (length d)) with (length tl)
        by (unfold len in *; lia).
      rewrite skipn_all, app_nil_r.
      destruct (app_split_at d (concat ds) want more Hcat) as [Hw Hmo];
        [unfold len in *; lia|].
      rewrite <- Hlen in Hw, Hmo.
      exists usw1, ds. rewrite <- Hw.
      replace (len pre + m) with (len (pre ++ tl))
        by (rewrite len_app; lia).
      rewrite Framing_loop_done by (rewrite Z.ltb_irrefl; reflexivity).
      rewrite Hw.
      split; [reflexivity|]. split; [exact Hwf1|]. split; [reflexivity|].
      split; [|split; [exact Hall'|cbn [length]; lia]].
      rewrite Hleft1, Hmo, Hm. unfold len. rewrite Nat2Z.id. reflexivity.
    + (* the datagram is used up and the loop goes on *)
      assert (Hm : m = len d) by (unfold m; lia).
      replace (Nat.min (length tl) (length d)) with (length d)
        by (unfold len in *; lia).
      rewrite firstn_all.
      destruct (app_split_past d (concat ds) want more Hcat) as [Hw Hrest];
        [unfold len in *; lia|].
      assert (Hzero1 : leftoverCount usw1 = 0) by (cbn; lia).
      destruct (IH turns usw1 (pre ++ d) (skipn (length d) tl)
                  (skipn (length d) want) more Hwf1 Hzero1 eq_refl Hall' Hrest)
        as (usw' & ds' & Hloop & Hwf' & Hin' & Hmore' & Hall'' & Hlen'').
      { rewrite !length_skipn. lia. }
      { cbn in Hturns. lia. }
      exists usw', ds'.
      replace (len pre + m) with (len (pre ++ d)) by (rewrite len_app; lia).
      assert (Hsame : len (pre ++ tl) = len ((pre ++ d) ++ skipn (length d) tl)).
      { rewrite !len_app. unfold len. rewrite length_skipn.
        unfold len in *. lia. }
      rewrite Hsame, (app_assoc pre d), Hloop, <- app_assoc, <- Hw.
      split; [reflexivity|]. split; [exact Hwf'|]. split; [exact Hin'|].
      split; [exact Hmore'|]. split; [exact Hall''|cbn [length]; lia].
Qed.

(** [io.ReadFull] over the adapter: the leftover bytes and the datagrams to
    come are one byte stream, from which the buffer is filled. *)
Lemma Framing_ReadFull_datagrams
  (rest : list dgram_event) (ds : list (list byte)) (turns : nat)
  (usw : udpSockWrapper) (buf want more : list byte) :
  wf usw ->
  inbox (sock usw) = map Datagram ds ++ rest ->
  Forall (fun d => len d <= maxTCPFrameLength) ds ->
  leftover usw ++ concat ds = want ++ more ->
  length buf = length want ->
  (length ds < turns)%nat ->
  exists usw' ds',
    Framing.ReadFull udpSockWrapper Read turns usw buf
    = Some (usw', want, len buf, None)
    /\ wf usw'
    /\ inbox (sock usw') = map Datagram ds' ++ rest
    /\ leftover usw' ++ concat ds' = more
    /\ Forall (fun d => len d <= maxTCPFrameLength) ds'
    /\ (length ds' <= length ds)%nat.
Proof.
  intros Hwf Hin Hall Hcat Hlen Hturns.
  pose proof (len_nonneg buf) as Hb0.
  unfold Framing.ReadFull.
  pose proof (leftover_len usw Hwf) as HL.
  destruct (Z.eq_dec (leftoverCount usw) 0) as [Hzero|Hpos].
  - (* nothing buffered *)
    assert (Hnil : leftover usw = [])
      by (unfold leftover; rewrite Hzero; reflexivity).
    rewrite Hnil in Hcat. cbn [app] in Hcat.
    destruct (Framing_loop_datagrams rest ds turns usw [] buf want more
                Hwf Hzero Hin Hall Hcat Hlen ltac:(lia))
      as (usw' & ds' & Hloop & Hrest).
    cbn [app] in Hloop. change (len []) with 0 in Hloop.
    exists usw', ds'. rewrite Hloop. split; [|exact Hrest].
    cbn zeta. rewrite Z.leb_refl. reflexivity.
  - pose proof Hwf as [Hrl Hlc]. unfold maxTCPFrameLength in *.
    destruct (Z.ltb_spec 0 (len buf)) as [Hlt|Hge].
    2:{ (* an empty buffer *)
      assert (buf = []) by (destruct buf; [reflexivity|unfold len in Hge; cbn in Hge; lia]).
      subst buf. destruct want; [|discriminate]. cbn [app] in Hcat.
      exists usw, ds.
      rewrite Framing_loop_done by reflexivity.
      split; [reflexivity|]. split; [exact Hwf|]. split; [exact Hin|].
      split; [exact Hcat|]. split; [exact Hall|lia]. }
    destruct turns as [|turns]; [lia|].
    rewrite Framing_loop_turn
      by (destruct (Z.ltb_spec 0 (len buf)); [reflexivity|lia]).
    change (slice_from buf 0) with buf. change (slice buf 0 0) with (@nil byte).
    cbn [app Z.add].
    destruct (Read_leftover_eq usw buf Hwf ltac:(lia)) as (rxbuf' & HR & Hl' & Hshift).
    rewrite HR.
    set (m := Z.min (len buf) (leftoverCount usw)) in *.
    set (usw1 := mkUdpSockWrapper (leftoverCount usw - m) rxbuf' (sock usw)) in *.
    assert (Hwf1 : wf usw1).
    { unfold usw1, wf. cbn [rxbuf leftoverCount].
      unfold maxTCPFrameLength, m, len in *. lia. }
    assert (Hleft1 : leftover usw1 = skipn (Z.to_nat m) (leftover usw)).
    { unfold leftover at 1, usw1. cbn [rxbuf leftoverCount]. rewrite Hshift.
      rewrite slice_skipn_firstn by (unfold m; lia).
      unfold leftover. rewrite slice_0. reflexivity. }
    unfold copy. cbn [fst].
    destruct (Z.le_gt_cases (len buf) (leftoverCount usw)) as [Hfill|Hmore].
    + (* the leftover bytes fill the buffer *)
      assert (Hm : m = len buf) by (unfold m; lia).
      replace (Nat.min (length buf) (length (leftover usw))) with (length buf)
        by (unfold len in *; lia).
      rewrite skipn_all, app_nil_r.
      destruct (app_split_at (leftover usw) (concat ds) want more Hcat) as [Hw Hmo];
        [unfold len in *; lia|].
      rewrite <- Hlen in Hw, Hmo. rewrite <- Hw.
      exists usw1, ds.
      rewrite Framing_loop_done
        by (rewrite Hm, Z.ltb_irrefl; reflexivity).
      rewrite Hm. cbn zeta. rewrite Z.leb_refl.
      split; [reflexivity|]. split; [exact Hwf1|]. split; [exact Hin|].
      split; [|split; [exact Hall|lia]].
      rewrite Hleft1, Hmo, Hm. unfold len. rewrite Nat2Z.id. reflexivity.
    + (* the leftover bytes are used up and the loop goes on *)
      assert (Hm : m = leftoverCount usw) by (unfold m; lia).
      replace (Nat.min (length buf) (length (leftover usw)))
        with (length (leftover usw)) by (unfold len in *; lia).
      rewrite firstn_all.
      destruct (app_split_past (leftover usw) (concat ds) want more Hcat) as [Hw Hrest];
        [unfold len in *; lia|].
      assert (Hzero1 : leftoverCount usw1 = 0) by (cbn; lia).
      destruct (Framing_loop_datagrams rest ds turns usw1 (leftover usw)
                  (skipn (length (leftover usw)) buf)
                  (skipn (length (leftover usw)) want) more
                  Hwf1 Hzero1 Hin Hall Hrest)
        as (usw' & ds' & Hloop & Hrest').
      { rewrite !length_skipn. lia. }
      { lia. }
      exists usw', ds'.
      assert (Hsame : len buf
                      = len (leftover usw ++ skipn (length (leftover usw)) buf)).
      { rewrite len_app. unfold len. rewrite length_skipn. unfold len in *. lia. }
      replace m with (len (leftover usw)) by lia.
      rewrite Hsame at 1. rewrite Hloop, <- Hw, <- Hsame.
      cbn zeta. rewrite Z.leb_refl.
      split; [reflexivity|exact Hrest'].
Qed.

(** X18. The adapter makes the datagrams a byte stream for the framing:
    when the adapter's leftover bytes followed by the datagrams to come
    (each of at most 260 bytes, cut anywhere, empty ones included) begin
    with a frame assembled from a 16-bit id and a payload of at most 252
    bytes, [readMBAPFrame] over the adapter returns the PDU and the id and
    logs nothing, given a turn of its read loop for each datagram; what
    followed the frame is still to be read, as leftover bytes and
    datagrams not yet received, and no datagram was taken out of order. *)
Theorem readMBAPFrame_across_datagrams
  (turns : nat) (last : list byte) (usw : udpSockWrapper)
  (ds : list (list byte)) (rest : list dgram_event)
  (t : Z) (p : pdu) (more : list byte) :
  serving last usw ->
  inbox (sock usw) = map Datagram ds ++ rest ->
  Forall (fun d => len d <= maxTCPFrameLength) ds ->
  leftover usw ++ concat ds = assembleMBAPFrame t p ++ more ->
  0 <= t < 65536 ->
  len (payload p) <= 252 ->
  (length ds < turns)%nat ->
  exists usw' ds',
    Framing.readMBAPFrame udpSockWrapper Read turns usw
    = Some (usw', [], Ok (p, t))
    /\ inbox (sock usw') = map Datagram ds' ++ rest
    /\ leftover usw' ++ concat ds' = more
    /\ (length ds' <= length ds)%nat.
Proof.
  intros Hs Hin Hall Hcat Ht Hp Hturns.
  pose proof (serving_wf _ _ Hs) as Hwf.
  pose proof (len_nonneg (payload p)) as Hp0.
  rewrite assembleMBAPFrame_split, <- app_assoc in Hcat.
  destruct (Framing_ReadFull_datagrams rest ds turns usw (make mbapHeaderLength)
              (frame_header t p) (frame_body p ++ more) Hwf Hin Hall Hcat)
    as (u1 & ds1 & HR1 & Hwf1 & Hin1 & Hcat1 & Hall1 & Hlen1);
    [reflexivity|exact Hturns|].
  destruct (Framing_ReadFull_datagrams rest ds1 turns u1
              (make (1 + len (payload p))) (frame_body p) more
              Hwf1 Hin1 Hall1 Hcat1)
    as (u2 & ds2 & HR2 & Hwf2 & Hin2 & Hcat2 & Hall2 & Hlen2); [|lia|].
  { rewrite make_length. unfold frame_body, len. cbn [length]. lia. }
  destruct (frame_header_fields t p Ht) as (Htxn & Hproto & Hlen & Hunit).
  assert (Hneeded : uint16 (2 + len (payload p)) - 1 = 1 + len (payload p))
    by (unfold uint16; rewrite Z.mod_small by lia; lia).
  exists u2, ds2. split; [|split; [exact Hin2|split; [exact Hcat2|lia]]].
  unfold Framing.readMBAPFrame. rewrite HR1.
  rewrite Htxn, Hproto, Hlen, Hunit, Hneeded.
  unfold mbapHeaderLength, maxTCPFrameLength.
  destruct (Z.gtb_spec (1 + len (payload p) + 7) 260) as [Hgt|_]; [lia|].
  destruct (Z.leb_spec (1 + len (payload p)) 0) as [Hle|_]; [lia|].
  rewrite HR2. cbn [Z.eqb negb].
  change (index (frame_body p) 0) with (functionCode p).
  change (slice_from (frame_body p) 1) with (payload p).
  destruct p; reflexivity.
Qed.

(** A frame cut after its third byte and again inside its payload, with an
    empty datagram in between. *)
Lemma readMBAPFrame_across_datagrams_witness :
  let p := mkPdu x11 x03 [x00; x6b; x00; x03] in
  let ds := [[x00; x07; x00]; []; [x00; x00; x06; x11; x03; x00];
             [x6b; x00; x03; xee]] in
  let usw := newUDPSockWrapper (mkUDPConn (map Datagram ds ++ [])) in
  exists usw' ds',
    Framing.readMBAPFrame udpSockWrapper Read 5 usw = Some (usw', [], Ok (p, 7))
    /\ inbox (sock usw') = map Datagram ds' ++ []
    /\ leftover usw' ++ concat ds' = [xee]
    /\ (length ds' <= length ds)%nat.
Proof.
  intros p ds usw.
  apply (readMBAPFrame_across_datagrams 5 [] usw ds [] 7 p [xee]).
  - apply serving_new.
  - reflexivity.
  - repeat constructor; cbn; unfold maxTCPFrameLength; lia.
  - reflexivity.
  - lia.
  - cbn. lia.
  - cbn. lia.
Defined.
